(** * youtube-video-generator: retry executor, narration chunking,
      duration estimate, topic score, compliance gate and assembler timing

    A shallow embedding of the pure and state-passing cores of
    [utils.py], [script_generator.py], [voiceover.py],
    [visual_sourcer.py], [compliance_checker.py], [topic_discovery.py]
    and [video_assembler.py], followed by the properties the
    specification states about them and by further properties of the
    code: its helpers, its error paths and what a run leaves behind.

    Conventions.
    - A Python [str] is a [string]; its characters are the code points
      below 256, so [lower] and [isspace] follow Python on that range.
    - A Python [int] is a [Z].
    - A Python [float] is a binary64 value ([Binary64.float64]); every
      finite value is a whole number of units of [2^-1074], and each
      arithmetic operation rounds the exact result to nearest, ties to
      even.
    - Calls into MoviePy, the clock and the file system are oracles of an
      environment; what a MoviePy call does when it succeeds follows the
      library's documented contract.
    - The wall-clock durations handed to the metrics are left out. *)

From Stdlib Require Import ZArith Lia List Bool String Ascii QArith.
From Stdlib Require Import DecimalString Sorted.
Import ListNotations.

Open Scope string_scope.
Open Scope Z_scope.

(* ===================================================================== *)
(** * Python exceptions and results                                        *)
(* ===================================================================== *)

(** The exceptions the modelled code raises or lets through, all of them
    subclasses of [Exception]; [External] stands for any [Exception] raised
    inside a third-party call.  Interrupts and exits, which no
    [except Exception] catches, are outside the model. *)
Inductive exn : Type :=
| ValueError (msg : string)
| RuntimeError (msg : string)
| OverflowError
| ZeroDivisionError
| OSError
| External (msg : string).

(** [str(e)] for the exceptions above. *)
Definition exn_message (e : exn) : string :=
  match e with
  | ValueError m | RuntimeError m | External m => m
  | OverflowError => "overflow"
  | ZeroDivisionError => "division by zero"
  | OSError => "os error"
  end.

Inductive Result (A : Type) : Type :=
| Ok (a : A)
| Raise (e : exn).
Arguments Ok {A} a.
Arguments Raise {A} e.

Definition rbind {A B} (r : Result A) (k : A -> Result B) : Result B :=
  match r with
  | Ok a => k a
  | Raise e => Raise e
  end.

(* ===================================================================== *)
(** * Python strings                                                       *)
(* ===================================================================== *)

Module PyStr.

(** [len(s)] as a Python [int]. *)
Definition len (s : string) : Z := Z.of_nat (String.length s).

Definition code (c : ascii) : N := N_of_ascii c.

(** [c.isspace()] on code points below 256: TAB..CR, FS..US, SPACE,
    NEL (0x85) and NBSP (0xA0).  The same class is [\s] in [re]. *)
Definition is_space (c : ascii) : bool :=
  let n := code c in
  ((9 <=? n) && (n <=? 13) || (28 <=? n) && (n <=? 32)
   || (n =? 133) || (n =? 160))%N.

(** [c.lower()] on code points below 256: A..Z and the Latin-1 capitals
    0xC0..0xDE (except the multiplication sign 0xD7) move up by 32. *)
Definition lower_char (c : ascii) : ascii :=
  let n := code c in
  if ((65 <=? n) && (n <=? 90)
      || (192 <=? n) && (n <=? 222) && negb (n =? 215))%N
  then ascii_of_N (n + 32) else c.

Fixpoint lower (s : string) : string :=
  match s with
  | EmptyString => EmptyString
  | String c s' => String (lower_char c) (lower s')
  end.

(** [s.startswith(p)]. *)
Fixpoint startswith (p s : string) : bool :=
  match p, s with
  | EmptyString, _ => true
  | String _ _, EmptyString => false
  | String a p', String b s' => Ascii.eqb a b && startswith p' s'
  end.

(** [needle in hay]. *)
Fixpoint contains (needle hay : string) : bool :=
  startswith needle hay
  || match hay with
     | EmptyString => false
     | String _ hay' => contains needle hay'
     end.

(** [hay.count(needle)] for a non-empty needle: occurrences that do not
    overlap, scanning from the left.  [skip] characters of a counted
    occurrence are still to be passed over. *)
Fixpoint count_from (skip : nat) (needle hay : string) : Z :=
  match hay with
  | EmptyString => 0
  | String _ hay' =>
      match skip with
      | S k => count_from k needle hay'
      | O => if startswith needle hay
             then 1 + count_from (String.length needle - 1) needle hay'
             else count_from O needle hay'
      end
  end.
Definition count (needle hay : string) : Z := count_from O needle hay.

(** [sep.join(parts)]. *)
Fixpoint join (sep : string) (parts : list string) : string :=
  match parts with
  | [] => EmptyString
  | [p] => p
  | p :: rest => p ++ sep ++ join sep rest
  end.

Definition head_is_space (s : string) : bool :=
  match s with
  | EmptyString => false
  | String c _ => is_space c
  end.

(** [s.split()]: the maximal runs of non-whitespace characters. *)
Fixpoint split (s : string) : list string :=
  match s with
  | EmptyString => []
  | String c s' =>
      if is_space c then split s'
      else match s' with
           | EmptyString => [String c EmptyString]
           | String c' _ =>
               if is_space c' then String c EmptyString :: split s'
               else match split s' with
                    | w :: ws => String c w :: ws
                    | [] => [String c EmptyString]
                    end
           end
  end.

(** [s.lstrip()], [s.rstrip()], [s.strip()]. *)
Fixpoint lstrip (s : string) : string :=
  match s with
  | EmptyString => EmptyString
  | String c s' => if is_space c then lstrip s' else s
  end.

Fixpoint rstrip (s : string) : string :=
  match s with
  | EmptyString => EmptyString
  | String c s' =>
      match rstrip s' with
      | EmptyString => if is_space c then EmptyString
                       else String c EmptyString
      | r => String c r
      end
  end.

Definition strip (s : string) : string := rstrip (lstrip s).

(** [s.replace(old, new)] for a non-empty [old]; [skip] characters of
    the occurrence just replaced are still to be dropped. *)
Fixpoint replace_from (skip : nat) (old new s : string) : string :=
  match s with
  | EmptyString => EmptyString
  | String c s' =>
      match skip with
      | S k => replace_from k old new s'
      | O => if startswith old s
             then new ++ replace_from (String.length old - 1) old new s'
             else String c (replace_from O old new s')
      end
  end.
Definition replace (old new s : string) : string := replace_from O old new s.

(** [str(n)] for an int. *)
Definition of_int (n : Z) : string :=
  DecimalString.NilZero.string_of_int (Z.to_int n).

(** [s * n]. *)
Fixpoint repeat (s : string) (n : nat) : string :=
  match n with
  | O => EmptyString
  | S n' => s ++ repeat s n'
  end.

(** A word: what [split] yields, non-empty and free of whitespace. *)
Fixpoint no_space (s : string) : bool :=
  match s with
  | EmptyString => true
  | String c s' => negb (is_space c) && no_space s'
  end.

Definition is_word (s : string) : bool :=
  match s with
  | EmptyString => false
  | String _ _ => no_space s
  end.

Definition space : ascii := " "%char.

(** The text with its words separated by single spaces. *)
Definition normalized (s : string) : string := join " " (split s).

(** Every whitespace character of [s] is a plain space. *)
Fixpoint plain_spaces (s : string) : bool :=
  match s with
  | EmptyString => true
  | String c s' =>
      (negb (is_space c) || Ascii.eqb c " "%char) && plain_spaces s'
  end.

End PyStr.

(* ===================================================================== *)
(** * Python floats (IEEE 754 binary64)                                    *)
(* ===================================================================== *)

Module Binary64.

(** Every finite binary64 value is [u * 2^-1074] for an integer [u]
    (the smallest subnormal is one unit); [u] is what [Finite] stores.
    The sign of zero is not tracked: none of the modelled computations
    observes it. *)
Inductive float64 : Type :=
| Finite (u : Z)
| Infinity (negative : bool)
| NaN.

(** One, in units. *)
Definition unit_scale : Z := 2 ^ 1074.

(** [2^1024] in units: the first magnitude that no longer rounds to a
    finite value. *)
Definition overflow_threshold : Z := 2 ^ 2098.

(** Round the fraction [n / d] (with [0 <= n], [0 < d]) to the nearest
    integer, ties to the even one. *)
Definition rne (n d : Z) : Z :=
  let q := n / d in
  match 2 * (n mod d) ?= d with
  | Lt => q
  | Gt => q + 1
  | Eq => if Z.even q then q else q + 1
  end.

(** What [rne] computes: [a] is a nearest integer to [n / d], and the
    even one at a tie. *)
Definition nearest_even (n d a : Z) : Prop :=
  2 * Z.abs (a * d - n) <= d /\
  (2 * Z.abs (a * d - n) = d -> Z.even a = true).

(** Spacing of the binary64 grid around [n / d] units, as a power of
    two: 53 significant bits, never finer than one unit. *)
Definition ulp_exp (n d : Z) : Z := Z.max 0 (Z.log2 (n / d) - 52).

(** Nearest grid point to [n / d] units, for [0 <= n] and [0 < d]. *)
Definition round_mag (n d : Z) : Z :=
  let s := ulp_exp n d in
  rne n (d * 2 ^ s) * 2 ^ s.

(** The same for either sign of [n]: rounding is symmetric. *)
Definition round_units (n d : Z) : Z :=
  Z.sgn n * round_mag (Z.abs n) d.

(** A rounded magnitude at or beyond [2^1024] becomes an infinity. *)
Definition pack (u : Z) : float64 :=
  if overflow_threshold <=? Z.abs u then Infinity (u <? 0) else Finite u.

(** [float(n)] for a Python int: raises when the rounded value is not
    finite. *)
Definition of_int (n : Z) : Result float64 :=
  match pack (round_units (n * unit_scale) 1) with
  | Finite u => Ok (Finite u)
  | _ => Raise OverflowError
  end.

(** [a / b] on two Python ints: the correctly rounded quotient. *)
Definition int_truediv (a b : Z) : Result float64 :=
  if b =? 0 then Raise ZeroDivisionError
  else match pack (round_units (Z.sgn b * a * unit_scale) (Z.abs b)) with
       | Finite u => Ok (Finite u)
       | _ => Raise OverflowError
       end.

(** [x + y]. *)
Definition fadd (x y : float64) : float64 :=
  match x, y with
  | NaN, _ | _, NaN => NaN
  | Finite a, Finite b => pack (round_units (a + b) 1)
  | Infinity s, Finite _ | Finite _, Infinity s => Infinity s
  | Infinity s, Infinity t => if Bool.eqb s t then Infinity s else NaN
  end.

(** [x * y]. *)
Definition fmul (x y : float64) : float64 :=
  match x, y with
  | NaN, _ | _, NaN => NaN
  | Finite a, Finite b => pack (round_units (a * b) unit_scale)
  | Infinity s, Finite a | Finite a, Infinity s =>
      if a =? 0 then NaN else Infinity (xorb s (a <? 0))
  | Infinity s, Infinity t => Infinity (xorb s t)
  end.

(** [x / y]; Python raises on a zero divisor. *)
Definition fdiv (x y : float64) : Result float64 :=
  match x, y with
  | _, Finite 0 => Raise ZeroDivisionError
  | NaN, _ | _, NaN => Ok NaN
  | Finite a, Finite b =>
      Ok (pack (round_units (Z.sgn b * a * unit_scale) (Z.abs b)))
  | Finite _, Infinity _ => Ok (Finite 0)
  | Infinity s, Finite b => Ok (Infinity (xorb s (b <? 0)))
  | Infinity _, Infinity _ => Ok NaN
  end.

(** [x < y]; false as soon as a NaN is involved. *)
Definition flt (x y : float64) : bool :=
  match x, y with
  | NaN, _ | _, NaN => false
  | Finite a, Finite b => a <? b
  | Finite _, Infinity s => negb s
  | Infinity s, Finite _ => s
  | Infinity s, Infinity t => s && negb t
  end.

(** [x >= y]. *)
Definition fge (x y : float64) : bool :=
  match x, y with
  | NaN, _ | _, NaN => false
  | _, _ => negb (flt x y)
  end.

(** [int(x)]: truncation toward zero. *)
Definition to_int (x : float64) : Result Z :=
  match x with
  | Finite u => Ok (Z.quot u unit_scale)
  | Infinity _ => Raise OverflowError
  | NaN => Raise (ValueError "cannot convert float NaN to integer")
  end.

(** The float [k.0] for an integer [k] of at most 53 bits: what an int
    literal operand of a mixed operation converts to, exactly. *)
Definition lit (k : Z) : float64 := Finite (k * unit_scale).

(** The float literal written as the decimal fraction [n / d]. *)
Definition decimal (n d : Z) : float64 :=
  Finite (round_units (n * unit_scale) d).

(** A binary64 value proper: a fixed point of the rounding, below the
    overflow threshold. *)
Definition representable (u : Z) : Prop :=
  round_units u 1 = u /\ Z.abs u < overflow_threshold.

End Binary64.

(* ===================================================================== *)
(** * utils.py                                                             *)
(* ===================================================================== *)

Module Utils.

(** ** [handle_errors]: the retry executor *)

(** What the wrapper does besides calling [func], in order.
    [Invoke k] marks the call of [func] in iteration [k] (from 0);
    the three log events carry the fields of the formatted message.

    A Python value is an [option], [None] being Python's [None]: a call
    of the wrapped [func], and a call of the wrapper, answer with a
    [Result (option A)]. *)
Inductive Event : Type :=
| Invoke (attempt : Z)
| LogSucceeded (attempt_no : Z)
| LogError (attempt_no : Z) (retry_count : Z) (e : exn)
| LogUsingFallback
| Sleep (seconds : Q).

Section Wrapper.
Context {W A : Type}.
Variable retry_count : Z.
Variable retry_delay : Q.
Variable fallback : option A.
Variable log_errors : bool.
Variable func : W -> Result (option A) * W.

(** The body of [for attempt in range(retry_count)], with [todo]
    iterations left.  The delay is a binary64 value scaled by a power
    of two, which is exact, so it is kept as the rational it is. *)
Fixpoint attempts (todo : nat) (attempt : Z) (w : W)
  : Result (option A) * W * list Event :=
  match todo with
  | O => (Ok None, w, [])
  | S todo' =>
      match func w with
      | (Ok result, w1) =>
          (Ok result, w1,
           Invoke attempt ::
           (if attempt >? 0 then [LogSucceeded (attempt + 1)] else []))
      | (Raise e, w1) =>
          let logged :=
            if log_errors then [LogError (attempt + 1) retry_count e]
            else [] in
          if attempt <? retry_count - 1 then
            let sleep_time := (retry_delay * inject_Z (2 ^ attempt))%Q in
            let '(o, w2, tr) := attempts todo' (attempt + 1) w1 in
            (o, w2, Invoke attempt :: logged ++ Sleep sleep_time :: tr)
          else
            match fallback with
            | Some v =>
                (Ok (Some v), w1,
                 Invoke attempt :: logged ++ [LogUsingFallback])
            | None => (Raise e, w1, Invoke attempt :: logged)
            end
      end
  end.

Definition wrapper (w : W) : Result (option A) * W * list Event :=
  attempts (Z.to_nat retry_count) 0 w.

End Wrapper.

(** A keyword argument of a call: absent, or passed with a value. *)
Definition kwarg {T} (passed : option T) (default : T) : T :=
  match passed with
  | Some v => v
  | None => default
  end.

(** [handle_errors(retry_count=3, retry_delay=1.0, fallback=None,
    log_errors=True)] applied to [func]. *)
Definition handle_errors {W A} (retry_count : option Z)
    (retry_delay : option Q) (fallback : option (option A))
    (log_errors : option bool) (func : W -> Result (option A) * W)
  : W -> Result (option A) * W * list Event :=
  wrapper (kwarg retry_count 3) (kwarg retry_delay 1%Q)
          (kwarg fallback None) (kwarg log_errors true) func.


Fixpoint sleeps (tr : list Event) : list Q :=
  match tr with
  | [] => []
  | Sleep q :: tr' => q :: sleeps tr'
  | _ :: tr' => sleeps tr'
  end.




(** A service that is down for its first two calls: the state counts the
    calls made so far. *)
Definition flaky (calls_so_far : nat) : Result (option nat) * nat :=
  (if (calls_so_far <? 2)%nat then Raise (External "timeout")
   else Ok (Some calls_so_far),
   S calls_so_far).


(** ** [chunk_text] *)

(** The [for word in words] loop, on the triple
    [(chunks, current_chunk, current_len)]. *)
Fixpoint chunk_loop (max_chars : Z) (words : list string)
    (chunks current_chunk : list string) (current_len : Z)
  : list string * list string * Z :=
  match words with
  | [] => (chunks, current_chunk, current_len)
  | word :: rest =>
      if current_len + PyStr.len word + 1 >? max_chars
      then chunk_loop max_chars rest
             (chunks ++ [PyStr.join " " current_chunk])
             [word] (PyStr.len word)
      else chunk_loop max_chars rest chunks
             (current_chunk ++ [word])
             (current_len + PyStr.len word + 1)
  end.

Definition chunk_text (text : string) (max_chars : Z) : list string :=
  let words := PyStr.split text in
  let '(chunks, current_chunk, _) := chunk_loop max_chars words [] [] 0 in
  match current_chunk with
  | [] => chunks
  | _ => chunks ++ [PyStr.join " " current_chunk]
  end.

(** ** [estimate_duration] *)

Definition default_wpm : Z := 150.

(** [int((word_count / wpm) * 60)]. *)
Definition estimate_duration (word_count wpm : Z) : Result Z :=
  rbind (Binary64.int_truediv word_count wpm) (fun minutes =>
  Binary64.to_int (Binary64.fmul minutes (Binary64.lit 60))).

(** The two roundings of [int((word_count / 150) * 60)] for a
    non-negative count, in units: the quotient, then the product. *)
Definition minutes_units (word_count : Z) : Z :=
  Binary64.round_mag (word_count * Binary64.unit_scale) 150.
Definition seconds_units (word_count : Z) : Z :=
  Binary64.round_mag
    (minutes_units word_count * (60 * Binary64.unit_scale))
    Binary64.unit_scale.

End Utils.

(* ===================================================================== *)
(** * script_generator.py: the derived fields of a script                  *)
(* ===================================================================== *)

Module ScriptGenerator.

Record Script : Type := {
  topic : string;
  full_text : string;
  word_count : Z;
  estimated_duration : Z
}.

(** [Script.__post_init__]: both counts are derived from the text,
    whatever the constructor was given. *)
Definition post_init (topic full_text : string) : Result Script :=
  let word_count := Z.of_nat (List.length (PyStr.split full_text)) in
  rbind (Utils.estimate_duration word_count Utils.default_wpm)
        (fun d => Ok {| topic := topic; full_text := full_text;
                        word_count := word_count;
                        estimated_duration := d |}).

End ScriptGenerator.

(* ===================================================================== *)
(** * voiceover.py: whitespace cleaning and chunking of the narration      *)
(* ===================================================================== *)

Module Voiceover.

Definition newline : ascii := "010"%char.

(** [re.sub(r'\s+', ' ', text)]: each maximal run of whitespace becomes
    one space. *)
Fixpoint collapse_runs (s : string) : string :=
  match s with
  | EmptyString => EmptyString
  | String c s' =>
      if PyStr.is_space c
      then if PyStr.head_is_space s' then collapse_runs s'
           else String " " (collapse_runs s')
      else String c (collapse_runs s')
  end.

(** Length of the match of [\s*\n] at the start of [s], if there is one:
    the greedy [\s*] gives back characters until a newline follows, so
    the match ends with the last newline of the leading whitespace. *)
Fixpoint blank_match (s : string) : option nat :=
  match s with
  | EmptyString => None
  | String c s' =>
      if PyStr.is_space c
      then match blank_match s' with
           | Some k => Some (S k)
           | None => if Ascii.eqb c newline then Some 1%nat else None
           end
      else None
  end.

(** [re.sub(r'\n\s*\n', '\n', text)]; [skip] characters of the match in
    progress are still to be dropped. *)
Fixpoint squeeze_blank_lines (skip : nat) (s : string) : string :=
  match s with
  | EmptyString => EmptyString
  | String c s' =>
      match skip with
      | S k => squeeze_blank_lines k s'
      | O => if Ascii.eqb c newline
             then match blank_match s' with
                  | Some k => String newline (squeeze_blank_lines k s')
                  | None => String c (squeeze_blank_lines O s')
                  end
             else String c (squeeze_blank_lines O s')
      end
  end.

(** The last three statements of [_clean_text_for_speech]: the
    whitespace clean-up every narration text goes through after the
    markup has been removed. *)
Definition clean_whitespace (text : string) : string :=
  let text := collapse_runs text in
  let text := squeeze_blank_lines O text in
  PyStr.strip text.

(** The character budget [generate] passes to [chunk_text]. *)
Definition narration_max_chars : Z := 5000.

(** [chunks = chunk_text(clean_text, max_chars=5000)] in [generate]. *)
Definition narration_chunks (clean_text : string) : list string :=
  Utils.chunk_text clean_text narration_max_chars.

End Voiceover.

(* ===================================================================== *)
(** * visual_sourcer.py: the visual record                                 *)
(* ===================================================================== *)

Module VisualSourcer.

Record Visual : Type := {
  id : string;
  type : string;               (* "video" or "image" *)
  source : string;             (* "pexels", "pixabay", "pollinations" *)
  url : string;
  download_url : string;
  local_path : option string;
  width : Z;
  height : Z;
  duration : Binary64.float64;
  description : string
}.

End VisualSourcer.

(* ===================================================================== *)
(** * compliance_checker.py                                                *)
(* ===================================================================== *)

Module ComplianceChecker.
Import VisualSourcer.

Record ComplianceReport : Type := {
  passed : bool;
  score : Z;
  visual_safety : string;
  content_originality : string;
  monetization_ready : bool;
  issues : list string;
  recommendations : list string
}.

Definition SAFE_VISUAL_SOURCES : list string :=
  ["pexels"; "pixabay"; "pollinations"; "unsplash"; "ai_generated"].

Definition RISKY_SOURCES : list string :=
  ["youtube"; "twitter"; "tiktok"; "instagram"; "unknown"].

(** The three branches of the [if / elif / else] in [check_visuals]. *)
Inductive SourceClass : Type := SafeSource | RiskySource | UnknownSource.

Definition classify_source (visual_source : string) : SourceClass :=
  let source := PyStr.lower visual_source in
  if existsb (fun safe => PyStr.contains safe source) SAFE_VISUAL_SOURCES
  then SafeSource
  else if existsb (fun risky => PyStr.contains risky source) RISKY_SOURCES
  then RiskySource
  else UnknownSource.

(** The [for visual in visuals] loop on [(issues, safe_count,
    risky_count)]. *)
Fixpoint check_visuals_loop (visuals : list Visual) (issues : list string)
    (safe_count risky_count : Z) : list string * Z * Z :=
  match visuals with
  | [] => (issues, safe_count, risky_count)
  | visual :: rest =>
      match classify_source (source visual) with
      | SafeSource =>
          check_visuals_loop rest issues (safe_count + 1) risky_count
      | RiskySource =>
          check_visuals_loop rest
            (issues ++ ["Risky visual source: " ++ source visual
                        ++ " - " ++ id visual])
            safe_count (risky_count + 1)
      | UnknownSource =>
          check_visuals_loop rest
            (issues ++ ["Unknown source needs review: " ++ source visual])
            safe_count risky_count
      end
  end.

Definition check_visuals (visuals : list Visual) : string * list string :=
  let '(issues, safe_count, risky_count) :=
    check_visuals_loop visuals [] 0 0 in
  let status :=
    if risky_count >? 0 then "risk"
    else if safe_count =? Z.of_nat (List.length visuals) then "safe"
    else "warning" in
  (status, issues).

Definition positive_phrases : list string :=
  ["in my analysis"; "what this means"; "the implications";
   "looking at this"; "my take on"; "as we can see";
   "this suggests"; "the data shows"; "according to";
   "experts believe"; "studies indicate"; "research shows"].

(** The value of [originality_score] when the status is determined. *)
Definition originality_score (script_text : string) : Z :=
  let script_lower := PyStr.lower script_text in
  let originality_score :=
    fold_left (fun acc phrase =>
                 if PyStr.contains phrase script_lower then acc + 10
                 else acc)
              positive_phrases 0 in
  let word_count := Z.of_nat (List.length (PyStr.split script_text)) in
  if word_count >=? 2000 then originality_score + 20
  else originality_score.

Definition check_script_originality (script_text : string)
  : string * list string :=
  let originality_score := originality_score script_text in
  if originality_score >=? 50 then ("high", [])
  else if originality_score >=? 30 then ("medium", [])
  else ("low", ["Script may lack sufficient original commentary"]).

(** The check mark that starts each recommendation (UTF-8). *)
Definition check_mark : string :=
  String (ascii_of_N 226) (String (ascii_of_N 156)
    (String (ascii_of_N 147) " ")).

Definition check_monetization_requirements : bool * list string :=
  (true,
   map (append check_mark)
     ["Use only stock footage (Pexels/Pixabay) or AI images (Pollinations)";
      "Add original analysis and commentary throughout";
      "Upload manually to avoid automation detection";
      "Review video fully before making public";
      "Write unique description (not template-only)";
      "Create custom thumbnail through YT Studio"]).

Definition sum (l : list Z) : Z := fold_left Z.add l 0.

(** [_log_report]: writes the report file; [writable] tells whether the
    output directory accepts it. *)
Definition _log_report (writable : bool) (report : ComplianceReport)
  : Result unit :=
  if writable then Ok tt else Raise OSError.

(** [run_full_check(visuals, script_text)]; [visuals] may be [None]. *)
Definition run_full_check (writable : bool)
    (visuals : option (list Visual)) (script_text : string)
  : Result ComplianceReport :=
  let issues : list string := [] in
  let scores : list Z := [] in
  (* 1. Visual safety check *)
  let '(visual_status, issues, scores) :=
    match visuals with
    | Some ((_ :: _) as visuals) =>
        let '(visual_status, visual_issues) := check_visuals visuals in
        (visual_status, (issues ++ visual_issues)%list,
         (scores ++ [if String.eqb visual_status "safe" then 100
                     else if String.eqb visual_status "warning" then 50
                     else 20])%list)
    | _ => ("unknown", issues, (scores ++ [50])%list)
    end in
  (* 2. Script originality check *)
  let '(originality_status, issues, scores) :=
    match script_text with
    | String _ _ =>
        let '(originality_status, originality_issues) :=
          check_script_originality script_text in
        (originality_status, (issues ++ originality_issues)%list,
         (scores ++ [if String.eqb originality_status "high" then 100
                     else if String.eqb originality_status "medium" then 70
                     else 40])%list)
    | EmptyString => ("unknown", issues, (scores ++ [50])%list)
    end in
  (* 3. Monetization requirements *)
  let '(monetization_ready, monetization_recs) :=
    check_monetization_requirements in
  let overall_score :=
    match scores with
    | [] => 0
    | _ => sum scores / Z.of_nat (List.length scores)
    end in
  let passed :=
    (overall_score >=? 70) && negb (String.eqb visual_status "risk") in
  let report :=
    {| passed := passed;
       score := overall_score;
       visual_safety := visual_status;
       content_originality :=
         match script_text with
         | String _ _ => originality_status
         | EmptyString => "unknown"
         end;
       monetization_ready := monetization_ready && passed;
       issues := issues;
       recommendations := monetization_recs |} in
  rbind (_log_report writable report) (fun _ => Ok report).

(** The specification's reading of the score: ten per occurrence of a listed
    phrase, plus the length bonus. *)
Definition occurrences (script_text : string) : Z :=
  sum (map (fun phrase => PyStr.count phrase (PyStr.lower script_text))
           positive_phrases).

Definition per_occurrence_score (script_text : string) : Z :=
  10 * occurrences script_text
  + (if Z.of_nat (List.length (PyStr.split script_text)) >=? 2000
     then 20 else 0).

(** How many of the listed phrases the lower-cased text contains. *)
Definition phrases_present (script_text : string) : Z :=
  Z.of_nat (List.length
    (filter (fun phrase => PyStr.contains phrase (PyStr.lower script_text))
            positive_phrases)).

Definition tier (total : Z) : string :=
  if total >=? 50 then "high" else if total >=? 30 then "medium" else "low".

(** 2100 words in which one listed phrase occurs six times. *)
Definition repeated_phrase_script : string :=
  PyStr.repeat "according to " 6 ++ PyStr.repeat "word " 2088.

(** 2100 words in which six listed phrases occur once each. *)
Definition six_phrase_script : string :=
  "in my analysis what this means the implications my take on "
  ++ "this suggests according to " ++ PyStr.repeat "word " 2085.

Definition visual_from (source : string) : Visual :=
  {| id := "v1"; type := "image"; source := source; url := EmptyString;
     download_url := EmptyString; local_path := None; width := 0; height := 0;
     duration := Binary64.lit 0; description := EmptyString |}.

End ComplianceChecker.

(* ===================================================================== *)
(** * config.py: the constants the modelled code reads                     *)
(* ===================================================================== *)

Module Config.

(** [CONTENT_CONFIG["keywords"]]. *)
Definition keywords : list string :=
  ["AI layoffs 2026";
   "robotics unemployment";
   "artificial intelligence jobs";
   "automation job loss";
   "humanoid robots workers";
   "ChatGPT replacing jobs";
   "AI mass unemployment";
   "robot workforce 2026"].

(** [VIDEO_CONFIG]. *)
Definition min_duration : Z := 840.
Definition width : Z := 1920.
Definition height : Z := 1080.
Definition fps : Z := 30.
Definition shorts_width : Z := 1080.
Definition shorts_height : Z := 1920.

End Config.

(* ===================================================================== *)
(** * topic_discovery.py: the relevance score                              *)
(* ===================================================================== *)

Module TopicDiscovery.
Import Binary64.

Record Topic : Type := {
  id : string;
  title : string;
  source : string;
  url : string;
  published : string;
  score : float64;
  keywords_matched : list string;
  summary : string
}.

Definition high_value : list string :=
  ["mass layoff"; "job loss"; "unemploy"; "replace"; "automat"; "robot"].

Definition viral_terms : list string :=
  ["breaking"; "just"; "shock"; "warn"; "crisis"; "fear"; "million"].

(** The [for keyword in self.keywords] loop on
    [(score, matched_keywords)]. *)
Fixpoint match_keywords (keywords : list string) (text : string)
    (score : float64) (matched_keywords : list string)
  : float64 * list string :=
  match keywords with
  | [] => (score, matched_keywords)
  | keyword :: rest =>
      if PyStr.contains (PyStr.lower keyword) text
      then match_keywords rest text (fadd score (lit 20))
             (matched_keywords ++ [keyword])
      else match_keywords rest text score matched_keywords
  end.

(** [for term in terms: if term in text: score += bonus]. *)
Fixpoint add_terms (terms : list string) (bonus : Z) (text : string)
    (score : float64) : float64 :=
  match terms with
  | [] => score
  | term :: rest =>
      add_terms rest bonus text
        (if PyStr.contains term text then fadd score (lit bonus)
         else score)
  end.

(** [min(a, 20)] on a float [a] and the int 20: the first argument
    unless the second is strictly smaller. *)
Definition min_with_20 (a : float64) : float64 :=
  if flt (lit 20) a then lit 20 else a.

Section Score.
(** The clock: what the [try] block of the recency bonus computes from
    the timestamp text, [(now - pub_date).days], or [None] when
    [fromisoformat] (or anything else in the block) raises. *)
Variable days_old_of : string -> option Z.
(** [self.keywords]. *)
Variable keywords : list string.

Definition _calculate_score (topic : Topic) : Result (float64 * Topic) :=
  let score := lit 0 in
  let title_lower := PyStr.lower (title topic) in
  let summary_lower := PyStr.lower (summary topic) in
  let text := title_lower ++ " " ++ summary_lower in
  (* Keyword matching (primary factor) *)
  let '(score, matched_keywords) :=
    match_keywords keywords text score [] in
  (* High-value terms *)
  let score := add_terms high_value 15 text score in
  (* Urgency/fear terms (viral potential) *)
  let score := add_terms viral_terms 5 text score in
  (* 2026 specificity *)
  let score :=
    if PyStr.contains "2026" text || PyStr.contains "2025" text
    then fadd score (lit 10) else score in
  (* Reddit score bonus (engagement indicator) *)
  rbind (if PyStr.startswith "reddit" (source topic)
         then rbind (fdiv (TopicDiscovery.score topic) (lit 100))
                    (fun part => Ok (fadd score (min_with_20 part)))
         else Ok score) (fun score =>
  (* Recency bonus *)
  let score :=
    match days_old_of (PyStr.replace "Z" "+00:00" (published topic)) with
    | Some days_old =>
        if days_old <=? 1 then fadd score (lit 30)
        else if days_old <=? 3 then fadd score (lit 15)
        else if days_old <=? 7 then fadd score (lit 5)
        else score
    | None => score
    end in
  Ok (score,
      {| id := id topic; title := title topic; source := source topic;
         url := url topic; published := published topic;
         score := score; keywords_matched := matched_keywords;
         summary := summary topic |})).
End Score.

(** The topic of the scenario: a Google News entry as
    [fetch_google_news] builds it, with an empty summary. *)
Definition layoffs_topic (published : string) : Topic :=
  {| id := "0123456789ab";
     title := "AI layoffs hit 2 million workers in 2026";
     source := "google_news";
     url := "https://news.google.com/articles/1";
     published := published;
     score := lit 0;
     keywords_matched := [];
     summary := EmptyString |}.

End TopicDiscovery.

(* ===================================================================== *)
(** * video_assembler.py                                                   *)
(* ===================================================================== *)

Module VideoAssembler.
Import Binary64 VisualSourcer.

(** ** MoviePy clips and the outside world *)

(** What the assembler reads of a clip. *)
Record Clip : Type := {
  clip_origin : string;         (* the file it shows, or "placeholder" *)
  clip_duration : float64;
  clip_size : Z * Z
}.

(** The third-party calls that may raise. *)
Inductive LibCall : Type :=
| CallVideoFileClip (path : string)
| CallImageClip (path : string)
| CallLoop (path : string)
| CallSubclip (path : string)
| CallResize (path : string)
| CallConcatenate
| CallTextClip
| CallComposite
| CallSetAudio
| CallWriteVideofile
| CallStat
| CallMakeShortsDir
| CallShort (index : Z)
| CallSaveMetrics.

(** The environment of a run: which calls raise, and what the files
    hold. *)
Record Env : Type := {
  raises : LibCall -> option exn;
  audio_file : string -> Result float64;   (* [AudioFileClip(p).duration] *)
  path_exists : string -> bool;
  video_file : string -> float64 * (Z * Z);  (* duration and size *)
  image_file : string -> Z * Z;
  timestamp : string;                      (* [now().strftime(...)] *)
  partial_on_failure : bool  (* a failed render leaves a file behind *)
}.

Definition lib {A} (env : Env) (call : LibCall) (a : A) : Result A :=
  match raises env call with
  | Some e => Raise e
  | None => Ok a
  end.

(** [clip.set_duration(t)], [clip.subclip(0, t)] and [clip.resize(size)]
    when they succeed. *)
Definition set_duration (clip : Clip) (t : float64) : Clip :=
  {| clip_origin := clip_origin clip; clip_duration := t;
     clip_size := clip_size clip |}.
Definition subclip_from_0 (clip : Clip) (t_end : float64) : Clip :=
  set_duration clip t_end.           (* [t_end - t_start] with start 0 *)
Definition resize (clip : Clip) (size : Z * Z) : Clip :=
  {| clip_origin := clip_origin clip; clip_duration := clip_duration clip;
     clip_size := size |}.

(** [concatenate_videoclips(clips)] when it succeeds: the durations are
    accumulated from the left. *)
Definition concatenate_videoclips (clips : list Clip) : Result Clip :=
  match clips with
  | [] => Raise (External "IndexError")
  | first :: _ =>
      Ok {| clip_origin := clip_origin first;
            clip_duration :=
              fold_left fadd (map clip_duration clips) (lit 0);
            clip_size := clip_size first |}
  end.

(** The black [ImageClip] of the configured size. *)
Definition placeholder (segment_duration : float64) : Clip :=
  {| clip_origin := "placeholder"; clip_duration := segment_duration;
     clip_size := (Config.width, Config.height) |}.

(** ** [_load_visual] *)

(** The function under the decorator; its own [try] turns every failure
    into [None]. *)
Definition load_visual_body (env : Env) (visual : Visual)
    (target_duration : float64) : Result (option Clip) :=
  match local_path visual with
  | None => Ok None
  | Some path =>
      if (String.eqb path EmptyString) || negb (path_exists env path) then Ok None
      else
        let loaded : Result Clip :=
          rbind
            (if String.eqb (type visual) "video" then
               rbind (lib env (CallVideoFileClip path)
                        {| clip_origin := path;
                           clip_duration := fst (video_file env path);
                           clip_size := snd (video_file env path) |})
                 (fun clip =>
               rbind (if flt (clip_duration clip) target_duration then
                        rbind (fdiv target_duration (clip_duration clip))
                          (fun ratio =>
                        rbind (to_int ratio) (fun whole =>
                        let loops := whole + 1 in
                        rbind (lib env (CallLoop path) tt) (fun _ =>
                        concatenate_videoclips
                          (List.repeat clip (Z.to_nat loops)))))
                      else Ok clip)
                 (fun clip =>
               lib env (CallSubclip path)
                   (subclip_from_0 clip target_duration)))
             else
               rbind (lib env (CallImageClip path)
                        {| clip_origin := path;
                           clip_duration := lit 0;
                           clip_size := image_file env path |})
                 (fun clip => Ok (set_duration clip target_duration)))
            (fun clip =>
               lib env (CallResize path)
                   (resize clip (Config.width, Config.height))) in
        match loaded with
        | Ok clip => Ok (Some clip)
        | Raise _ => Ok None
        end
  end.

(** [@handle_errors(retry_count=2, fallback=None)] around it.  The
    function keeps no state of its own, hence the unit world. *)
Definition _load_visual (env : Env) (visual : Visual)
    (target_duration : float64) : Result (option Clip) :=
  let '(outcome, _, _) :=
    Utils.handle_errors (Some 2) None (Some None) None
      (fun w : unit => (load_visual_body env visual target_duration, w))
      tt in
  outcome.

(** ** [AssemblyMetrics] and the state of a run *)

Inductive StepDetails : Type :=
| LoadAudio (duration : float64) (file : string)
| CalculateTiming (total_duration : float64) (num_visuals : Z)
    (segment_duration : float64)
| LoadVisuals (total loaded failed : Z)
| ConcatenateVisuals (result_duration : float64)
| AddCaptions (title_duration : float64)
| AddAudio (video_duration audio_duration : float64)
| RenderVideo (output_file : string)
| GenerateShorts (count : Z).

Definition step_name (d : StepDetails) : string :=
  match d with
  | LoadAudio _ _ => "load_audio"
  | CalculateTiming _ _ _ => "calculate_timing"
  | LoadVisuals _ _ _ => "load_visuals"
  | ConcatenateVisuals _ => "concatenate_visuals"
  | AddCaptions _ => "add_captions"
  | AddAudio _ _ => "add_audio"
  | RenderVideo _ => "render_video"
  | GenerateShorts _ => "generate_shorts"
  end.

Record ErrorRecord : Type := {
  error_type : string;
  message : string;
  recoverable : bool;
  at_step : Z
}.

(** [AssemblyMetrics]: the step and error records, the quality signals
    with their [meets_target], and the verdict [finalize] stores. *)
Record Metrics : Type := {
  step_count : Z;
  steps : list StepDetails;
  errors : list ErrorRecord;
  quality_signals : list (string * option bool);
  success : option bool
}.

(** The metrics object, the clips of step 3 once they exist, and the
    files written so far. *)
Record State : Type := {
  metrics : Metrics;
  visual_clips : option (list Clip);
  output_dir : list string;       (* files under the output directory *)
  logs_dir : list string
}.

(** The state before a run: the two directories as they are. *)
Definition initial_state (output_dir logs_dir : list string) : State :=
  {| metrics := {| step_count := 0; steps := []; errors := [];
                   quality_signals := []; success := None |};
     visual_clips := None; output_dir := output_dir;
     logs_dir := logs_dir |}.

(** State and exceptions: an exception keeps the state reached. *)
Definition M (A : Type) : Type := State -> Result A * State.

Definition ret {A} (a : A) : M A := fun s => (Ok a, s).
Definition raise {A} (e : exn) : M A := fun s => (Raise e, s).
Definition bind {A B} (m : M A) (k : A -> M B) : M B :=
  fun s => match m s with
           | (Ok a, s') => k a s'
           | (Raise e, s') => (Raise e, s')
           end.
Definition lift {A} (r : Result A) : M A := fun s => (r, s).
Definition update (f : State -> State) : M unit := fun s => (Ok tt, f s).
(** [try: m] with [except Exception as e: handler e]. *)
Definition try_except {A} (m : M A) (handler : exn -> M A) : M A :=
  fun s => match m s with
           | (Ok a, s') => (Ok a, s')
           | (Raise e, s') => handler e s'
           end.

Notation "x <- m ;; k" := (bind m (fun x => k))
  (at level 61, m at next level, right associativity).
Notation "m ;;; k" := (bind m (fun _ => k))
  (at level 61, right associativity).

Definition on_metrics (f : Metrics -> Metrics) : M unit :=
  update (fun s =>
    {| metrics := f (metrics s); visual_clips := visual_clips s;
       output_dir := output_dir s; logs_dir := logs_dir s |}).

Definition log_step (details : StepDetails) : M unit :=
  on_metrics (fun m =>
    {| step_count := step_count m + 1;
       steps := steps m ++ [details];
       errors := errors m; quality_signals := quality_signals m;
       success := success m |}).

Definition log_error (error_type message : string) (recoverable : bool)
  : M unit :=
  on_metrics (fun m =>
    {| step_count := step_count m; steps := steps m;
       errors := errors m ++
                 [{| error_type := error_type; message := message;
                     recoverable := recoverable;
                     at_step := step_count m |}];
       quality_signals := quality_signals m; success := success m |}).

(** [log_quality_signal(name, value, target)] for a float [value] and a
    non-zero int [target]. *)
Definition log_quality_signal (name : string) (value : float64)
    (target : Z) : M unit :=
  on_metrics (fun m =>
    {| step_count := step_count m; steps := steps m; errors := errors m;
       quality_signals :=
         quality_signals m ++ [(name, Some (fge value (lit target)))];
       success := success m |}).

(** [finalize(success)]: records the verdict and saves the metrics file
    under the logs directory. *)
Definition finalize (env : Env) (project_id : string) (ok : bool)
  : M unit :=
  on_metrics (fun m =>
    {| step_count := step_count m; steps := steps m; errors := errors m;
       quality_signals := quality_signals m; success := Some ok |}) ;;;
  lift (lib env CallSaveMetrics tt) ;;;
  update (fun s =>
    {| metrics := metrics s; visual_clips := visual_clips s;
       output_dir := output_dir s;
       logs_dir := logs_dir s ++
         ["assembly_" ++ project_id ++ "_" ++ timestamp env ++ ".json"] |}).

Definition set_visual_clips (clips : list Clip) : M unit :=
  update (fun s =>
    {| metrics := metrics s; visual_clips := Some clips;
       output_dir := output_dir s; logs_dir := logs_dir s |}).

Definition add_output_file (name : string) : M unit :=
  update (fun s =>
    {| metrics := metrics s; visual_clips := visual_clips s;
       output_dir := output_dir s ++ [name]; logs_dir := logs_dir s |}).

(** ** [VideoProject] and [assemble] *)

Record VideoProject : Type := {
  id : string;
  title : string;
  script_text : string;
  visuals : list Visual;
  audio_path : option string;
  output_path : option string;
  shorts_paths : list string
}.

(** [str(project.audio_path)]. *)
Definition audio_path_str (project : VideoProject) : string :=
  match audio_path project with
  | Some p => p
  | None => "None"
  end.

(** Step 3, the loop over [enumerate(project.visuals)] on
    [(visual_clips, loaded_count)]. *)
Fixpoint load_visuals (env : Env) (visuals : list Visual)
    (segment_duration : float64) (i : Z) (visual_clips : list Clip)
    (loaded_count : Z) : M (list Clip * Z) :=
  match visuals with
  | [] => ret (visual_clips, loaded_count)
  | visual :: rest =>
      clip <- lift (_load_visual env visual segment_duration) ;;
      match clip with
      | Some clip =>
          load_visuals env rest segment_duration (i + 1)
            (visual_clips ++ [clip]) (loaded_count + 1)
      | None =>
          (* Create placeholder (black screen) *)
          log_error "visual_load_failed"
            ("Visual " ++ PyStr.of_int i ++ " failed, using placeholder")
            true ;;;
          load_visuals env rest segment_duration (i + 1)
            (visual_clips ++ [placeholder segment_duration]) loaded_count
      end
  end.

(** [min(59, x)] and [min(end, start + 59)]: the first argument unless
    the second is strictly smaller. *)
Definition fmin (a b : float64) : float64 := if flt b a then b else a.

(** The loop of [_extract_shorts] over the three windows. *)
Fixpoint extract_loop (env : Env) (project_id : string)
    (total_duration : float64) (positions : list (float64 * float64))
    (i : Z) (shorts_paths : list string) : M (list string) :=
  match positions with
  | [] => ret shorts_paths
  | (start, stop) :: rest =>
      if flt total_duration stop
      then extract_loop env project_id total_duration rest (i + 1)
             shorts_paths
      else
        let short_path :=
          "shorts/" ++ project_id ++ "_short_" ++ PyStr.of_int (i + 1)
          ++ ".mp4" in
        match raises env (CallShort i) with
        | None =>
            add_output_file short_path ;;;
            extract_loop env project_id total_duration rest (i + 1)
              (shorts_paths ++ [short_path])
        | Some _ =>
            (if partial_on_failure env then add_output_file short_path
             else ret tt) ;;;
            extract_loop env project_id total_duration rest (i + 1)
              shorts_paths
        end
  end.

Definition _extract_shorts (env : Env) (video : Clip)
    (project_id : string) : M (list string) :=
  lift (lib env CallMakeShortsDir tt) ;;;
  let total_duration := clip_duration video in
  let at_30 := fmul total_duration (decimal 3 10) in
  let at_50 := fmul total_duration (decimal 5 10) in
  let clip_positions :=
    [(lit 0, fmin (lit 59) (fmul total_duration (decimal 3 100)));
     (at_30, fadd at_30 (lit 59));
     (at_50, fadd at_50 (lit 59))] in
  extract_loop env project_id total_duration clip_positions 0 [].

(** Steps 4 to 8 of the [try] block of [assemble], once the clips of
    step 3 are there. *)
Definition assemble_render (env : Env) (project : VideoProject)
    (add_captions generate_shorts : bool) (total_duration : float64)
    (visual_clips : list Clip) : M VideoProject :=
  (* Step 4: Concatenate visual sequence *)
  lift (lib env CallConcatenate tt) ;;;
  video_sequence <- lift (concatenate_videoclips visual_clips) ;;
  log_step (ConcatenateVisuals (clip_duration video_sequence)) ;;;
  (* Step 5: Add text overlays (optional) *)
  video_sequence <-
    (if add_captions then
       lift (lib env CallTextClip tt) ;;;
       lift (lib env CallComposite tt) ;;;
       log_step (AddCaptions (lit 5)) ;;;
       ret (set_duration video_sequence
              (if flt (clip_duration video_sequence) (lit 5) then lit 5
               else clip_duration video_sequence))
     else ret video_sequence) ;;
  (* Step 6: Add audio *)
  lift (lib env CallSetAudio tt) ;;;
  let final_video := video_sequence in
  log_step (AddAudio (clip_duration video_sequence) total_duration) ;;;
  (* Step 7: Render final video *)
  let output_filename :=
    id project ++ "_" ++ timestamp env ++ ".mp4" in
  match raises env CallWriteVideofile with
  | Some e =>
      (if partial_on_failure env then add_output_file output_filename
       else ret tt) ;;;
      raise e
  | None => add_output_file output_filename
  end ;;;
  lift (lib env CallStat tt) ;;;
  log_step (RenderVideo output_filename) ;;;
  (* Step 8: Generate Shorts (optional) *)
  shorts <-
    (if generate_shorts then
       shorts <- _extract_shorts env final_video (id project) ;;
       log_step (GenerateShorts (Z.of_nat (List.length shorts))) ;;;
       ret shorts
     else ret (shorts_paths project)) ;;
  (* Final metrics *)
  log_quality_signal "output_duration" (clip_duration video_sequence)
    Config.min_duration ;;;
  finalize env (id project) true ;;;
  ret {| id := id project; title := title project;
         script_text := script_text project; visuals := visuals project;
         audio_path := audio_path project;
         output_path := Some output_filename;
         shorts_paths := shorts |}.

(** The [try] block of [assemble]. *)
Definition assemble_steps (env : Env) (project : VideoProject)
    (add_captions generate_shorts : bool) : M VideoProject :=
  (* Step 1: Load audio and get duration *)
  total_duration <- lift (audio_file env (audio_path_str project)) ;;
  log_step (LoadAudio total_duration (audio_path_str project)) ;;;
  log_quality_signal "audio_duration" total_duration Config.min_duration ;;;
  (* Step 2: Calculate visual timing *)
  let num_visuals := Z.of_nat (List.length (visuals project)) in
  (if num_visuals =? 0
   then log_error "no_visuals" "No visuals provided" false ;;;
        raise (ValueError "No visuals to assemble")
   else ret tt) ;;;
  segment_duration <-
    lift (rbind (of_int num_visuals) (fdiv total_duration)) ;;
  log_step (CalculateTiming total_duration num_visuals segment_duration) ;;;
  (* Step 3: Load and sequence visuals *)
  loaded <- load_visuals env (visuals project) segment_duration 0 [] 0 ;;
  let '(visual_clips, loaded_count) := loaded in
  set_visual_clips visual_clips ;;;
  log_step (LoadVisuals num_visuals loaded_count
              (num_visuals - loaded_count)) ;;;
  loaded_share <- lift (int_truediv loaded_count num_visuals) ;;
  log_quality_signal "visuals_loaded_pct"
    (fmul loaded_share (lit 100)) 80 ;;;
  assemble_render env project add_captions generate_shorts total_duration
    visual_clips.

(** [AssemblyMetrics(project.id)]: a run starts with metrics of its own. *)
Definition new_metrics : M unit :=
  update (fun s =>
    {| metrics := {| step_count := 0; steps := []; errors := [];
                     quality_signals := []; success := None |};
       visual_clips := None;
       output_dir := output_dir s; logs_dir := logs_dir s |}).

(** [assemble]: fresh metrics, the steps, and the [except] clause that
    records the failure and raises again. *)
Definition assemble (env : Env) (project : VideoProject)
    (add_captions generate_shorts : bool) : M VideoProject :=
  new_metrics ;;;
  try_except (assemble_steps env project add_captions generate_shorts)
    (fun e =>
       log_error "assembly_failed" (exn_message e) false ;;;
       finalize env (id project) false ;;;
       raise e).

(** The run has failed for good: [finalize(success=False)] was reached
    and an error that is not recoverable is on record. *)
Definition failed (s : State) : Prop :=
  success (metrics s) = Some false /\
  exists err, In err (errors (metrics s)) /\ recoverable err = false.

(** What slot a visual gets at [segment_duration]: its clip when
    [_load_visual] hands one over, the placeholder otherwise. *)
Definition slot_of (env : Env) (segment_duration : float64)
    (visual : Visual) : Clip :=
  match _load_visual env visual segment_duration with
  | Ok (Some clip) => clip
  | _ => placeholder segment_duration
  end.

(** A run in which nothing raises, with 900 seconds of narration and
    one image on disk. *)
Definition demo_env : Env :=
  {| raises := fun _ => None;
     audio_file := fun _ => Ok (lit 900);
     path_exists := fun p => String.eqb p "visuals/a.jpg";
     video_file := fun _ => (lit 10, (1280, 720));
     image_file := fun _ => (1280, 720);
     timestamp := "20260101_120000";
     partial_on_failure := false |}.

Definition demo_visual (local_path : option string) : Visual :=
  {| VisualSourcer.id := "a"; type := "image"; source := "pexels";
     url := EmptyString; download_url := EmptyString; local_path := local_path;
     width := 1280; height := 720; duration := lit 0;
     description := EmptyString |}.

Definition demo_project (visuals : list Visual) : VideoProject :=
  {| id := "demo"; title := "Demo"; script_text := EmptyString;
     visuals := visuals; audio_path := Some "voiceover.mp3";
     output_path := None; shorts_paths := [] |}.

(** A computation leaves the clips of step 3 alone. *)
Definition keeps_clips {A} (m : M A) : Prop :=
  forall s, visual_clips (snd (m s)) = visual_clips s.

(** The exact sum of a list of finite durations, in units. *)
Fixpoint total_units (clips : list Clip) : option Z :=
  match clips with
  | [] => Some 0
  | clip :: rest =>
      match clip_duration clip, total_units rest with
      | Finite u, Some t => Some (u + t)
      | _, _ => None
      end
  end.

End VideoAssembler.

(* ===================================================================== *)
(** * Python list slices                                                   *)
(* ===================================================================== *)

Module PyList.

(** [l[:stop]]: a negative [stop] counts from the end, and what falls
    outside the list is clipped. *)
Definition slice_to {A} (l : list A) (stop : Z) : list A :=
  if stop <? 0
  then firstn (Z.to_nat (Z.of_nat (List.length l) + stop)) l
  else firstn (Z.to_nat stop) l.

End PyList.

(* ===================================================================== *)
(** * utils.py: data helpers, progress and quality metrics                 *)
(* ===================================================================== *)

Module DataHelpers.

(** The characters of [invalid_chars], by code point: less-than,
    greater-than, colon, double quote, slash, backslash, bar, question
    mark and asterisk, in that order. *)
Definition invalid_chars : list ascii :=
  map ascii_of_N [60; 62; 58; 34; 47; 92; 124; 63; 42]%N.

(** [name[:100]]. *)
Definition first_100 (name : string) : string := String.substring 0 100 name.

(** [sanitize_filename]: one [replace] per invalid character, then the
    length limit. *)
Definition sanitize_filename (name : string) : string :=
  let name :=
    fold_left (fun name char =>
                 PyStr.replace (String char EmptyString) "_" name)
              invalid_chars name in
  first_100 name.

(** The string with [f] applied to each character. *)
Fixpoint map_chars (f : ascii -> ascii) (s : string) : string :=
  match s with
  | EmptyString => EmptyString
  | String c s' => String (f c) (map_chars f s')
  end.

(** What the nine replacements do to one character. *)
Definition cleaned (c : ascii) : ascii :=
  fold_left (fun c char => if Ascii.eqb char c then "_"%char else c)
            invalid_chars c.

(** [c in s] for a character. *)
Fixpoint has_char (c : ascii) (s : string) : bool :=
  match s with
  | EmptyString => false
  | String c' s' => Ascii.eqb c c' || has_char c s'
  end.

(** The format specification [02d]: the decimal digits, padded with
    zeros to a width of two (a minus sign counts for the width). *)
Definition format_02d (n : Z) : string :=
  let digits := PyStr.of_int n in
  PyStr.repeat "0" (2 - String.length digits) ++ digits.

Definition format_timestamp (seconds : Z) : string :=
  let hours := seconds / 3600 in
  let minutes := (seconds mod 3600) / 60 in
  let secs := seconds mod 60 in
  if hours >? 0
  then PyStr.of_int hours ++ ":" ++ format_02d minutes ++ ":"
       ++ format_02d secs
  else PyStr.of_int minutes ++ ":" ++ format_02d secs.

(** The decimal digit [d], for [0 <= d <= 9]. *)
Definition digit (d : Z) : ascii := ascii_of_N (48 + Z.to_N d).

(** The two digits of a number below one hundred. *)
Definition two_digits (n : Z) : string :=
  String (digit (n / 10)) (String (digit (n mod 10)) EmptyString).

End DataHelpers.

Module ProgressTracker.
Import Binary64.

Record ProgressTracker : Type := {
  total_steps : Z;
  current_step : Z
}.

(** [ProgressTracker(total_steps)]. *)
Definition init (total_steps : Z) : ProgressTracker :=
  {| total_steps := total_steps; current_step := 0 |}.

(** [step]: the counter moves first, then the percentage that goes into
    the log line is computed; the answer is that percentage. *)
Definition step (self : ProgressTracker) : Result Z * ProgressTracker :=
  let self :=
    {| total_steps := total_steps self;
       current_step := current_step self + 1 |} in
  (rbind (int_truediv (current_step self) (total_steps self))
         (fun share => to_int (fmul share (lit 100))),
   self).

End ProgressTracker.

Module QualityMetrics.

(** The entries of [self.metrics] that [calculate_scores] reads or
    writes; the topic, the creation time and the audio duration are only
    stored. *)
Record QualityMetrics : Type := {
  script_words : Z;
  estimated_duration : Z;
  visuals_count : Z;
  risk_score : Z;
  viral_score : Z;
  retention_estimate : Z
}.

(** [QualityMetrics()]. *)
Definition init : QualityMetrics :=
  {| script_words := 0; estimated_duration := 0; visuals_count := 0;
     risk_score := 0; viral_score := 0; retention_estimate := 0 |}.

Definition calculate_scores (self : QualityMetrics) : QualityMetrics :=
  let words := script_words self in
  let duration := estimated_duration self in
  let viral_score := viral_score self in
  (* Good length for mid-roll ads *)
  let viral_score :=
    if (840 <=? duration) && (duration <=? 1200) then viral_score + 30
    else viral_score in
  (* Good word count for engagement *)
  let viral_score :=
    if (2000 <=? words) && (words <=? 2700) then viral_score + 20
    else viral_score in
  (* Sufficient visuals *)
  let viral_score :=
    if visuals_count self >=? 10 then viral_score + 20
    else viral_score in
  {| script_words := words; estimated_duration := duration;
     visuals_count := visuals_count self;
     risk_score := 10;
     viral_score := viral_score;
     retention_estimate := Z.min 70 (40 + words / 100) |}.

(** [save]: the scores are calculated, then the file is written;
    [writable] tells whether the output directory accepts it. *)
Definition save (writable : bool) (self : QualityMetrics)
  : Result unit * QualityMetrics :=
  let self := calculate_scores self in
  (if writable then Ok tt else Raise OSError, self).

(** [summary]: the scores are calculated again; the answer holds the
    numbers the report shows, in the order of its lines after the
    duration. *)
Definition summary (self : QualityMetrics)
  : (string * list Z) * QualityMetrics :=
  let self := calculate_scores self in
  ((DataHelpers.format_timestamp (estimated_duration self),
    [script_words self; visuals_count self; risk_score self;
     viral_score self; retention_estimate self]),
   self).

(** What one call of [calculate_scores] adds to the viral score. *)
Definition viral_bonus (self : QualityMetrics) : Z :=
  (if (840 <=? estimated_duration self) && (estimated_duration self <=? 1200)
   then 30 else 0)
  + (if (2000 <=? script_words self) && (script_words self <=? 2700)
     then 20 else 0)
  + (if visuals_count self >=? 10 then 20 else 0).

(** [self.quality.update(script_words=..., estimated_duration=...)] and
    [update(visuals_count=...)] as the pipeline calls them. *)
Definition update_script (script_words estimated_duration : Z)
    (self : QualityMetrics) : QualityMetrics :=
  {| script_words := script_words; estimated_duration := estimated_duration;
     visuals_count := visuals_count self; risk_score := risk_score self;
     viral_score := viral_score self;
     retention_estimate := retention_estimate self |}.

Definition update_visuals (visuals_count : Z) (self : QualityMetrics)
  : QualityMetrics :=
  {| script_words := script_words self;
     estimated_duration := estimated_duration self;
     visuals_count := visuals_count; risk_score := risk_score self;
     viral_score := viral_score self;
     retention_estimate := retention_estimate self |}.

End QualityMetrics.

(* ===================================================================== *)
(** * topic_discovery.py: discovery, ranking and the best topic            *)
(* ===================================================================== *)

Module Discovery.
Import Binary64 TopicDiscovery.

(** [topic.title[:50].lower()]. *)
Definition title_key (topic : Topic) : string :=
  PyStr.lower (String.substring 0 50 (title topic)).

(** [sorted(all_topics, key=lambda t: t.score, reverse=True)], a stable
    sort: a topic goes before the first one that does not score
    strictly higher, so topics of equal score keep their order.  For
    scores that are numbers (no NaN) this is the one list a stable
    descending sort can return. *)
Fixpoint insert_by_score (topic : Topic) (ranked : list Topic)
  : list Topic :=
  match ranked with
  | [] => [topic]
  | other :: rest =>
      if flt (score topic) (score other)
      then other :: insert_by_score topic rest
      else topic :: ranked
  end.

Definition sorted_by_score (topics : list Topic) : list Topic :=
  fold_right insert_by_score [] topics.

(** The deduplication loop on [(seen_titles, unique_topics)]; the set of
    seen keys is only ever asked for membership. *)
Fixpoint dedup_loop (ranked : list Topic) (seen_titles : list string)
    (unique_topics : list Topic) : list Topic :=
  match ranked with
  | [] => unique_topics
  | topic :: rest =>
      let title_key := title_key topic in
      if existsb (String.eqb title_key) seen_titles
      then dedup_loop rest seen_titles unique_topics
      else dedup_loop rest (seen_titles ++ [title_key])
             (unique_topics ++ [topic])
  end.

Section Discover.
Context {W : Type}.
(** The bodies of the two decorated fetchers, on the state of the
    network; each answers with a list of topics or raises. *)
Variable google_news_body : W -> Result (list Topic) * W.
Variable reddit_body : W -> Result (list Topic) * W.
Variable days_old_of : string -> option Z.
Variable keywords : list string.

(** A function that returns a list, as a function that returns a Python
    value. *)
Definition returning_value {A} (body : W -> Result A * W)
  : W -> Result (option A) * W :=
  fun w => let '(r, w') := body w in (rbind r (fun a => Ok (Some a)), w').

(** [@handle_errors(retry_count=3, retry_delay=2.0, fallback=[])]. *)
Definition fetch_google_news
  : W -> Result (option (list Topic)) * W * list Utils.Event :=
  Utils.handle_errors (Some 3) (Some 2%Q) (Some (Some [])) None
    (returning_value google_news_body).

Definition fetch_reddit
  : W -> Result (option (list Topic)) * W * list Utils.Event :=
  Utils.handle_errors (Some 3) (Some 2%Q) (Some (Some [])) None
    (returning_value reddit_body).

(** [all_topics.extend(value)]: a value that is no list cannot be
    iterated. *)
Definition extend (all_topics : list Topic) (value : option (list Topic))
  : Result (list Topic) :=
  match value with
  | Some topics => Ok (all_topics ++ topics)%list
  | None => Raise (External "'NoneType' object is not iterable")
  end.

(** [for topic in all_topics: self._calculate_score(topic)]: every topic
    is replaced by its scored self. *)
Fixpoint score_all (all_topics : list Topic) : Result (list Topic) :=
  match all_topics with
  | [] => Ok []
  | topic :: rest =>
      rbind (_calculate_score days_old_of keywords topic) (fun scored =>
      rbind (score_all rest) (fun rest' => Ok (snd scored :: rest')))
  end.

(** [discover] from the scoring on, given the topics fetched. *)
Definition rank_topics (limit : Z) (all_topics : list Topic)
  : Result (list Topic) :=
  (* Score and rank *)
  rbind (score_all all_topics) (fun all_topics =>
  (* Sort by score (descending) *)
  let ranked := sorted_by_score all_topics in
  (* Deduplicate by similar titles *)
  let unique_topics := dedup_loop ranked [] [] in
  let top_topics := PyList.slice_to unique_topics limit in
  Ok top_topics).

Definition discover (limit : Z) (w : W) : Result (list Topic) * W :=
  let all_topics : list Topic := [] in
  let '(news, w, _) := fetch_google_news w in
  match rbind news (extend all_topics) with
  | Raise e => (Raise e, w)
  | Ok all_topics =>
      let '(posts, w, _) := fetch_reddit w in
      match rbind posts (extend all_topics) with
      | Raise e => (Raise e, w)
      | Ok all_topics => (rank_topics limit all_topics, w)
      end
  end.

Definition get_best_topic (w : W) : Result (option Topic) * W :=
  let '(topics, w) := discover 1 w in
  (rbind topics (fun topics =>
     Ok (match topics with
         | best :: _ => Some best
         | [] => None
         end)),
   w).

(** The topics the two fetchers hand to [discover]. *)
Definition fetched (w : W) : list Topic :=
  let '(news, w, _) := fetch_google_news w in
  let '(posts, _, _) := fetch_reddit w in
  (match news with Ok (Some topics) => topics | _ => [] end
   ++ match posts with Ok (Some topics) => topics | _ => [] end)%list.

End Discover.

(** A feed that cannot be reached, and one that answers with the given
    topics. *)
Definition feed_down (w : unit) : Result (list Topic) * unit :=
  (Raise (External "connection refused"), w).

Definition feed_of (topics : list Topic) (w : unit)
  : Result (list Topic) * unit :=
  (Ok topics, w).

(** A Reddit post as [fetch_reddit] builds it, with 4200 votes. *)
Definition warehouse_post : Topic :=
  {| id := "ba9876543210";
     title := "Robots replace warehouse jobs";
     source := "reddit_r/Futurology";
     url := "https://reddit.com/r/Futurology/comments/1";
     published := "2026-01-04T10:00:00";
     score := lit 4200;
     keywords_matched := [];
     summary := EmptyString |}.

End Discovery.

(* ===================================================================== *)
(** * visual_sourcer.py: downloading the visuals                           *)
(* ===================================================================== *)

Module Download.
Import VisualSourcer.

Section Download.
Context {W : Type}.
(** The download directory as a prefix of the file names, the files
    that exist, and the request that writes a file or raises. *)
Variable download_dir : string.
Variable file_exists : W -> string -> bool.
Variable fetch_to : string -> string -> W -> Result unit * W.

Definition with_local_path (visual : Visual) (path : string) : Visual :=
  {| id := id visual; type := type visual; source := source visual;
     url := url visual; download_url := download_url visual;
     local_path := Some path;
     width := width visual; height := height visual;
     duration := duration visual; description := description visual |}.

Definition filepath_of (visual : Visual) : string :=
  let ext := if String.eqb (type visual) "video" then "mp4" else "jpg" in
  let filename := id visual ++ "." ++ ext in
  download_dir ++ "/" ++ filename.

(** The function under the decorator. *)
Definition download_visual_body (visual : Visual) (w : W)
  : Result (option Visual) * W :=
  let filepath := filepath_of visual in
  if file_exists w filepath
  then (Ok (Some (with_local_path visual filepath)), w)
  else
    match fetch_to (download_url visual) filepath w with
    | (Raise e, w) => (Raise e, w)
    | (Ok _, w) => (Ok (Some (with_local_path visual filepath)), w)
    end.

(** [@handle_errors(retry_count=3, retry_delay=2.0)]. *)
Definition download_visual (visual : Visual)
  : W -> Result (option Visual) * W * list Utils.Event :=
  Utils.handle_errors (Some 3) (Some 2%Q) None None
    (download_visual_body visual).

(** The loop of [download_all] on [downloaded]; what [download_visual]
    answers is appended as it is. *)
Fixpoint download_loop (visuals : list Visual)
    (downloaded : list (option Visual)) (w : W)
  : list (option Visual) * W :=
  match visuals with
  | [] => (downloaded, w)
  | visual :: rest =>
      match download_visual visual w with
      | (Ok downloaded_visual, w, _) =>
          download_loop rest (downloaded ++ [downloaded_visual]) w
      | (Raise _, w, _) => download_loop rest downloaded w
      end
  end.

Definition download_all (visuals : list Visual) (w : W)
  : list (option Visual) * W :=
  download_loop visuals [] w.

(** The visual as [download_visual] returns it. *)
Definition stored (visual : Visual) : option Visual :=
  Some (with_local_path visual (filepath_of visual)).

End Download.

End Download.

(* ===================================================================== *)
(** * Measures of waits and of chunks                                  *)
(* ===================================================================== *)

Module Measures.


(** What a chunk of these words counts for in [chunk_text] while it is
    the first one: each word and the space after it. *)
Fixpoint weight (words : list string) : Z :=
  match words with
  | [] => 0
  | word :: rest => PyStr.len word + 1 + weight rest
  end.

End Measures.

(* ===================================================================== *)
(** * compliance_checker.py: the branch a visual takes                 *)
(* ===================================================================== *)

Module SourceClasses.
Import VisualSourcer ComplianceChecker.

(** The branch of [check_visuals] a visual takes. *)
Definition class_of (visual : Visual) : SourceClass :=
  classify_source (source visual).

Definition is_safe (visual : Visual) : bool :=
  match class_of visual with SafeSource => true | _ => false end.

Definition is_risky (visual : Visual) : bool :=
  match class_of visual with RiskySource => true | _ => false end.

End SourceClasses.

(* ===================================================================== *)
(** * topic_discovery.py: what the score is made of                    *)
(* ===================================================================== *)

Module Ranking.
Import Binary64 TopicDiscovery.

(** The text [_calculate_score] searches. *)
Definition text_of (topic : Topic) : string :=
  PyStr.lower (title topic) ++ " " ++ PyStr.lower (summary topic).

(** How many of the terms occur in the text. *)
Definition hits (terms : list string) (text : string) : Z :=
  Z.of_nat (List.length (filter (fun term => PyStr.contains term text) terms)).

(** The configured keywords whose lower-cased form occurs in the text. *)
Definition matched (keywords : list string) (text : string) : list string :=
  filter (fun keyword => PyStr.contains (PyStr.lower keyword) text) keywords.

Definition year_bonus (text : string) : Z :=
  if PyStr.contains "2026" text || PyStr.contains "2025" text then 10 else 0.

Definition recency_bonus (days_old : option Z) : Z :=
  match days_old with
  | Some days_old =>
      if days_old <=? 1 then 30
      else if days_old <=? 3 then 15
      else if days_old <=? 7 then 5
      else 0
  | None => 0
  end.

(** The points a topic collects before the Reddit and recency bonuses. *)
Definition base_points (keywords : list string) (topic : Topic) : Z :=
  20 * Z.of_nat (List.length (matched keywords (text_of topic)))
  + 15 * hits high_value (text_of topic)
  + 5 * hits viral_terms (text_of topic)
  + year_bonus (text_of topic).

(** The topic as [_calculate_score] leaves it when the score is [s]. *)
Definition with_score (keywords : list string) (topic : Topic)
    (s : float64) : Topic :=
  {| id := id topic; title := title topic; source := source topic;
     url := url topic; published := published topic;
     score := s;
     keywords_matched := matched keywords (text_of topic);
     summary := summary topic |}.

(** What the clock makes of the timestamp of a topic. *)
Definition days_of (days_old_of : string -> option Z) (topic : Topic)
  : option Z :=
  days_old_of (PyStr.replace "Z" "+00:00" (published topic)).

(** [topic'] is [topic] after [_calculate_score]. *)
Definition scored_as (days_old_of : string -> option Z)
    (keywords : list string) (topic topic' : Topic) : Prop :=
  _calculate_score days_old_of keywords topic = Ok (score topic', topic').

(** [a] does not score strictly lower than [b]. *)
Definition not_below (a b : Topic) : Prop := flt (score a) (score b) = false.

(** [a] is [b] with some elements left out. *)
Inductive subseq {A : Type} : list A -> list A -> Prop :=
| subseq_nil : subseq [] []
| subseq_skip (x : A) (a b : list A) : subseq a b -> subseq a (x :: b)
| subseq_keep (x : A) (a b : list A) : subseq a b -> subseq (x :: a) (x :: b).

End Ranking.

(* ===================================================================== *)
(** * voiceover.py: generating the narration                               *)
(* ===================================================================== *)

Module Narration.

(** The format specification [03d]. *)
Definition format_03d (n : Z) : string :=
  let digits := PyStr.of_int n in
  PyStr.repeat "0" (3 - String.length digits) ++ digits.

Section Generate.
Context {W : Type}.
(** The output directory as a prefix of the file names; the speech
    service, which writes the audio of a text to a path or raises;
    [_combine_chunks] with the export of the result; and the removal of
    the chunk files. *)
Variable output_dir : string.
Variable speak : string -> string -> W -> Result unit * W.
Variable combine_and_export : list string -> string -> W -> Result unit * W.
Variable unlink_all : list string -> W -> Result unit * W.

(** [_generate_chunk] under [@handle_errors(retry_count=2,
    retry_delay=2.0)]. *)
Definition _generate_chunk (text output_path : string)
  : W -> Result (option string) * W * list Utils.Event :=
  Utils.handle_errors (Some 2) (Some 2%Q) None None
    (fun w => let '(r, w') := speak text output_path w in
              (rbind r (fun _ => Ok (Some output_path)), w')).

(** The loop of [generate] over [enumerate(chunks)] on [chunk_files]:
    a chunk whose audio cannot be generated is logged and left out. *)
Fixpoint generate_loop (chunks : list string) (i : Z)
    (chunk_files : list string) (w : W) : list string * W :=
  match chunks with
  | [] => (chunk_files, w)
  | chunk :: rest =>
      let chunk_path :=
        output_dir ++ "/chunk_" ++ format_03d i ++ ".mp3" in
      match _generate_chunk chunk chunk_path w with
      | (Ok _, w, _) =>
          generate_loop rest (i + 1) (chunk_files ++ [chunk_path]) w
      | (Raise _, w, _) => generate_loop rest (i + 1) chunk_files w
      end
  end.

(** [generate] from the chunking on, given the text cleaned for
    speech. *)
Definition generate_cleaned (clean_text output_filename : string) (w : W)
  : Result string * W :=
  let chunks := Voiceover.narration_chunks clean_text in
  let '(chunk_files, w) := generate_loop chunks 0 [] w in
  match chunk_files with
  | [] => (Raise (RuntimeError "No audio chunks generated"), w)
  | _ :: _ =>
      let output_path := output_dir ++ "/" ++ output_filename in
      match combine_and_export chunk_files output_path w with
      | (Raise e, w) => (Raise e, w)
      | (Ok _, w) =>
          match unlink_all chunk_files w with
          | (Raise e, w) => (Raise e, w)
          | (Ok _, w) => (Ok output_path, w)
          end
      end
  end.

End Generate.

(** A speech service that counts its calls and fails each time. *)
Definition speechless (text path : string) (calls : nat)
  : Result unit * nat :=
  (Raise (External "gTTS: connection error"), S calls).

End Narration.

(* ===================================================================== *)
(** * video_assembler.py: where a run stands                           *)
(* ===================================================================== *)

Module AssemblyLogic.
Import VideoAssembler.

(** From a state that satisfies [P], the computation either raises or
    returns a value and a state that satisfy [Q]. *)
Definition ensures {A} (P : State -> Prop) (m : M A)
    (Q : A -> State -> Prop) : Prop :=
  forall s, P s -> match m s with
                   | (Ok a, s') => Q a s'
                   | (Raise _, _) => True
                   end.

(** Where a run stands: the names of the steps logged so far, only
    recoverable errors on record, and files that are in the output
    directory. *)
Definition at_point (names files : list string) (s : State) : Prop :=
  map step_name (steps (metrics s)) = names /\
  Forall (fun err => recoverable err = true) (errors (metrics s)) /\
  incl files (output_dir s).



End AssemblyLogic.

(* ===================================================================== *)
(** * video_assembler.py: the visuals that load                        *)
(* ===================================================================== *)

Module LoadingDefs.
Import VisualSourcer VideoAssembler.

(** Whether [_load_visual] hands over a clip for the visual. *)
Definition loads (env : Env) (segment_duration : Binary64.float64)
    (visual : Visual) : bool :=
  match _load_visual env visual segment_duration with
  | Ok (Some _) => true
  | _ => false
  end.

(** The error step 3 records for the visual at index [i]. *)
Definition placeholder_error (i step_count : Z) : ErrorRecord :=
  {| error_type := "visual_load_failed";
     message := "Visual " ++ PyStr.of_int i ++ " failed, using placeholder";
     recoverable := true;
     at_step := step_count |}.

(** The errors of step 3 for the visuals from index [i] on. *)
Fixpoint placeholder_errors (env : Env)
    (segment_duration : Binary64.float64) (visuals : list Visual)
    (i step_count : Z) : list ErrorRecord :=
  match visuals with
  | [] => []
  | visual :: rest =>
      (if loads env segment_duration visual then []
       else [placeholder_error i step_count])
      ++ placeholder_errors env segment_duration rest (i + 1) step_count
  end.

End LoadingDefs.

(* ===================================================================== *)
(** * Facts about the string operations                                    *)
(* ===================================================================== *)

Module PyStrFacts.
Import PyStr.

Lemma length_app (a b : string) :
  String.length (a ++ b) = (String.length a + String.length b)%nat.
Proof. induction a as [|c a IH]; cbn; [reflexivity | now rewrite IH]. Qed.

Lemma len_app (a b : string) : len (a ++ b) = len a + len b.
Proof. unfold len. rewrite length_app. lia. Qed.


Lemma app_empty_r (a : string) : a ++ EmptyString = a.
Proof. induction a as [|x a IH]; cbn; [reflexivity | now rewrite IH]. Qed.

(** *** [split] *)

Lemma split_head (c : ascii) (s : string) :
  is_space c = false ->
  exists w ws, split (String c s) = String c w :: ws.
Proof.
  intros Hc. cbn [split]. rewrite Hc.
  destruct s as [|c' s']; [now exists EmptyString, []|].
  destruct (is_space c'); [now exists EmptyString, (split (String c' s'))|].
  destruct (split (String c' s')) as [|w ws]; [now exists EmptyString, []|].
  now exists w, ws.
Qed.

Lemma split_unfold_word (c c' : ascii) (s : string) :
  is_space c = false -> is_space c' = false ->
  exists w ws, split (String c' s) = w :: ws /\
               split (String c (String c' s)) = String c w :: ws.
Proof.
  intros Hc Hc'.
  destruct (split_head c' s Hc') as (w & ws & Hw).
  exists (String c' w), ws. split; [exact Hw|].
  change (split (String c (String c' s)))
    with (if is_space c then split (String c' s)
          else if is_space c' then String c EmptyString :: split (String c' s)
               else match split (String c' s) with
                    | w :: ws => String c w :: ws
                    | [] => [String c EmptyString]
                    end).
  now rewrite Hc, Hc', Hw.
Qed.

Lemma split_words (s : string) : Forall (fun w => is_word w = true) (split s).
Proof.
  induction s as [|c s IH]; [constructor|].
  destruct (is_space c) eqn:Hc; [cbn [split]; now rewrite Hc|].
  destruct s as [|c' s'].
  - cbn [split]. rewrite Hc. constructor; [|constructor].
    cbn. now rewrite Hc.
  - destruct (is_space c') eqn:Hc'.
    + cbn [split]. rewrite Hc, Hc'. constructor.
      * cbn. now rewrite Hc.
      * cbn [split] in IH. now rewrite Hc' in IH.
    + destruct (split_unfold_word c c' s' Hc Hc') as (w & ws & Hw & ->).
      rewrite Hw in IH. inversion IH as [|? ? Hword Hrest]; subst.
      constructor; [|exact Hrest].
      destruct w as [|x w]; [discriminate|].
      cbn [is_word no_space] in *. now rewrite Hc.
Qed.

(** Splitting a text cut at a whitespace character splits both parts. *)
Lemma split_app_space (sp : ascii) (b : string) :
  is_space sp = true ->
  forall a, split (a ++ String sp b) = (split a ++ split b)%list.
Proof.
  intros Hsp. induction a as [|c a IH].
  - cbn [append split]. now rewrite Hsp.
  - destruct (is_space c) eqn:Hc.
    + cbn [append split]. now rewrite Hc.
    + destruct a as [|c' a'].
      * cbn [append split]. now rewrite Hc, Hsp.
      * destruct (is_space c') eqn:Hc'.
        -- cbn [append split] in *. rewrite Hc, Hc'. rewrite Hc' in IH.
           now rewrite IH.
        -- destruct (split_unfold_word c c' a' Hc Hc') as (w & ws & Hw & ->).
           change (String c (String c' a') ++ String sp b)
             with (String c (String c' (a' ++ String sp b))).
           destruct (split_unfold_word c c' (a' ++ String sp b) Hc Hc')
             as (w2 & ws2 & Hw2 & ->).
           change (String c' (a' ++ String sp b))
             with (String c' a' ++ String sp b) in Hw2.
           rewrite IH, Hw in Hw2. injection Hw2 as <- <-. reflexivity.
Qed.

Lemma split_word (w : string) : is_word w = true -> split w = [w].
Proof.
  induction w as [|c w IH]; [discriminate|].
  cbn [is_word no_space]. intros H. apply andb_prop in H as [Hc Hw].
  apply negb_true_iff in Hc.
  destruct w as [|c' w']; [cbn [split]; now rewrite Hc|].
  assert (Hc' : is_space c' = false).
  { cbn [no_space] in Hw. apply andb_prop in Hw as [Hc' _].
    now apply negb_true_iff. }
  destruct (split_unfold_word c c' w' Hc Hc') as (x & xs & Hx & ->).
  rewrite IH in Hx by exact Hw. now injection Hx as <- <-.
Qed.

Lemma is_space_space : is_space space = true.
Proof. reflexivity. Qed.

(** Splitting the joined parts splits each part. *)
Lemma split_join (parts : list string) :
  split (join " " parts) = List.concat (map split parts).
Proof.
  induction parts as [|p parts IH]; [reflexivity|].
  destruct parts as [|q parts].
  - cbn [join map List.concat]. now rewrite app_nil_r.
  - change (join " " (p :: q :: parts))
      with (p ++ String space (join " " (q :: parts))).
    rewrite (split_app_space space _ is_space_space), IH. reflexivity.
Qed.

Lemma concat_split_words (ws : list string) :
  Forall (fun w => is_word w = true) ws ->
  List.concat (map split ws) = ws.
Proof.
  induction 1 as [|w ws Hw _ IH]; [reflexivity|].
  cbn [map List.concat]. now rewrite (split_word w Hw), IH.
Qed.

Lemma split_join_words (ws : list string) :
  Forall (fun w => is_word w = true) ws ->
  split (join " " ws) = ws.
Proof. intros H. now rewrite split_join, concat_split_words. Qed.

End PyStrFacts.

(* ===================================================================== *)
(** * The whitespace clean-up is the split-and-join normal form            *)
(* ===================================================================== *)

Module VoiceoverFacts.
Import PyStr PyStrFacts Voiceover.

Lemma collapse_runs_plain (s : string) : plain_spaces (collapse_runs s) = true.
Proof.
  induction s as [|c s IH]; [reflexivity|].
  cbn [collapse_runs]. destruct (is_space c) eqn:Hc.
  - destruct (head_is_space s); [exact IH|].
    cbn [plain_spaces]. now rewrite IH.
  - cbn [plain_spaces]. now rewrite Hc, IH.
Qed.

Lemma blank_match_plain (s : string) :
  plain_spaces s = true -> blank_match s = None.
Proof.
  induction s as [|c s IH]; [reflexivity|].
  cbn [plain_spaces blank_match]. intros H.
  apply andb_prop in H as [Hc Hs]. rewrite (IH Hs).
  destruct (is_space c); [|reflexivity].
  cbn in Hc. apply Ascii.eqb_eq in Hc. now subst c.
Qed.

Lemma squeeze_plain (s : string) :
  plain_spaces s = true -> squeeze_blank_lines O s = s.
Proof.
  induction s as [|c s IH]; [reflexivity|].
  cbn [plain_spaces squeeze_blank_lines]. intros H.
  apply andb_prop in H as [Hc Hs]. rewrite (IH Hs).
  destruct (Ascii.eqb c newline) eqn:Hn; [|reflexivity].
  apply Ascii.eqb_eq in Hn. subst c. discriminate.
Qed.

Lemma collapse_runs_head (s : string) :
  head_is_space (collapse_runs s) = head_is_space s.
Proof.
  induction s as [|c s IH]; [reflexivity|].
  cbn [collapse_runs]. destruct (is_space c) eqn:Hc.
  - destruct (head_is_space s) eqn:Hs; cbn [head_is_space]; [|now rewrite Hc].
    rewrite IH. now rewrite Hc.
  - cbn [head_is_space]. reflexivity.
Qed.

Lemma lstrip_no_head (s : string) : head_is_space s = false -> lstrip s = s.
Proof. destruct s as [|c s]; cbn; [reflexivity | now intros ->]. Qed.

Lemma lstrip_collapse_space (c : ascii) (s : string) :
  is_space c = true ->
  lstrip (collapse_runs (String c s)) = lstrip (collapse_runs s).
Proof.
  intros Hc. cbn [collapse_runs]. rewrite Hc.
  destruct (head_is_space s); reflexivity.
Qed.

Lemma collapse_runs_space_head (s : string) :
  head_is_space s = true ->
  collapse_runs s = String " " (lstrip (collapse_runs s)).
Proof.
  induction s as [|c s IH]; [discriminate|].
  cbn [head_is_space]. intros Hc.
  rewrite (lstrip_collapse_space c s Hc).
  cbn [collapse_runs]. rewrite Hc.
  destruct (head_is_space s) eqn:Hs; [now apply IH|].
  f_equal. symmetry. apply lstrip_no_head.
  now rewrite collapse_runs_head.
Qed.

Lemma rstrip_cons_word (c : ascii) (s : string) :
  is_space c = false -> rstrip (String c s) = String c (rstrip s).
Proof. intros Hc. cbn [rstrip]. rewrite Hc. now destruct (rstrip s). Qed.

Lemma rstrip_cons_space (s : string) :
  rstrip (String " " s)
  = match rstrip s with
    | EmptyString => EmptyString
    | r => String " " r
    end.
Proof. cbn [rstrip]. now destruct (rstrip s). Qed.

Lemma join_cons_char (c : ascii) (w : string) (ws : list string) :
  join " " (String c w :: ws) = String c (join " " (w :: ws)).
Proof. destruct ws; reflexivity. Qed.

Lemma normalized_empty_iff (s : string) :
  normalized s = EmptyString <-> split s = [].
Proof.
  unfold normalized. split; [|now intros ->].
  pose proof (split_words s) as Hw.
  destruct (split s) as [|w ws]; [reflexivity|].
  inversion Hw as [|? ? Hword _]; subst.
  destruct w as [|c w]; [discriminate|].
  rewrite join_cons_char. discriminate.
Qed.

(** The regular-expression clean-up is the split-and-join normal form. *)
Lemma strip_collapse_runs (s : string) :
  strip (collapse_runs s) = normalized s.
Proof.
  unfold strip, normalized.
  induction s as [|c s IH]; [reflexivity|].
  destruct (is_space c) eqn:Hc.
  - rewrite (lstrip_collapse_space c s Hc), IH.
    cbn [split]. now rewrite Hc.
  - cbn [collapse_runs]. rewrite Hc. cbn [lstrip]. rewrite Hc.
    rewrite (rstrip_cons_word c _ Hc).
    destruct s as [|c' s']; [cbn; now rewrite Hc|].
    destruct (is_space c') eqn:Hc'.
    + assert (Hhead : head_is_space (String c' s') = true) by exact Hc'.
      rewrite (collapse_runs_space_head _ Hhead), rstrip_cons_space, IH.
      change (split (String c (String c' s')))
        with (if is_space c then split (String c' s')
              else if is_space c' then String c EmptyString :: split (String c' s')
              else match split (String c' s') with
                   | w :: ws => String c w :: ws
                   | [] => [String c EmptyString]
                   end).
      rewrite Hc, Hc'.
      destruct (split (String c' s')) as [|w ws] eqn:Hs; [reflexivity|].
      pose proof (split_words (String c' s')) as Hw. rewrite Hs in Hw.
      inversion Hw as [|? ? Hword _]; subst.
      destruct w as [|x w]; [discriminate|].
      change (join " " (String c EmptyString :: String x w :: ws))
        with (String c (String " " (join " " (String x w :: ws)))).
      rewrite join_cons_char. reflexivity.
    + assert (Hhead : head_is_space (collapse_runs (String c' s')) = false)
        by (rewrite collapse_runs_head; exact Hc').
      rewrite (lstrip_no_head _ Hhead) in IH. rewrite IH.
      destruct (split_unfold_word c c' s' Hc Hc') as (w & ws & Hw & ->).
      rewrite Hw. now rewrite join_cons_char.
Qed.

Lemma clean_whitespace_normalized (text : string) :
  clean_whitespace text = normalized text.
Proof.
  unfold clean_whitespace.
  rewrite (squeeze_plain _ (collapse_runs_plain text)).
  apply strip_collapse_runs.
Qed.

Lemma normalized_idempotent (s : string) :
  normalized (normalized s) = normalized s.
Proof.
  unfold normalized. now rewrite (split_join_words _ (split_words s)).
Qed.
End VoiceoverFacts.

(* ===================================================================== *)
(** * [chunk_text]                                                         *)
(* ===================================================================== *)

Module ChunkFacts.
Import PyStr PyStrFacts Utils Voiceover VoiceoverFacts.

(** The loop hands every word on, in order, to exactly one chunk. *)
Lemma chunk_loop_words (max_chars : Z) (words : list string) :
  forall chunks current_chunk current_len,
    Forall (fun w => is_word w = true) current_chunk ->
    Forall (fun w => is_word w = true) words ->
    let '(chunks', current', _) :=
      chunk_loop max_chars words chunks current_chunk current_len in
    Forall (fun w => is_word w = true) current' /\
    (List.concat (map split chunks') ++ current'
     = List.concat (map split chunks) ++ current_chunk ++ words)%list.
Proof.
  induction words as [|word rest IH];
    intros chunks current_chunk current_len Hcur Hwords.
  - cbn [chunk_loop]. split; [exact Hcur|]. now rewrite app_nil_r.
  - inversion Hwords as [|? ? Hword Hrest]; subst.
    cbn [chunk_loop].
    destruct (current_len + len word + 1 >? max_chars).
    + specialize (IH (chunks ++ [join " " current_chunk])%list [word]
                     (len word) (Forall_cons _ Hword (Forall_nil _)) Hrest).
      destruct (chunk_loop max_chars rest
                  (chunks ++ [join " " current_chunk]) [word] (len word))
        as [[chunks' current'] len'].
      destruct IH as [Hc' Heq]. split; [exact Hc'|].
      rewrite Heq, map_app, concat_app. cbn [map List.concat].
      rewrite (split_join_words _ Hcur), app_nil_r, <- !app_assoc.
      reflexivity.
    + assert (Hcur' : Forall (fun w => is_word w = true)
                             (current_chunk ++ [word]))
        by (apply Forall_app; split; [exact Hcur | now constructor]).
      specialize (IH chunks (current_chunk ++ [word])%list
                     (current_len + len word + 1) Hcur' Hrest).
      destruct (chunk_loop max_chars rest chunks (current_chunk ++ [word])
                  (current_len + len word + 1))
        as [[chunks' current'] len'].
      destruct IH as [Hc' Heq]. split; [exact Hc'|].
      rewrite Heq, <- !app_assoc. reflexivity.
Qed.

Lemma chunk_text_words (text : string) (max_chars : Z) :
  List.concat (map split (chunk_text text max_chars)) = split text.
Proof.
  unfold chunk_text.
  pose proof (chunk_loop_words max_chars (split text) [] [] 0
                (Forall_nil _) (split_words text)) as H.
  destruct (chunk_loop max_chars (split text) [] [] 0)
    as [[chunks current] len'].
  destruct H as [Hcur Heq]. cbn [map List.concat app] in Heq.
  destruct current as [|w ws].
  - now rewrite app_nil_r in Heq.
  - rewrite map_app, concat_app. cbn [map List.concat].
    rewrite (split_join_words _ Hcur), app_nil_r. exact Heq.
Qed.

(** C7.  Chunking never splits a word: for every cleaned narration text
    and every budget, the words of the chunks, in order, are the words
    of the text, and joining the chunks with single spaces and cleaning
    the whitespace again gives the cleaned text back. *)
Theorem chunking_round_trip (raw : string) (max_chars : Z) :
  let text := clean_whitespace raw in
  let chunks := chunk_text text max_chars in
  List.concat (map split chunks) = split text /\
  clean_whitespace (join " " chunks) = text.
Proof.
  cbn zeta. split; [apply chunk_text_words|].
  rewrite !clean_whitespace_normalized.
  unfold normalized at 1.
  rewrite split_join, chunk_text_words.
  apply normalized_idempotent.
Qed.

Lemma len_nonneg (s : string) : 0 <= len s.
Proof. unfold len. lia. Qed.





End ChunkFacts.

(* ===================================================================== *)
(** * Rounding to binary64                                                 *)
(* ===================================================================== *)

Module Binary64Facts.
Import Binary64.

Lemma rne_nearest_even (n d : Z) : 0 < d -> nearest_even n d (rne n d).
Proof.
  intros Hd. unfold nearest_even, rne.
  pose proof (Z.div_mod n d ltac:(lia)) as Hdm.
  pose proof (Z.mod_pos_bound n d Hd) as Hr.
  set (q := n / d) in *. set (r := n mod d) in *.
  destruct (Z.compare_spec (2 * r) d) as [He | Hl | Hg].
  - destruct (Z.even q) eqn:Hq.
    + split; [|intros _; exact Hq]. nia.
    + split; [nia|]. intros _.
      rewrite Z.add_1_r, Z.even_succ, <- Z.negb_even, Hq. reflexivity.
  - split; [nia|]. intros Htie. exfalso. nia.
  - split; [nia|]. intros Htie. exfalso. nia.
Qed.

Lemma nearest_even_mono (n1 d1 a n2 d2 b : Z) :
  0 < d1 -> 0 < d2 -> n1 * d2 <= n2 * d1 ->
  nearest_even n1 d1 a -> nearest_even n2 d2 b -> a <= b.
Proof.
  intros Hd1 Hd2 Hle [Ha Hta] [Hb Htb].
  destruct (Z_le_gt_dec a b) as [|Hgt]; [assumption|exfalso].
  assert (H1 : (2 * a - 1) * d1 <= 2 * n1) by lia.
  assert (H2 : 2 * n2 <= (2 * b + 1) * d2) by lia.
  assert (H3 : (2 * a - 1) * d1 * d2 <= 2 * n1 * d2) by nia.
  assert (H4 : 2 * n2 * d1 <= (2 * b + 1) * d2 * d1) by nia.
  assert (H5 : (2 * a - 1) * (d1 * d2) <= (2 * b + 1) * (d1 * d2)) by nia.
  assert (Hd : 0 < d1 * d2) by nia.
  assert (H6 : 2 * a - 1 <= 2 * b + 1).
  { apply Z.mul_le_mono_pos_r with (p := d1 * d2); assumption. }
  assert (a = b + 1) by lia. subst a.
  assert (H7 : 2 * n1 * d2 = (2 * b + 1) * d1 * d2) by nia.
  assert (H8 : 2 * n2 * d1 = (2 * b + 1) * d2 * d1) by nia.
  assert (H9 : 2 * n1 = (2 * b + 1) * d1) by nia.
  assert (H10 : 2 * n2 = (2 * b + 1) * d2) by nia.
  assert (Hea : Z.even (b + 1) = true) by (apply Hta; lia).
  assert (Heb : Z.even b = true) by (apply Htb; lia).
  rewrite Z.add_1_r, Z.even_succ, <- Z.negb_even, Heb in Hea. discriminate.
Qed.

Lemma rne_mono (n1 d1 n2 d2 : Z) :
  0 < d1 -> 0 < d2 -> n1 * d2 <= n2 * d1 -> rne n1 d1 <= rne n2 d2.
Proof.
  intros Hd1 Hd2 Hle.
  exact (nearest_even_mono n1 d1 _ n2 d2 _ Hd1 Hd2 Hle
           (rne_nearest_even n1 d1 Hd1) (rne_nearest_even n2 d2 Hd2)).
Qed.

Lemma rne_exact (k d : Z) : 0 < d -> rne (k * d) d = k.
Proof.
  intros Hd. unfold rne.
  rewrite Z.div_mul, Z.mod_mul by lia. cbn.
  destruct d; try lia; reflexivity.
Qed.

Lemma rne_le_int (n d k : Z) : 0 < d -> n <= k * d -> rne n d <= k.
Proof.
  intros Hd H. rewrite <- (rne_exact k d Hd). apply rne_mono; nia.
Qed.

Lemma rne_ge_int (n d k : Z) : 0 < d -> k * d <= n -> k <= rne n d.
Proof.
  intros Hd H. rewrite <- (rne_exact k d Hd) at 1. apply rne_mono; nia.
Qed.

Lemma rne_error (n d : Z) : 0 < d -> 2 * Z.abs (rne n d * d - n) <= d.
Proof. intros Hd. apply (rne_nearest_even n d Hd). Qed.

Lemma ulp_exp_nonneg (n d : Z) : 0 <= ulp_exp n d.
Proof. unfold ulp_exp. lia. Qed.

Lemma div_frac_mono (n1 d1 n2 d2 : Z) :
  0 < d1 -> 0 < d2 -> n1 * d2 <= n2 * d1 -> n1 / d1 <= n2 / d2.
Proof.
  intros Hd1 Hd2 Hle.
  apply Z.div_le_lower_bound; [assumption|].
  pose proof (Z.mul_div_le n1 d1 Hd1).
  apply Z.mul_le_mono_pos_r with (p := d1); [assumption|]. nia.
Qed.

Lemma ulp_exp_mono (n1 d1 n2 d2 : Z) :
  0 < d1 -> 0 < d2 -> n1 * d2 <= n2 * d1 ->
  ulp_exp n1 d1 <= ulp_exp n2 d2.
Proof.
  intros Hd1 Hd2 Hle. unfold ulp_exp.
  pose proof (Z.log2_le_mono _ _ (div_frac_mono n1 d1 n2 d2 Hd1 Hd2 Hle)).
  lia.
Qed.

(** The fraction lies below [2^(53+s)], so its rounding does not exceed
    it. *)
Lemma round_mag_upper (n d : Z) :
  0 <= n -> 0 < d -> round_mag n d <= 2 ^ (53 + ulp_exp n d).
Proof.
  intros Hn Hd. unfold round_mag.
  pose proof (ulp_exp_nonneg n d) as Hs.
  set (s := ulp_exp n d) in *.
  assert (Hp : 0 < 2 ^ s) by (apply Z.pow_pos_nonneg; lia).
  rewrite Z.pow_add_r by lia.
  apply Z.mul_le_mono_nonneg_r; [lia|].
  apply rne_le_int; [nia|].
  assert (Hf : n / d < 2 ^ (53 + s)).
  { assert (0 <= n / d) by (apply Z.div_pos; lia).
    destruct (Z.eq_dec (n / d) 0) as [-> | Hnz].
    - apply Z.pow_pos_nonneg; lia.
    - pose proof (Z.log2_spec (n / d) ltac:(lia)) as [_ Hup].
      eapply Z.lt_le_trans; [exact Hup|].
      apply Z.pow_le_mono_r; [lia|]. unfold s, ulp_exp. lia. }
  rewrite Z.pow_add_r in Hf by lia.
  assert (n < (n / d + 1) * d).
  { pose proof (Z.div_mod n d ltac:(lia)). pose proof (Z.mod_pos_bound n d Hd). nia. }
  nia.
Qed.

(** In the normal range the fraction is at least [2^(52+s)], and so is
    its rounding. *)
Lemma normal_range (n d : Z) :
  0 < d -> 0 < ulp_exp n d -> 2 ^ 52 * (d * 2 ^ ulp_exp n d) <= n.
Proof.
  intros Hd Hs. unfold ulp_exp in *.
  assert (Hl : 52 < Z.log2 (n / d)) by lia.
  assert (Hpos : 0 < n / d).
  { destruct (Z_lt_le_dec 0 (n / d)); [assumption|].
    rewrite Z.log2_nonpos in Hl by assumption. lia. }
  pose proof (Z.log2_spec (n / d) Hpos) as [Hlow _].
  replace (Z.max 0 (Z.log2 (n / d) - 52)) with (Z.log2 (n / d) - 52) by lia.
  assert (2 ^ 52 * 2 ^ (Z.log2 (n / d) - 52) = 2 ^ Z.log2 (n / d)).
  { rewrite <- Z.pow_add_r by lia. f_equal. lia. }
  pose proof (Z.mul_div_le n d Hd). nia.
Qed.

Lemma round_mag_lower (n d : Z) :
  0 < d -> 0 < ulp_exp n d -> 2 ^ (52 + ulp_exp n d) <= round_mag n d.
Proof.
  intros Hd Hs. pose proof (normal_range n d Hd Hs) as Hn.
  unfold round_mag. set (s := ulp_exp n d) in *.
  assert (Hp : 0 < 2 ^ s) by (apply Z.pow_pos_nonneg; lia).
  rewrite Z.pow_add_r by lia.
  apply Z.mul_le_mono_nonneg_r; [lia|].
  apply rne_ge_int; [nia | exact Hn].
Qed.

Lemma round_mag_nonneg (n d : Z) : 0 <= n -> 0 < d -> 0 <= round_mag n d.
Proof.
  intros Hn Hd. unfold round_mag.
  assert (Hp : 0 < 2 ^ ulp_exp n d)
    by (apply Z.pow_pos_nonneg; [lia | apply ulp_exp_nonneg]).
  apply Z.mul_nonneg_nonneg; [|lia].
  apply rne_ge_int; nia.
Qed.

(** Rounding keeps the order of the fractions. *)
Lemma round_mag_mono (n1 d1 n2 d2 : Z) :
  0 <= n1 -> 0 < d1 -> 0 < d2 -> n1 * d2 <= n2 * d1 ->
  round_mag n1 d1 <= round_mag n2 d2.
Proof.
  intros Hn1 Hd1 Hd2 Hle.
  pose proof (ulp_exp_mono n1 d1 n2 d2 Hd1 Hd2 Hle) as Hs.
  destruct (Z.eq_dec (ulp_exp n1 d1) (ulp_exp n2 d2)) as [Heq | Hne].
  - unfold round_mag. rewrite Heq. set (s := ulp_exp n2 d2).
    assert (Hp : 0 < 2 ^ s)
      by (apply Z.pow_pos_nonneg; [lia | apply ulp_exp_nonneg]).
    apply Z.mul_le_mono_nonneg_r; [lia|].
    apply rne_mono; nia.
  - pose proof (ulp_exp_nonneg n1 d1) as Hs1.
    eapply Z.le_trans; [apply round_mag_upper; assumption|].
    eapply Z.le_trans; [|apply round_mag_lower; [assumption|lia]].
    apply Z.pow_le_mono_r; lia.
Qed.

(** The rounding error is at most half a spacing. *)
Lemma round_mag_error (n d : Z) :
  0 < d ->
  2 * Z.abs (round_mag n d * d - n) <= d * 2 ^ ulp_exp n d.
Proof.
  intros Hd. unfold round_mag. set (s := ulp_exp n d).
  assert (Hp : 0 < 2 ^ s)
    by (apply Z.pow_pos_nonneg; [lia | apply ulp_exp_nonneg]).
  pose proof (rne_error n (d * 2 ^ s) ltac:(nia)) as H.
  replace (rne n (d * 2 ^ s) * 2 ^ s * d - n)
    with (rne n (d * 2 ^ s) * (d * 2 ^ s) - n) by ring.
  exact H.
Qed.

Lemma round_mag_0 (d : Z) : 0 < d -> round_mag 0 d = 0.
Proof.
  intros Hd. unfold round_mag.
  assert (Hp : 0 < 2 ^ ulp_exp 0 d)
    by (apply Z.pow_pos_nonneg; [lia | apply ulp_exp_nonneg]).
  cbv zeta. set (D := d * 2 ^ ulp_exp 0 d).
  replace (rne 0 D) with (rne (0 * D) D) by (f_equal; lia).
  rewrite rne_exact by (subst D; nia). reflexivity.
Qed.

Lemma round_units_nonneg (n d : Z) :
  0 <= n -> 0 < d -> round_units n d = round_mag n d.
Proof.
  intros Hn Hd. unfold round_units.
  destruct (Z.eq_dec n 0) as [-> | Hnz].
  - cbn [Z.sgn Z.abs]. rewrite round_mag_0 by assumption. reflexivity.
  - rewrite Z.sgn_pos, Z.abs_eq by lia. lia.
Qed.
End Binary64Facts.

(* ===================================================================== *)
(** * [estimate_duration]                                                  *)
(* ===================================================================== *)

Module DurationFacts.
Import Binary64 Binary64Facts Utils.

Lemma unit_scale_pos : 0 < unit_scale.
Proof. unfold unit_scale. apply Z.pow_pos_nonneg; lia. Qed.

Lemma pack_nonneg (u : Z) :
  0 <= u ->
  pack u = if overflow_threshold <=? u then Infinity false else Finite u.
Proof.
  intros Hu. unfold pack. rewrite Z.abs_eq by assumption.
  destruct (overflow_threshold <=? u); [|reflexivity].
  assert (H : (u <? 0) = false) by (apply Z.ltb_ge; assumption).
  now rewrite H.
Qed.

Lemma minutes_units_nonneg (w : Z) : 0 <= w -> 0 <= minutes_units w.
Proof.
  intros Hw. pose proof unit_scale_pos.
  apply round_mag_nonneg; nia.
Qed.

Lemma seconds_units_nonneg (w : Z) : 0 <= w -> 0 <= seconds_units w.
Proof.
  intros Hw. pose proof unit_scale_pos. pose proof (minutes_units_nonneg w Hw).
  apply round_mag_nonneg; nia.
Qed.

Lemma minutes_units_mono (w1 w2 : Z) :
  0 <= w1 <= w2 -> minutes_units w1 <= minutes_units w2.
Proof.
  intros Hw. pose proof unit_scale_pos.
  apply round_mag_mono; nia.
Qed.

Lemma seconds_units_mono (w1 w2 : Z) :
  0 <= w1 <= w2 -> seconds_units w1 <= seconds_units w2.
Proof.
  intros Hw. pose proof unit_scale_pos.
  pose proof (minutes_units_mono w1 w2 Hw).
  pose proof (minutes_units_nonneg w1 ltac:(lia)).
  apply round_mag_mono; nia.
Qed.

Lemma estimate_duration_unfold (w : Z) :
  0 <= w ->
  estimate_duration w default_wpm
  = if overflow_threshold <=? minutes_units w then Raise OverflowError
    else if overflow_threshold <=? seconds_units w then Raise OverflowError
    else Ok (seconds_units w / unit_scale).
Proof.
  intros Hw. pose proof unit_scale_pos as HU.
  pose proof (minutes_units_nonneg w Hw) as Hm.
  pose proof (seconds_units_nonneg w Hw) as Hs.
  unfold estimate_duration, default_wpm, int_truediv.
  change (150 =? 0) with false. cbv iota.
  change (Z.sgn 150) with 1. change (Z.abs 150) with 150.
  rewrite Z.mul_1_l.
  rewrite round_units_nonneg by nia.
  fold (minutes_units w). rewrite pack_nonneg by assumption.
  destruct (overflow_threshold <=? minutes_units w); [reflexivity|].
  cbn [rbind]. unfold fmul, lit.
  rewrite round_units_nonneg by nia.
  fold (seconds_units w). rewrite pack_nonneg by assumption.
  destruct (overflow_threshold <=? seconds_units w); [reflexivity|].
  cbn [to_int]. rewrite Z.quot_div_nonneg by lia. reflexivity.
Qed.

Lemma monotone_where_defined (w1 w2 d2 : Z) :
  0 <= w1 <= w2 ->
  estimate_duration w2 default_wpm = Ok d2 ->
  exists d1, estimate_duration w1 default_wpm = Ok d1 /\ d1 <= d2.
Proof.
  intros Hw Hrun. pose proof unit_scale_pos as HU.
  rewrite estimate_duration_unfold in Hrun by lia.
  rewrite estimate_duration_unfold by lia.
  pose proof (minutes_units_mono w1 w2 Hw) as Hm.
  pose proof (seconds_units_mono w1 w2 Hw) as Hs.
  destruct (overflow_threshold <=? minutes_units w2) eqn:E2; [discriminate|].
  destruct (overflow_threshold <=? seconds_units w2) eqn:F2; [discriminate|].
  injection Hrun as <-.
  apply Z.leb_gt in E2, F2.
  destruct (overflow_threshold <=? minutes_units w1) eqn:E1;
    [apply Z.leb_le in E1; lia|].
  destruct (overflow_threshold <=? seconds_units w1) eqn:F1;
    [apply Z.leb_le in F1; lia|].
  eexists. split; [reflexivity|].
  apply Z.div_le_mono; lia.
Qed.

(** C9, as stated, fails: the two float operations do not give the
    exact floor of [word_count * 60 / 150] (615 words give 245 seconds,
    not 246), and a count too large for a float makes the division
    raise instead of returning. *)
Lemma estimate_duration_is_not_the_exact_floor :
  estimate_duration 615 default_wpm = Ok 245 /\
  615 * 60 / 150 = 246 /\
  estimate_duration (2 ^ 1100) default_wpm = Raise OverflowError.
Proof. vm_compute. repeat split. Qed.

(** C9, amended.  [estimate_duration], computed in binary64 as
    [int((word_count / 150) * 60)], never decreases when the word count
    grows: if it returns for a count it returns for every smaller one,
    with a result that is not larger; it returns for every count from 0
    to [2^1025]; and it gives 60 for 150 words. *)
Theorem estimate_duration_monotone :
  (forall w1 w2 d2,
      0 <= w1 <= w2 ->
      estimate_duration w2 default_wpm = Ok d2 ->
      exists d1, estimate_duration w1 default_wpm = Ok d1 /\ d1 <= d2) /\
  (forall w, 0 <= w <= 2 ^ 1025 ->
             exists d, estimate_duration w default_wpm = Ok d) /\
  estimate_duration 150 default_wpm = Ok 60.
Proof.
  split; [|split].
  - intros w1 w2 d2. apply monotone_where_defined.
  - intros w Hw.
    assert (Hbig : exists d, estimate_duration (2 ^ 1025) default_wpm = Ok d)
      by (vm_compute; eexists; reflexivity).
    destruct Hbig as [d2 Hd2].
    destruct (monotone_where_defined w (2 ^ 1025) d2 Hw Hd2)
      as (d1 & Hd1 & _).
    now exists d1.
  - vm_compute. reflexivity.
Qed.

Lemma estimate_duration_monotone_witness :
  exists d1, estimate_duration 100 default_wpm = Ok d1 /\ d1 <= 245.
Proof.
  apply (proj1 estimate_duration_monotone 100 615 245).
  - lia.
  - vm_compute. reflexivity.
Defined.
End DurationFacts.

(* ===================================================================== *)
(** * The segment duration of the assembler                                *)
(* ===================================================================== *)

Module SegmentFacts.
Import Binary64 Binary64Facts DurationFacts.

Lemma round_mag_exact (n : Z) :
  0 <= n -> (2 ^ ulp_exp n 1 | n) -> round_mag n 1 = n.
Proof.
  intros Hn [k Hk]. unfold round_mag.
  pose proof (ulp_exp_nonneg n 1) as Hs.
  set (s := ulp_exp n 1) in *. clearbody s. subst n.
  assert (Hp : 0 < 2 ^ s) by (apply Z.pow_pos_nonneg; lia).
  rewrite Z.mul_1_l, rne_exact by assumption. reflexivity.
Qed.

Lemma int_units_exact (n : Z) :
  0 < n < 2 ^ 53 -> round_units (n * unit_scale) 1 = n * unit_scale.
Proof.
  intros Hn. pose proof unit_scale_pos as HU.
  rewrite round_units_nonneg by nia.
  apply round_mag_exact; [nia|].
  unfold ulp_exp. rewrite Z.div_1_r. unfold unit_scale.
  rewrite Z.log2_mul_pow2 by lia.
  assert (Hl : Z.log2 n < 53) by (apply Z.log2_lt_pow2; lia).
  pose proof (Z.log2_nonneg n) as Hl0.
  replace (Z.max 0 (1074 + Z.log2 n - 52)) with (Z.log2 n + 1022) by lia.
  exists (n * 2 ^ (52 - Z.log2 n)).
  rewrite <- Z.mul_assoc, <- Z.pow_add_r by lia.
  do 2 f_equal. lia.
Qed.

Lemma int_units_small (n : Z) :
  0 < n < 2 ^ 53 -> n * unit_scale < overflow_threshold.
Proof.
  intros Hn. unfold unit_scale, overflow_threshold.
  assert (H : 2 ^ 53 * 2 ^ 1074 <= 2 ^ 2098).
  { rewrite <- Z.pow_add_r by lia. apply Z.pow_le_mono_r; lia. }
  assert (0 < 2 ^ 1074) by (apply Z.pow_pos_nonneg; lia).
  nia.
Qed.

(** An int of at most 53 bits converts exactly. *)
Lemma of_int_exact (n : Z) : 0 < n < 2 ^ 53 -> of_int n = Ok (lit n).
Proof.
  intros Hn. unfold of_int, lit.
  rewrite (int_units_exact n Hn).
  pose proof (int_units_small n Hn). pose proof unit_scale_pos.
  rewrite pack_nonneg by nia.
  destruct (overflow_threshold <=? n * unit_scale) eqn:E;
    [apply Z.leb_le in E; lia | reflexivity].
Qed.

Lemma fdiv_finite (a b : Z) :
  b <> 0 ->
  fdiv (Finite a) (Finite b)
  = Ok (pack (round_units (Z.sgn b * a * unit_scale) (Z.abs b))).
Proof. intros Hb. destruct b; [congruence | reflexivity | reflexivity]. Qed.

Lemma representable_mag (T : Z) :
  representable T ->
  round_mag (Z.abs T) 1 = Z.abs T /\ Z.abs T < overflow_threshold.
Proof.
  intros [Hfix Hsmall]. split; [|exact Hsmall].
  unfold round_units in Hfix.
  pose proof (round_mag_nonneg (Z.abs T) 1 ltac:(lia) ltac:(lia)).
  destruct (Z.sgn_spec T) as [[? Hs] | [[? Hs] | [? Hs]]];
    rewrite Hs in Hfix; [lia | | lia].
  subst T. apply round_mag_0. lia.
Qed.

(** [segment_duration = total_duration / num_visuals]: the quotient is
    finite, and [num_visuals] of them miss the total by at most half a
    spacing each. *)
Lemma segment_duration_spec (T n : Z) :
  representable T -> 0 < n < 2 ^ 53 ->
  exists seg,
    rbind (of_int n) (fdiv (Finite T)) = Ok (Finite seg) /\
    2 * Z.abs (n * seg - T) <= Z.max n (Z.abs T / 2 ^ 52).
Proof.
  intros HT Hn. pose proof unit_scale_pos as HU.
  destruct (representable_mag T HT) as [Hfix Hsmall].
  rewrite (of_int_exact n Hn). cbn [rbind]. unfold lit.
  rewrite fdiv_finite by nia.
  rewrite Z.sgn_pos, Z.abs_eq, Z.mul_1_l by nia.
  unfold round_units.
  rewrite Z.abs_mul, (Z.abs_eq unit_scale), Z.sgn_mul, (Z.sgn_pos unit_scale),
    Z.mul_1_r by lia.
  set (m := round_mag (Z.abs T * unit_scale) (n * unit_scale)).
  assert (Hm0 : 0 <= m)
    by (apply round_mag_nonneg; [pose proof (Z.abs_nonneg T)|]; nia).
  assert (Hmle : m <= Z.abs T).
  { rewrite <- Hfix. apply round_mag_mono;
      pose proof (Z.abs_nonneg T); nia. }
  exists (Z.sgn T * m). split.
  - f_equal. unfold pack.
    assert (Habs : Z.abs (Z.sgn T * m) <= m).
    { rewrite Z.abs_mul, (Z.abs_eq m) by assumption.
      destruct (Z.sgn_spec T) as [[? ->] | [[? ->] | [? ->]]];
        [change (Z.abs 1) with 1 | change (Z.abs 0) with 0
        | change (Z.abs (-1)) with 1]; lia. }
    destruct (overflow_threshold <=? Z.abs (Z.sgn T * m)) eqn:E;
      [apply Z.leb_le in E; lia | reflexivity].
  - assert (Herr : 2 * Z.abs (n * m - Z.abs T)
                   <= Z.max n (Z.abs T / 2 ^ 52)).
    { pose proof (round_mag_error (Z.abs T * unit_scale) (n * unit_scale)
                    ltac:(nia)) as He.
      fold m in He.
      set (s := ulp_exp (Z.abs T * unit_scale) (n * unit_scale)) in *.
      pose proof (ulp_exp_nonneg (Z.abs T * unit_scale) (n * unit_scale))
        as Hs. fold s in Hs.
      assert (Hp : 0 < 2 ^ s) by (apply Z.pow_pos_nonneg; lia).
      replace (m * (n * unit_scale) - Z.abs T * unit_scale)
        with ((n * m - Z.abs T) * unit_scale) in He by ring.
      rewrite Z.abs_mul, (Z.abs_eq unit_scale) in He by lia.
      assert (He' : 2 * Z.abs (n * m - Z.abs T) <= n * 2 ^ s) by nia.
      destruct (Z.eq_dec s 0) as [Hs0 | Hs0].
      - rewrite Hs0 in He'. change (2 ^ 0) with 1 in He'. lia.
      - pose proof (normal_range (Z.abs T * unit_scale) (n * unit_scale)
                      ltac:(nia) ltac:(fold s; lia)) as Hnr.
        fold s in Hnr.
        assert (Hle : n * 2 ^ s <= Z.abs T / 2 ^ 52).
        { apply Z.div_le_lower_bound; [apply Z.pow_pos_nonneg; lia|]. nia. }
        lia. }
    destruct (Z.sgn_spec T) as [[HT0 Hsg] | [[HT0 Hsg] | [HT0 Hsg]]];
      rewrite Hsg.
    + rewrite (Z.abs_eq T) in Herr |- * by lia.
      replace (n * (1 * m) - T) with (n * m - T) by ring. exact Herr.
    + subst T. replace (n * (0 * m) - 0) with 0 by ring.
      change (Z.abs 0) with 0. change (0 / 2 ^ 52) with 0. lia.
    + rewrite (Z.abs_neq T) in Herr |- * by lia.
      replace (n * (- (1) * m) - T) with (- (n * m - - T)) by ring.
      rewrite Z.abs_opp. exact Herr.
Qed.
End SegmentFacts.

(* ===================================================================== *)
(** * [handle_errors]                                                      *)
(* ===================================================================== *)

Module WrapperFacts.
Import Utils.

Section Facts.
Context {W A : Type}.
Variable retry_count : Z.
Variable retry_delay : Q.
Variable fallback : option A.
Variable log_errors : bool.
Variable func : W -> Result (option A) * W.

Local Abbreviation attempts :=
  (attempts retry_count retry_delay fallback log_errors func).







Lemma sleeps_logged (e : exn) (a : Z) tr :
  sleeps ((if log_errors then [LogError a retry_count e] else []) ++ tr)
  = sleeps tr.
Proof. destruct log_errors; reflexivity. Qed.




End Facts.




End WrapperFacts.

(* ===================================================================== *)
(** * The compliance gate                                                  *)
(* ===================================================================== *)

Module ComplianceFacts.
Import VisualSourcer ComplianceChecker.

Lemma check_visuals_loop_counts (visuals : list Visual) :
  forall issues safe_count risky_count,
    let '(_, _, risky) :=
      check_visuals_loop visuals issues safe_count risky_count in
    risky_count <= risky /\
    ((exists v, In v visuals /\ classify_source (source v) = RiskySource)
     -> risky_count < risky).
Proof.
  induction visuals as [|visual rest IH]; intros issues sc rc; simpl.
  - split; [lia | intros (v & [] & _)].
  - destruct (classify_source (source visual)) eqn:Hc.
    + specialize (IH issues (sc + 1) rc).
      destruct (check_visuals_loop rest issues (sc + 1) rc) as [[i s] r].
      destruct IH as [Hle Hlt]. split; [exact Hle|].
      intros (v & [Hv | Hv] & Hr); [subst v; congruence|].
      apply Hlt. now exists v.
    + match goal with |- context [check_visuals_loop rest ?i sc (rc + 1)] =>
        specialize (IH i sc (rc + 1));
        destruct (check_visuals_loop rest i sc (rc + 1)) as [[i' s] r] end.
      destruct IH as [Hle _]. split; intros; lia.
    + match goal with |- context [check_visuals_loop rest ?i sc rc] =>
        specialize (IH i sc rc);
        destruct (check_visuals_loop rest i sc rc) as [[i' s] r] end.
      destruct IH as [Hle Hlt]. split; [exact Hle|].
      intros (v & [Hv | Hv] & Hr); [subst v; congruence|].
      apply Hlt. now exists v.
Qed.

Lemma check_visuals_risk (visuals : list Visual) (v : Visual) :
  In v visuals -> classify_source (source v) = RiskySource ->
  fst (check_visuals visuals) = "risk".
Proof.
  intros Hin Hr. unfold check_visuals.
  pose proof (check_visuals_loop_counts visuals [] 0 0) as H.
  destruct (check_visuals_loop visuals [] 0 0) as [[i s] r].
  destruct H as [_ H]. 
  assert (0 < r) as Hpos by (apply H; now exists v).
  destruct (r >? 0) eqn:E; [reflexivity | lia].
Qed.

Lemma fold_phrases (f : string -> bool) (l : list string) :
  forall acc,
    fold_left (fun acc phrase => if f phrase then acc + 10 else acc) l acc
    = acc + 10 * Z.of_nat (List.length (filter f l)).
Proof.
  induction l as [|p l IH]; intros acc; cbn [fold_left filter].
  - cbn. lia.
  - rewrite IH. destruct (f p); cbn [List.length];
      rewrite ?Nat2Z.inj_succ; lia.
Qed.

Lemma originality_score_formula (script_text : string) :
  originality_score script_text
  = 10 * phrases_present script_text
    + (if Z.of_nat (List.length (PyStr.split script_text)) >=? 2000
       then 20 else 0).
Proof.
  unfold originality_score, phrases_present.
  rewrite fold_phrases.
  destruct (Z.of_nat (List.length (PyStr.split script_text)) >=? 2000); lia.
Qed.

Lemma status_is_tier (script_text : string) :
  fst (check_script_originality script_text)
  = tier (originality_score script_text).
Proof.
  unfold check_script_originality, tier.
  destruct (originality_score script_text >=? 50); [reflexivity|].
  destruct (originality_score script_text >=? 30); reflexivity.
Qed.

(** The safe list is consulted first: a source that matches both lists
    counts as safe. *)
Example safe_list_takes_precedence :
  classify_source "pexels mirror of youtube" = SafeSource.
Proof. reflexivity. Qed.

(** C2.  When the list of visuals holds a visual whose source is
    classified as risky, the full check returns a report (as soon as the
    report file can be written), and every report it returns has
    [visual_safety = "risk"] and [passed = False], whatever the script
    and whatever the score. *)
Theorem risky_visual_blocks_report
    (visuals : list Visual) (script_text : string) (v : Visual) :
  In v visuals ->
  classify_source (source v) = RiskySource ->
  (exists report,
      run_full_check true (Some visuals) script_text = Ok report) /\
  (forall writable report,
      run_full_check writable (Some visuals) script_text = Ok report ->
      visual_safety report = "risk" /\ passed report = false).
Proof.
  intros Hin Hr.
  pose proof (check_visuals_risk visuals v Hin Hr) as Hrisk.
  assert (forall writable,
    exists report,
      run_full_check writable (Some visuals) script_text
      = rbind (_log_report writable report) (fun _ => Ok report)
      /\ visual_safety report = "risk" /\ passed report = false) as Hshape.
  { intros writable. unfold run_full_check.
    destruct visuals as [|v0 rest]; [destruct Hin|].
    destruct (check_visuals (v0 :: rest)) as [status vis_issues].
    simpl in Hrisk. subst status.
    destruct script_text as [|c s].
    - eexists. split; [reflexivity|]. split; [reflexivity|].
      cbn [passed]. change (String.eqb "risk" "risk") with true.
      apply andb_false_r.
    - destruct (check_script_originality (String c s)) as [ostatus oissues].
      eexists. split; [reflexivity|]. split; [reflexivity|].
      cbn [passed]. change (String.eqb "risk" "risk") with true.
      apply andb_false_r. }
  split.
  - destruct (Hshape true) as (report & Heq & _).
    exists report. rewrite Heq. reflexivity.
  - intros writable report Hrun.
    destruct (Hshape writable) as (r & Heq & Hs & Hp).
    rewrite Heq in Hrun. destruct writable; simpl in Hrun; [|discriminate].
    injection Hrun as <-. now split.
Qed.

Lemma risky_visual_blocks_report_witness :
  exists report,
    run_full_check true (Some [visual_from "pexels"; visual_from "YouTube"])
      six_phrase_script = Ok report /\
    visual_safety report = "risk" /\ passed report = false.
Proof.
  destruct (risky_visual_blocks_report
              [visual_from "pexels"; visual_from "YouTube"]
              six_phrase_script (visual_from "YouTube"))
    as [[report Hrun] Hall].
  - right. left. reflexivity.
  - reflexivity.
  - exists report. split; [exact Hrun|]. exact (Hall true report Hrun).
Defined.

(** C5, as stated, fails: six occurrences of one listed phrase in a
    script of 2100 words score 10 + 20 = 30, tier "medium", where ten
    per occurrence would give 80 and "high". *)
Lemma repeated_phrase_scores_once :
  occurrences repeated_phrase_script = 6 /\
  Z.of_nat (List.length (PyStr.split repeated_phrase_script)) = 2100 /\
  per_occurrence_score repeated_phrase_script = 80 /\
  originality_score repeated_phrase_script = 30 /\
  check_script_originality repeated_phrase_script = ("medium", []).
Proof. vm_compute. repeat split. Qed.

(** C5, amended.  The originality score is 10 for each phrase of the
    list that occurs in the lower-cased script (however often), plus 20
    when the script has at least 2000 words; the tier is "high" from 50,
    "medium" from 30 and "low" below; so a script of 2100 words in which
    six of the listed phrases occur scores 80 and is "high". *)
Theorem originality_counts_distinct_phrases (script_text : string) :
  originality_score script_text
  = 10 * phrases_present script_text
    + (if Z.of_nat (List.length (PyStr.split script_text)) >=? 2000
       then 20 else 0) /\
  fst (check_script_originality script_text)
  = tier (originality_score script_text) /\
  (phrases_present script_text = 6 ->
   Z.of_nat (List.length (PyStr.split script_text)) = 2100 ->
   originality_score script_text = 80 /\
   fst (check_script_originality script_text) = "high").
Proof.
  pose proof (originality_score_formula script_text) as Hscore.
  pose proof (status_is_tier script_text) as Htier.
  split; [exact Hscore|]. split; [exact Htier|].
  intros Hsix Hwords. rewrite Hsix, Hwords in Hscore.
  change (2100 >=? 2000) with true in Hscore.
  rewrite Htier, Hscore. split; reflexivity.
Qed.

Lemma originality_counts_distinct_phrases_witness :
  originality_score six_phrase_script = 80 /\
  fst (check_script_originality six_phrase_script) = "high".
Proof.
  apply (proj2 (proj2 (originality_counts_distinct_phrases
                         six_phrase_script)));
    vm_compute; reflexivity.
Defined.
End ComplianceFacts.

(* ===================================================================== *)
(** * The topic score                                                      *)
(* ===================================================================== *)

Module TopicFacts.
Import Binary64 TopicDiscovery.

(** C4, as stated, fails: for the topic published today (the clock
    reads its timestamp as 0 days old) the score is 45, below 75; no
    configured keyword is matched, since a keyword counts only when the
    whole phrase occurs in the text. *)
Lemma published_today_scores_45 :
  exists topic',
    _calculate_score (fun _ => Some 0) Config.keywords
      (layoffs_topic "2026-01-05T08:00:00Z")
    = Ok (lit 45, topic') /\
    keywords_matched topic' = [] /\
    flt (lit 45) (lit 75) = true.
Proof. eexists. vm_compute. repeat split. Qed.

(** C4, amended.  For the topic "AI layoffs hit 2 million workers in
    2026" with an empty summary and a source that is not Reddit, no
    configured keyword and no high-value term matches; the score is +5
    for the viral term "million" and +10 for the year, 15 in all, plus
    the recency bonus when the timestamp can be read: 30 up to one day
    old (45 in all), 15 up to three days, 5 up to seven; a timestamp
    that cannot be read brings no bonus. *)
Theorem layoffs_topic_score (days_old_of : string -> option Z)
    (stamp : string) :
  let text := PyStr.lower (title (layoffs_topic stamp)) ++ " " in
  match_keywords Config.keywords text (lit 0) [] = (lit 0, []) /\
  add_terms high_value 15 text (lit 0) = lit 0 /\
  add_terms viral_terms 5 text (lit 0) = lit 5 /\
  exists topic',
    _calculate_score days_old_of Config.keywords (layoffs_topic stamp)
    = Ok (match days_old_of (PyStr.replace "Z" "+00:00" stamp) with
          | Some days_old =>
              if days_old <=? 1 then lit 45
              else if days_old <=? 3 then lit 30
              else if days_old <=? 7 then lit 20
              else lit 15
          | None => lit 15
          end, topic') /\
    keywords_matched topic' = [].
Proof.
  cbv zeta.
  change (title (layoffs_topic stamp))
    with "AI layoffs hit 2 million workers in 2026".
  split; [vm_compute; reflexivity|].
  split; [vm_compute; reflexivity|].
  split; [vm_compute; reflexivity|].
  unfold _calculate_score.
  set (text := PyStr.lower (title (layoffs_topic stamp)) ++ " "
               ++ PyStr.lower (summary (layoffs_topic stamp))).
  assert (Hk : match_keywords Config.keywords text (lit 0) []
               = (lit 0, [])) by (vm_compute; reflexivity).
  rewrite Hk.
  assert (Hs : (if PyStr.contains "2026" text || PyStr.contains "2025" text
                then fadd (add_terms viral_terms 5 text
                             (add_terms high_value 15 text (lit 0)))
                          (lit 10)
                else add_terms viral_terms 5 text
                       (add_terms high_value 15 text (lit 0)))
               = lit 15) by (vm_compute; reflexivity).
  rewrite Hs.
  change (PyStr.startswith "reddit" (source (layoffs_topic stamp)))
    with false.
  cbn [rbind].
  change (published (layoffs_topic stamp)) with stamp.
  set (recency := match days_old_of (PyStr.replace "Z" "+00:00" stamp) with
                  | Some d => _
                  | None => lit 15
                  end) at 1.
  assert (Hr : recency
               = match days_old_of (PyStr.replace "Z" "+00:00" stamp) with
                 | Some d => if d <=? 1 then lit 45
                             else if d <=? 3 then lit 30
                             else if d <=? 7 then lit 20
                             else lit 15
                 | None => lit 15
                 end).
  { subst recency.
    destruct (days_old_of (PyStr.replace "Z" "+00:00" stamp)) as [d|];
      [|reflexivity].
    destruct (d <=? 1); [vm_compute; reflexivity|].
    destruct (d <=? 3); [vm_compute; reflexivity|].
    destruct (d <=? 7); [vm_compute; reflexivity|]. reflexivity. }
  rewrite <- Hr. eexists. split; reflexivity.
Qed.
End TopicFacts.


(* ===================================================================== *)
(** * The assembler                                                        *)
(* ===================================================================== *)

Module AssemblerFacts.
Import Binary64 Binary64Facts DurationFacts SegmentFacts VisualSourcer
  VideoAssembler.

(** *** [_load_visual] never raises, and a loaded clip has the target
    duration *)

Lemma lib_cases {A} (env : Env) (call : LibCall) (a : A) :
  lib env call a = Ok a \/ exists e, lib env call a = Raise e.
Proof. unfold lib. destruct (raises env call); eauto. Qed.

Lemma load_visual_body_spec (env : Env) (visual : Visual) (t : float64) :
  exists r, load_visual_body env visual t = Ok r /\
            forall clip, r = Some clip -> clip_duration clip = t.
Proof.
  unfold load_visual_body.
  destruct (local_path visual) as [path|];
    [|exists None; split; [reflexivity | discriminate]].
  destruct (String.eqb path EmptyString || negb (path_exists env path));
    [exists None; split; [reflexivity | discriminate]|].
  match goal with
  | |- context [match ?l with Ok _ => _ | Raise _ => _ end] =>
      assert (Hl : forall clip, l = Ok clip -> clip_duration clip = t);
      [|destruct l as [clip|e];
        [exists (Some clip); split; [reflexivity|];
         intros c [= <-]; now apply Hl
        |exists None; split; [reflexivity | discriminate]]]
  end.
  intros clip.
  destruct (String.eqb (type visual) "video").
  - destruct (lib_cases env (CallVideoFileClip path)
                {| clip_origin := path;
                   clip_duration := fst (video_file env path);
                   clip_size := snd (video_file env path) |})
      as [-> | [e ->]]; [|discriminate].
    cbn [rbind].
    match goal with
    | |- rbind (rbind ?looped _) _ = _ -> _ => destruct looped as [c1|e]
    end; [|discriminate].
    cbn [rbind].
    destruct (lib_cases env (CallSubclip path) (subclip_from_0 c1 t))
      as [-> | [e ->]]; [|discriminate].
    cbn [rbind].
    destruct (lib_cases env (CallResize path)
                (resize (subclip_from_0 c1 t) (Config.width, Config.height)))
      as [-> | [e ->]]; [|discriminate].
    intros [= <-]. reflexivity.
  - destruct (lib_cases env (CallImageClip path)
                {| clip_origin := path; clip_duration := lit 0;
                   clip_size := image_file env path |})
      as [-> | [e ->]]; [|discriminate].
    cbn [rbind].
    match goal with
    | |- lib env ?c ?a = _ -> _ =>
        destruct (lib_cases env c a) as [-> | [e ->]]; [|discriminate]
    end.
    intros [= <-]. reflexivity.
Qed.

Lemma _load_visual_body (env : Env) (visual : Visual) (t : float64) :
  _load_visual env visual t = load_visual_body env visual t.
Proof.
  destruct (load_visual_body_spec env visual t) as (r & Hr & _).
  unfold _load_visual, Utils.handle_errors, Utils.wrapper, Utils.kwarg.
  change (Z.to_nat 2) with 2%nat. cbn [Utils.attempts].
  rewrite Hr. reflexivity.
Qed.

Lemma slot_of_duration (env : Env) (seg : float64) (visual : Visual) :
  clip_duration (slot_of env seg visual) = seg.
Proof.
  unfold slot_of. rewrite _load_visual_body.
  destruct (load_visual_body_spec env visual seg) as (r & -> & Hr).
  destruct r as [clip|]; [now apply Hr | reflexivity].
Qed.

Lemma slot_of_failed (env : Env) (seg : float64) (visual : Visual) :
  _load_visual env visual seg = Ok None ->
  slot_of env seg visual = placeholder seg.
Proof. unfold slot_of. now intros ->. Qed.

(** *** The loop of step 3 *)

Lemma load_visuals_spec (env : Env) (seg : float64) (vs : list Visual) :
  forall i acc loaded s,
  exists loaded' s',
    load_visuals env vs seg i acc loaded s
    = (Ok ((acc ++ map (slot_of env seg) vs)%list, loaded'), s') /\
    visual_clips s' = visual_clips s /\
    output_dir s' = output_dir s /\
    steps (metrics s') = steps (metrics s) /\
    success (metrics s') = success (metrics s).
Proof.
  induction vs as [|v vs IH]; intros i acc loaded s.
  - exists loaded, s. cbn [load_visuals map]. rewrite app_nil_r.
    repeat split.
  - cbn [load_visuals map]. unfold slot_of at 1.
    rewrite _load_visual_body.
    destruct (load_visual_body_spec env v seg) as (r & Hr & _).
    unfold bind at 1, lift at 1. rewrite Hr.
    destruct r as [clip|].
    + destruct (IH (i + 1) (acc ++ [clip])%list (loaded + 1) s)
        as (l' & s' & Hrun & Hrest).
      exists l', s'. rewrite Hrun, <- app_assoc. now split.
    + unfold bind at 1, log_error, on_metrics, update.
      match goal with
      | |- context [load_visuals env vs seg (i + 1) ?a loaded ?st] =>
          destruct (IH (i + 1) a loaded st) as (l' & s' & Hrun & Hrest)
      end.
      exists l', s'. rewrite Hrun, <- app_assoc. split; [reflexivity|].
      exact Hrest.
Qed.

(** *** What leaves the clips of step 3 alone *)

Lemma keeps_ret {A} (a : A) : keeps_clips (ret a).
Proof. intros s. reflexivity. Qed.
Lemma keeps_raise {A} (e : exn) : keeps_clips (@raise A e).
Proof. intros s. reflexivity. Qed.
Lemma keeps_lift {A} (r : Result A) : keeps_clips (lift r).
Proof. intros s. reflexivity. Qed.
Lemma keeps_on_metrics (f : Metrics -> Metrics) : keeps_clips (on_metrics f).
Proof. intros s. reflexivity. Qed.
Lemma keeps_add_output_file (name : string) :
  keeps_clips (add_output_file name).
Proof. intros s. reflexivity. Qed.

Lemma keeps_bind {A B} (m : M A) (k : A -> M B) :
  keeps_clips m -> (forall a, keeps_clips (k a)) -> keeps_clips (bind m k).
Proof.
  intros Hm Hk s. unfold bind. specialize (Hm s).
  destruct (m s) as [[a|e] s1]; cbn [snd] in *; [|exact Hm].
  rewrite (Hk a s1). exact Hm.
Qed.

Lemma keeps_try_except {A} (m : M A) (handler : exn -> M A) :
  keeps_clips m -> (forall e, keeps_clips (handler e)) ->
  keeps_clips (try_except m handler).
Proof.
  intros Hm Hh s. unfold try_except. specialize (Hm s).
  destruct (m s) as [[a|e] s1]; cbn [snd] in *; [exact Hm|].
  rewrite (Hh e s1). exact Hm.
Qed.

Lemma keeps_update_files (f : State -> State) :
  (forall s, visual_clips (f s) = visual_clips s) ->
  keeps_clips (update f).
Proof. intros Hf s. apply Hf. Qed.

Lemma keeps_finalize (env : Env) (project_id : string) (ok : bool) :
  keeps_clips (finalize env project_id ok).
Proof.
  unfold finalize.
  repeat (apply keeps_bind; [|intros ?]);
    [apply keeps_on_metrics | apply keeps_lift |].
  apply keeps_update_files. reflexivity.
Qed.

Ltac keeps :=
  repeat first
    [ apply keeps_finalize
    | apply keeps_bind; [|intros ?]
    | apply keeps_ret | apply keeps_raise | apply keeps_lift
    | apply keeps_on_metrics | apply keeps_add_output_file
    | match goal with
      | |- keeps_clips (if ?b then _ else _) => destruct b
      | |- keeps_clips (match ?o with Some _ => _ | None => _ end) =>
          destruct o
      end ].

Lemma keeps_extract_loop (env : Env) (project_id : string)
    (total : float64) (positions : list (float64 * float64)) :
  forall i paths,
    keeps_clips (extract_loop env project_id total positions i paths).
Proof.
  induction positions as [|[start stop] rest IH]; intros i paths;
    cbn [extract_loop]; keeps; apply IH.
Qed.

Lemma keeps_assemble_render (env : Env) (project : VideoProject)
    (add_captions generate_shorts : bool) (total : float64)
    (clips : list Clip) :
  keeps_clips
    (assemble_render env project add_captions generate_shorts total clips).
Proof.
  unfold assemble_render, _extract_shorts, log_step, log_quality_signal.
  keeps; apply keeps_extract_loop.
Qed.

Lemma keeps_handler (env : Env) (project_id : string) (e : exn) :
  keeps_clips (A := VideoProject)
    (log_error "assembly_failed" (exn_message e) false ;;;
     finalize env project_id false ;;; raise e).
Proof. unfold log_error. keeps. Qed.

Lemma total_units_const (seg : Z) (clips : list Clip) :
  Forall (fun clip => clip_duration clip = Finite seg) clips ->
  total_units clips = Some (Z.of_nat (List.length clips) * seg).
Proof.
  induction 1 as [|clip clips Hc _ IH]; [reflexivity|].
  cbn [total_units List.length]. rewrite Hc, IH, Nat2Z.inj_succ.
  f_equal. lia.
Qed.

(** The clips the run is left with are those of step 3. *)
Lemma assemble_clips (env : Env) (project : VideoProject)
    (add_captions generate_shorts : bool) (s0 : State)
    (total segment : float64) :
  visuals project <> [] ->
  audio_file env (audio_path_str project) = Ok total ->
  rbind (of_int (Z.of_nat (List.length (visuals project)))) (fdiv total)
  = Ok segment ->
  visual_clips (snd (assemble env project add_captions generate_shorts s0))
  = Some (map (slot_of env segment) (visuals project)).
Proof.
  intros Hne Haudio Hseg.
  assert (Hnz : (Z.of_nat (List.length (visuals project)) =? 0) = false).
  { apply Z.eqb_neq. destruct (visuals project); [congruence|].
    cbn [List.length]. lia. }
  unfold assemble. unfold bind at 1. unfold new_metrics, update.
  cbv beta iota. unfold try_except.
  match goal with
  | |- visual_clips (snd match ?body with _ => _ end) = _ =>
      assert (Hbody : visual_clips (snd body)
                      = Some (map (slot_of env segment) (visuals project)))
  end.
  { unfold assemble_steps.
    cbv beta iota zeta delta
      [bind lift log_step log_quality_signal on_metrics update
       set_visual_clips].
    rewrite Haudio. cbv beta iota. rewrite Hnz.
    cbv beta iota delta [ret]. rewrite Hseg. cbv beta iota.
    match goal with
    | |- context [load_visuals env ?vs ?seg ?i ?acc ?l ?st] =>
        destruct (load_visuals_spec env seg vs i acc l st)
          as (loaded & s1 & Hrun & _)
    end.
    rewrite Hrun. cbv beta iota.
    destruct (int_truediv loaded (Z.of_nat (List.length (visuals project))));
      [|reflexivity].
    rewrite keeps_assemble_render. reflexivity. }
  match goal with
  | |- visual_clips (snd match ?body with _ => _ end) = _ =>
      destruct body as [[p|e] s1]; [exact Hbody|]
  end.
  rewrite keeps_handler. exact Hbody.
Qed.

(** C3.  For a run with at least one visual (fewer than [2^53]) whose
    narration has the finite duration [T]: the division
    [T / visual_count] gives a finite [segment_duration]; the run is
    left with exactly one clip per visual, each of that duration; a
    visual that [_load_visual] cannot load gets the placeholder of the
    same duration in its place; so the durations add up to
    [visual_count * segment_duration], which misses [T] by at most half
    a rounding step per slot: twice the gap is at most
    [max(visual_count, |T| / 2^52)] units of [2^-1074] seconds. *)
Theorem every_visual_gets_a_slot (env : Env) (project : VideoProject)
    (add_captions generate_shorts : bool) (s0 : State) (T : Z) :
  visuals project <> [] ->
  Z.of_nat (List.length (visuals project)) < 2 ^ 53 ->
  audio_file env (audio_path_str project) = Ok (Finite T) ->
  representable T ->
  let n := Z.of_nat (List.length (visuals project)) in
  exists seg slots,
    rbind (of_int n) (fdiv (Finite T)) = Ok (Finite seg) /\
    visual_clips
      (snd (assemble env project add_captions generate_shorts s0))
    = Some slots /\
    List.length slots = List.length (visuals project) /\
    Forall (fun clip => clip_duration clip = Finite seg) slots /\
    (forall i visual,
        nth_error (visuals project) i = Some visual ->
        _load_visual env visual (Finite seg) = Ok None ->
        nth_error slots i = Some (placeholder (Finite seg))) /\
    total_units slots = Some (n * seg) /\
    2 * Z.abs (n * seg - T) <= Z.max n (Z.abs T / 2 ^ 52).
Proof.
  intros Hne Hsmall Haudio HT n.
  assert (Hn : 0 < n < 2 ^ 53).
  { subst n. split; [|exact Hsmall].
    destruct (visuals project); [congruence|]. cbn [List.length]. lia. }
  destruct (segment_duration_spec T n HT Hn) as (seg & Hseg & Htol).
  exists seg, (map (slot_of env (Finite seg)) (visuals project)).
  assert (Hall : Forall (fun clip => clip_duration clip = Finite seg)
                   (map (slot_of env (Finite seg)) (visuals project))).
  { apply Forall_map, Forall_forall. intros v _. apply slot_of_duration. }
  refine (conj Hseg (conj _ (conj _ (conj Hall (conj _ (conj _ Htol)))))).
  - now apply assemble_clips with (total := Finite T).
  - apply length_map.
  - intros i visual Hi Hfail.
    rewrite nth_error_map, Hi. cbn [option_map].
    now rewrite slot_of_failed.
  - rewrite (total_units_const seg _ Hall), length_map. reflexivity.
Qed.

Lemma every_visual_gets_a_slot_witness :
  exists seg slots,
    visual_clips
      (snd (assemble demo_env
              (demo_project [demo_visual (Some "visuals/a.jpg");
                             demo_visual None])
              true true (initial_state [] [])))
    = Some slots /\
    List.length slots = 2%nat /\
    nth_error slots 1 = Some (placeholder (Finite seg)) /\
    total_units slots = Some (2 * seg) /\
    2 * Z.abs (2 * seg - 900 * unit_scale)
    <= Z.max 2 (Z.abs (900 * unit_scale) / 2 ^ 52).
Proof.
  destruct (every_visual_gets_a_slot demo_env
              (demo_project [demo_visual (Some "visuals/a.jpg");
                             demo_visual None])
              true true (initial_state [] []) (900 * unit_scale))
    as (seg & slots & Hseg & Hclips & Hlen & _ & Hfail & Hsum & Htol).
  - discriminate.
  - vm_compute. reflexivity.
  - reflexivity.
  - split; vm_compute; reflexivity.
  - exists seg, slots.
    refine (conj Hclips (conj Hlen (conj _ (conj Hsum Htol)))).
    apply (Hfail 1%nat (demo_visual None)); reflexivity.
Defined.

(** C6.  A run on a project without visuals raises; it ends failed,
    with [finalize(success=False)] reached and an error on record that
    is not recoverable; the only step it can have logged is
    [load_audio], so nothing was rendered: no clip was made and the
    output directory is as it was.  When the audio loads, the errors on
    record are [no_visuals] and [assembly_failed], neither recoverable,
    and what is raised is the [ValueError] of step 2 (unless saving the
    metrics file itself fails). *)
Theorem zero_visuals_fail_before_rendering (env : Env)
    (project : VideoProject) (add_captions generate_shorts : bool)
    (s0 : State) :
  visuals project = [] ->
  let '(result, s) :=
    assemble env project add_captions generate_shorts s0 in
  (exists e, result = Raise e) /\
  failed s /\
  output_dir s = output_dir s0 /\
  visual_clips s = None /\
  (forall d, In d (steps (metrics s)) -> step_name d = "load_audio") /\
  (forall total,
      audio_file env (audio_path_str project) = Ok total ->
      errors (metrics s)
      = [{| error_type := "no_visuals"; message := "No visuals provided";
            recoverable := false; at_step := 1 |};
         {| error_type := "assembly_failed";
            message := "No visuals to assemble";
            recoverable := false; at_step := 1 |}] /\
      (raises env CallSaveMetrics = None ->
       result = Raise (ValueError "No visuals to assemble"))).
Proof.
  intros Hnone.
  unfold assemble, try_except, assemble_steps, finalize, lib.
  rewrite Hnone.
  change (Z.of_nat (List.length (@nil Visual)) =? 0) with true.
  destruct (audio_file env (audio_path_str project)) as [total|e0];
    destruct (raises env CallSaveMetrics) as [e1|];
    cbv beta iota zeta delta
      [bind lift log_step log_quality_signal log_error on_metrics update
       raise ret failed new_metrics];
    cbn [metrics steps errors success output_dir visual_clips
         step_count recoverable app];
    (split; [eexists; reflexivity|]);
    (split; [split; [reflexivity|]|]).
  all: try (eexists; split; [right; left; reflexivity | reflexivity]).
  all: try (eexists; split; [left; reflexivity | reflexivity]).
  all: refine (conj eq_refl (conj eq_refl (conj _ _))).
  all: match goal with
       | |- forall d, In d _ -> _ =>
           intros d Hd;
           repeat (destruct Hd as [<- | Hd]; [reflexivity|]); destruct Hd
       | |- _ =>
           intros total' Hok;
           first [discriminate
                 | split; [reflexivity|];
                   first [intros _; reflexivity | discriminate]]
       end.
Qed.

Lemma zero_visuals_fail_before_rendering_witness :
  let '(result, s) :=
    assemble demo_env (demo_project []) true true
      (initial_state ["old.mp4"] []) in
  result = Raise (ValueError "No visuals to assemble") /\
  failed s /\ output_dir s = ["old.mp4"].
Proof.
  pose proof (zero_visuals_fail_before_rendering demo_env
                (demo_project []) true true
                (initial_state ["old.mp4"] []) eq_refl) as H.
  destruct (assemble demo_env (demo_project []) true true
              (initial_state ["old.mp4"] [])) as [result s].
  destruct H as (_ & Hfailed & Hdir & _ & _ & Haudio).
  destruct (Haudio (lit 900) eq_refl) as [_ Hraise].
  split; [now apply Hraise|]. split; [exact Hfailed | exact Hdir].
Defined.
End AssemblerFacts.

(* ===================================================================== *)
(** * Facts about the data helpers                                         *)
(* ===================================================================== *)

Module DataHelperFacts.
Import PyStr DataHelpers.

Lemma replace_char (char : ascii) (s : string) :
  replace (String char EmptyString) "_" s
  = map_chars (fun c => if Ascii.eqb char c then "_"%char else c) s.
Proof.
  unfold replace.
  induction s as [|c s IH]; [reflexivity|].
  cbn [replace_from startswith map_chars String.length Nat.sub].
  destruct (Ascii.eqb char c); cbn [andb]; rewrite IH; reflexivity.
Qed.

Lemma map_chars_compose (f g : ascii -> ascii) (s : string) :
  map_chars f (map_chars g s) = map_chars (fun c => f (g c)) s.
Proof. induction s as [|c s IH]; cbn; [|rewrite IH]; reflexivity. Qed.

Lemma map_chars_ext (f g : ascii -> ascii) (s : string) :
  (forall c, f c = g c) -> map_chars f s = map_chars g s.
Proof.
  intros E. induction s as [|c s IH]; cbn; [|rewrite IH, E]; reflexivity.
Qed.

Lemma replace_all_chars (chars : list ascii) :
  forall s,
    fold_left (fun name char => replace (String char EmptyString) "_" name)
              chars s
    = map_chars
        (fun c => fold_left (fun c char => if Ascii.eqb char c then "_"%char
                                           else c) chars c) s.
Proof.
  induction chars as [|char chars IH]; intros s; cbn [fold_left].
  - induction s as [|c s IHs]; cbn; [|rewrite <- IHs]; reflexivity.
  - rewrite IH, replace_char, map_chars_compose. reflexivity.
Qed.

Lemma sanitize_filename_map (name : string) :
  sanitize_filename name = first_100 (map_chars cleaned name).
Proof. unfold sanitize_filename. rewrite replace_all_chars. reflexivity. Qed.

Lemma cleaned_valid (c : ascii) :
  existsb (Ascii.eqb (cleaned c)) invalid_chars = false.
Proof.
  destruct c as [[] [] [] [] [] [] [] []]; vm_compute; reflexivity.
Qed.

Lemma cleaned_idempotent (c : ascii) : cleaned (cleaned c) = cleaned c.
Proof.
  destruct c as [[] [] [] [] [] [] [] []]; vm_compute; reflexivity.
Qed.

Lemma cleaned_keeps (c : ascii) :
  existsb (Ascii.eqb c) invalid_chars = false -> cleaned c = c.
Proof.
  destruct c as [[] [] [] [] [] [] [] []]; vm_compute;
    first [reflexivity | discriminate].
Qed.

Lemma substring_map_chars (f : ascii -> ascii) (n : nat) :
  forall s,
    String.substring 0 n (map_chars f s)
    = map_chars f (String.substring 0 n s).
Proof.
  induction n as [|n IH]; intros [|c s]; cbn; try reflexivity.
  rewrite IH. reflexivity.
Qed.

Lemma substring_idempotent (n : nat) :
  forall s,
    String.substring 0 n (String.substring 0 n s) = String.substring 0 n s.
Proof.
  induction n as [|n IH]; intros [|c s]; cbn; try reflexivity.
  rewrite IH. reflexivity.
Qed.

Lemma substring_length (n : nat) :
  forall s,
    String.length (String.substring 0 n s) = Nat.min n (String.length s).
Proof.
  induction n as [|n IH]; intros [|c s]; cbn; try reflexivity.
  rewrite IH. reflexivity.
Qed.

Lemma substring_short (n : nat) :
  forall s, (String.length s <= n)%nat -> String.substring 0 n s = s.
Proof.
  induction n as [|n IH]; intros [|c s] L; cbn in *; try reflexivity;
    try lia.
  rewrite IH by lia. reflexivity.
Qed.

Lemma has_char_substring (c : ascii) (n : nat) :
  forall s, has_char c s = false ->
            has_char c (String.substring 0 n s) = false.
Proof.
  induction n as [|n IH]; intros [|c' s] H; cbn in *; try reflexivity.
  apply orb_false_iff in H. destruct H as [H1 H2].
  rewrite H1, IH by assumption. reflexivity.
Qed.

Lemma has_char_map_cleaned (c : ascii) (s : string) :
  In c invalid_chars -> has_char c (map_chars cleaned s) = false.
Proof.
  intros Hin. induction s as [|c' s IH]; [reflexivity|].
  cbn [map_chars has_char]. rewrite IH, orb_false_r.
  destruct (Ascii.eqb c (cleaned c')) eqn:E; [|reflexivity].
  apply Ascii.eqb_eq in E. subst c.
  pose proof (cleaned_valid c') as V.
  rewrite <- not_true_iff_false in V. exfalso. apply V.
  apply existsb_exists. exists (cleaned c'). split; [assumption|].
  apply Ascii.eqb_refl.
Qed.

Lemma map_cleaned_keeps (s : string) :
  (forall c, In c invalid_chars -> has_char c s = false) ->
  map_chars cleaned s = s.
Proof.
  induction s as [|c s IH]; intros H; [reflexivity|].
  cbn [map_chars]. rewrite IH.
  - rewrite cleaned_keeps; [reflexivity|].
    apply not_true_iff_false. intros E.
    apply existsb_exists in E. destruct E as [x [Hx E]].
    apply Ascii.eqb_eq in E. subst x.
    specialize (H c Hx). cbn in H. rewrite Ascii.eqb_refl in H.
    discriminate.
  - intros x Hx. specialize (H x Hx). cbn in H.
    apply orb_false_iff in H. apply H.
Qed.

(** X1 -- [sanitize_filename]: whatever the name, the result holds none
    of the nine invalid characters, its length is the smaller of 100 and
    the length of the name, and sanitizing it again changes nothing. *)
Theorem sanitize_filename_safe (name : string) :
  forallb (fun c => negb (has_char c (sanitize_filename name)))
          invalid_chars = true /\
  len (sanitize_filename name) = Z.min 100 (len name) /\
  sanitize_filename (sanitize_filename name) = sanitize_filename name.
Proof.
  rewrite !sanitize_filename_map. unfold first_100. repeat split.
  - apply forallb_forall. intros c Hc. apply negb_true_iff.
    apply has_char_substring, has_char_map_cleaned, Hc.
  - unfold len. rewrite substring_length.
    assert (L : forall f s, String.length (map_chars f s) = String.length s).
    { intros f s. induction s as [|c s IH]; cbn; [|rewrite IH]; reflexivity. }
    rewrite L. lia.
  - rewrite <- substring_map_chars, substring_idempotent.
    rewrite map_chars_compose.
    f_equal. apply map_chars_ext, cleaned_idempotent.
Qed.

(** X2 -- [sanitize_filename] leaves a name alone that is at most 100
    characters long and holds no invalid character. *)
Theorem sanitize_filename_keeps_valid_names (name : string) :
  len name <= 100 ->
  (forall c, In c invalid_chars -> has_char c name = false) ->
  sanitize_filename name = name.
Proof.
  intros L H. rewrite sanitize_filename_map, map_cleaned_keeps by assumption.
  unfold first_100. apply substring_short. unfold len in L. lia.
Qed.

Lemma sanitize_filename_keeps_valid_names_witness :
  sanitize_filename "AI layoffs hit 2 million workers"
  = "AI layoffs hit 2 million workers".
Proof.
  apply (sanitize_filename_keeps_valid_names
           "AI layoffs hit 2 million workers").
  - vm_compute. discriminate.
  - intros c Hc. cbn in Hc.
    repeat (destruct Hc as [<- | Hc]; [vm_compute; reflexivity|]).
    destruct Hc.
Defined.

(** ** [format_timestamp] *)

Lemma format_02d_below_100 :
  forallb (fun k => String.eqb (format_02d (Z.of_nat k))
                               (two_digits (Z.of_nat k)))
          (seq 0 100) = true.
Proof. vm_compute. reflexivity. Qed.

Lemma format_02d_two_digits (n : Z) :
  0 <= n < 100 -> format_02d n = two_digits n.
Proof.
  intros H. pose proof format_02d_below_100 as F.
  rewrite forallb_forall in F.
  specialize (F (Z.to_nat n)).
  rewrite Z2Nat.id in F by lia.
  apply String.eqb_eq, F, in_seq. lia.
Qed.

(** X3 -- [format_timestamp]: for every int, also a negative one, the
    minutes (when hours are shown) and the seconds are written with
    exactly two digits, and the hours are shown from 3600 seconds on. *)
Theorem format_timestamp_fields (seconds : Z) :
  format_timestamp seconds
  = if 3600 <=? seconds
    then of_int (seconds / 3600) ++ ":"
         ++ two_digits ((seconds mod 3600) / 60) ++ ":"
         ++ two_digits (seconds mod 60)
    else of_int ((seconds mod 3600) / 60) ++ ":"
         ++ two_digits (seconds mod 60).
Proof.
  unfold format_timestamp.
  assert (Hm : 0 <= (seconds mod 3600) / 60 < 100).
  { pose proof (Z.mod_pos_bound seconds 3600 ltac:(lia)).
    split; [apply Z.div_pos; lia|].
    apply Z.div_lt_upper_bound; lia. }
  assert (Hs : 0 <= seconds mod 60 < 100).
  { pose proof (Z.mod_pos_bound seconds 60 ltac:(lia)). lia. }
  rewrite !format_02d_two_digits by assumption.
  destruct (3600 <=? seconds) eqn:E.
  - apply Z.leb_le in E.
    assert (0 < seconds / 3600) by (apply Z.div_str_pos; lia).
    destruct (seconds / 3600 >? 0) eqn:G; [reflexivity|].
    rewrite Z.gtb_ltb in G. apply Z.ltb_ge in G. lia.
  - apply Z.leb_gt in E.
    assert (seconds / 3600 <= 0).
    { assert (seconds / 3600 < 1); [|lia].
      apply Z.div_lt_upper_bound; lia. }
    destruct (seconds / 3600 >? 0) eqn:G; [|reflexivity].
    rewrite Z.gtb_ltb in G. apply Z.ltb_lt in G. lia.
Qed.


(** X4 -- [format_timestamp] drops what it cannot show: below 3600
    seconds, and so for every negative duration, the text is that of
    the seconds modulo 3600 (minus one second reads ["59:59"]). *)
Theorem format_timestamp_wraps (seconds : Z) :
  seconds < 3600 ->
  format_timestamp seconds = format_timestamp (seconds mod 3600).
Proof.
  intros H. unfold format_timestamp.
  pose proof (Z.mod_pos_bound seconds 3600 ltac:(lia)) as B.
  assert (H1 : seconds / 3600 <= 0).
  { assert (seconds / 3600 < 1); [|lia].
    apply Z.div_lt_upper_bound; lia. }
  assert (H2 : (seconds mod 3600) / 3600 = 0) by (apply Z.div_small; lia).
  rewrite H2.
  replace (seconds / 3600 >? 0) with false
    by (symmetry; rewrite Z.gtb_ltb; apply Z.ltb_ge; lia).
  change (0 >? 0) with false. cbv iota.
  rewrite Z.mod_mod by lia.
  replace ((seconds mod 3600) mod 60) with (seconds mod 60); [reflexivity|].
  rewrite (Z.div_mod seconds 3600) at 1 by lia.
  replace (3600 * (seconds / 3600) + seconds mod 3600)
    with (seconds mod 3600 + (60 * (seconds / 3600)) * 60) by lia.
  apply Z.mod_add. lia.
Qed.

Lemma format_timestamp_wraps_witness :
  format_timestamp (-1) = format_timestamp ((-1) mod 3600) /\
  format_timestamp (-1) = "59:59".
Proof.
  split; [apply (format_timestamp_wraps (-1)); lia|].
  vm_compute. reflexivity.
Defined.

End DataHelperFacts.

(* ===================================================================== *)
(** * Facts about the progress tracker and the quality metrics             *)
(* ===================================================================== *)

Module ProgressFacts.
Import Binary64 Binary64Facts DurationFacts SegmentFacts ProgressTracker.

Lemma units_1 : round_mag unit_scale 1 = unit_scale.
Proof.
  pose proof (int_units_exact 1 ltac:(lia)) as E.
  rewrite round_units_nonneg in E by (pose proof unit_scale_pos; lia).
  rewrite Z.mul_1_l in E. exact E.
Qed.

Lemma units_100 : round_mag (100 * unit_scale) 1 = 100 * unit_scale.
Proof.
  pose proof (int_units_exact 100 ltac:(lia)) as E.
  rewrite round_units_nonneg in E by (pose proof unit_scale_pos; lia).
  exact E.
Qed.

Lemma threshold_above_100 : 100 * unit_scale < overflow_threshold.
Proof. apply int_units_small. lia. Qed.

(** X5 -- [ProgressTracker.step]: while the counter stays within
    [total_steps], the percentage in the log line is an int between 0
    and 100, and it is exactly 100 at the last step, whatever the number
    of steps. *)
Theorem step_percentage (self : ProgressTracker) :
  0 <= current_step self < total_steps self ->
  exists pct,
    step self = (Ok pct, {| total_steps := total_steps self;
                            current_step := current_step self + 1 |}) /\
    0 <= pct <= 100 /\
    (current_step self + 1 = total_steps self -> pct = 100).
Proof.
  destruct self as [n k]. cbn [total_steps current_step]. intros H.
  pose proof unit_scale_pos as U.
  pose proof threshold_above_100 as T.
  unfold step. cbn [total_steps current_step].
  unfold int_truediv.
  destruct (n =? 0) eqn:E; [apply Z.eqb_eq in E; lia|].
  rewrite Z.sgn_pos, Z.abs_eq, Z.mul_1_l by lia.
  rewrite round_units_nonneg by nia.
  set (q := round_mag ((k + 1) * unit_scale) n).
  assert (Q0 : 0 <= q) by (apply round_mag_nonneg; nia).
  assert (Q1 : q <= unit_scale).
  { rewrite <- units_1. apply round_mag_mono; nia. }
  rewrite pack_nonneg by assumption.
  destruct (overflow_threshold <=? q) eqn:O; [apply Z.leb_le in O; lia|].
  cbn [rbind]. unfold fmul, lit.
  rewrite round_units_nonneg by nia.
  set (p := round_mag (q * (100 * unit_scale)) unit_scale).
  assert (P0 : 0 <= p) by (apply round_mag_nonneg; nia).
  assert (P1 : p <= 100 * unit_scale).
  { rewrite <- units_100. apply round_mag_mono; nia. }
  rewrite pack_nonneg by assumption.
  destruct (overflow_threshold <=? p) eqn:O'; [apply Z.leb_le in O'; lia|].
  cbn [to_int]. exists (Z.quot p unit_scale). split; [reflexivity|].
  rewrite Z.quot_div_nonneg by lia.
  split.
  - split; [apply Z.div_pos; lia|].
    apply Z.div_le_upper_bound; lia.
  - intros L.
    assert (Q2 : unit_scale <= q).
    { rewrite <- units_1 at 1. apply round_mag_mono; nia. }
    assert (Q3 : q = unit_scale) by lia.
    assert (P2 : 100 * unit_scale <= p).
    { rewrite <- units_100 at 1. apply round_mag_mono; nia. }
    replace p with (100 * unit_scale) by lia.
    apply Z.div_mul. lia.
Qed.

Lemma step_percentage_witness :
  exists pct,
    step {| total_steps := 8; current_step := 7 |}
    = (Ok pct, {| total_steps := 8; current_step := 8 |}) /\
    0 <= pct <= 100 /\ pct = 100.
Proof.
  destruct (step_percentage {| total_steps := 8; current_step := 7 |})
    as [pct [E [R L]]].
  - cbn. lia.
  - exists pct. split; [exact E|]. split; [exact R|].
    apply L. reflexivity.
Defined.

End ProgressFacts.

Module QualityFacts.
Import QualityMetrics.

Lemma calculate_scores_viral (self : QualityMetrics) :
  viral_score (calculate_scores self) = viral_score self + viral_bonus self.
Proof.
  unfold calculate_scores, viral_bonus. cbn [viral_score].
  destruct ((840 <=? estimated_duration self)
            && (estimated_duration self <=? 1200));
    destruct ((2000 <=? script_words self) && (script_words self <=? 2700));
    destruct (visuals_count self >=? 10); lia.
Qed.

Lemma calculate_scores_bonus (self : QualityMetrics) :
  viral_bonus (calculate_scores self) = viral_bonus self.
Proof. reflexivity. Qed.

Lemma viral_bonus_range (self : QualityMetrics) : 0 <= viral_bonus self <= 70.
Proof.
  unfold viral_bonus.
  destruct ((840 <=? estimated_duration self)
            && (estimated_duration self <=? 1200));
    destruct ((2000 <=? script_words self) && (script_words self <=? 2700));
    destruct (visuals_count self >=? 10); lia.
Qed.

(** X6 -- [QualityMetrics.calculate_scores] adds to the viral score
    each time it runs: after [n + 1] calls the score is the starting
    value plus [n + 1] times the bonus (between 0 and 70) of the stored
    counts, while the risk score is 10 and the retention estimate is
    [min(70, 40 + words // 100)], at most 70. *)
Theorem calculate_scores_accumulates (self : QualityMetrics) (n : nat) :
  let after := Nat.iter (S n) calculate_scores self in
  viral_score after
  = viral_score self + (Z.of_nat n + 1) * viral_bonus self /\
  0 <= viral_bonus self <= 70 /\
  risk_score after = 10 /\
  retention_estimate after = Z.min 70 (40 + script_words self / 100) /\
  retention_estimate after <= 70.
Proof.
  cbv zeta.
  assert (I : forall k,
             viral_score (Nat.iter k calculate_scores self)
             = viral_score self + Z.of_nat k * viral_bonus self /\
             viral_bonus (Nat.iter k calculate_scores self)
             = viral_bonus self /\
             script_words (Nat.iter k calculate_scores self)
             = script_words self).
  { induction k as [|k [IH1 [IH2 IH3]]].
    - cbn. repeat split; lia.
    - change (Nat.iter (S k) calculate_scores self)
        with (calculate_scores (Nat.iter k calculate_scores self)).
      rewrite calculate_scores_viral, calculate_scores_bonus.
      rewrite IH1, IH2. repeat split; [lia|].
      cbn [calculate_scores script_words]. exact IH3. }
  destruct (I (S n)) as [I1 _]. destruct (I n) as [_ [_ I3]].
  rewrite I1. split; [lia|]. split; [apply viral_bonus_range|].
  change (Nat.iter (S n) calculate_scores self)
    with (calculate_scores (Nat.iter n calculate_scores self)).
  cbn [calculate_scores risk_score retention_estimate].
  rewrite I3. repeat split; lia.
Qed.

(** X7 -- The pipeline calls [save] and then [summary]: for a script
    of 2000 to 2700 words lasting 840 to 1200 seconds with ten visuals
    or more, the saved file holds a viral score of 70 and the report
    shown afterwards one of 140, on its scale of 100. *)
Theorem report_counts_the_bonus_twice
    (words duration visuals : Z) (writable : bool) :
  2000 <= words <= 2700 -> 840 <= duration <= 1200 -> 10 <= visuals ->
  let collected :=
    update_visuals visuals (update_script words duration init) in
  let saved := snd (save writable collected) in
  let shown := snd (fst (summary saved)) in
  viral_score saved = 70 /\
  viral_score (snd (summary saved)) = 140 /\
  nth 3 shown 0 = 140.
Proof.
  intros Hw Hd Hv.
  cbv beta iota zeta delta [summary save fst snd nth].
  rewrite !calculate_scores_viral, calculate_scores_bonus.
  unfold viral_bonus, update_visuals, update_script, init.
  cbn [estimated_duration script_words visuals_count viral_score].
  replace (840 <=? duration) with true by (symmetry; apply Z.leb_le; lia).
  replace (duration <=? 1200) with true by (symmetry; apply Z.leb_le; lia).
  replace (2000 <=? words) with true by (symmetry; apply Z.leb_le; lia).
  replace (words <=? 2700) with true by (symmetry; apply Z.leb_le; lia).
  replace (visuals >=? 10) with true by (symmetry; apply Z.geb_le; lia).
  cbn. repeat split; reflexivity.
Qed.

Lemma report_counts_the_bonus_twice_witness :
  let collected := update_visuals 15 (update_script 2250 900 init) in
  let saved := snd (save true collected) in
  let shown := snd (fst (summary saved)) in
  viral_score saved = 70 /\
  viral_score (snd (summary saved)) = 140 /\
  nth 3 shown 0 = 140.
Proof.
  apply (report_counts_the_bonus_twice 2250 900 15 true); lia.
Defined.

End QualityFacts.

(* ===================================================================== *)
(** * Facts about a script and its bonus                               *)
(* ===================================================================== *)

Module ScriptFacts.
Import Utils DurationFacts ScriptGenerator.

Lemma estimate_2099 : estimate_duration 2099 default_wpm = Ok 839.
Proof. vm_compute. reflexivity. Qed.
Lemma estimate_2100 : estimate_duration 2100 default_wpm = Ok 840.
Proof. vm_compute. reflexivity. Qed.
Lemma estimate_2700 : estimate_duration 2700 default_wpm = Ok 1080.
Proof. vm_compute. reflexivity. Qed.

(** X8 -- A script and its bonus: for a text of 2000 to 2700 words
    [Script.__post_init__] returns, and the estimated duration it stores
    falls in the 840 to 1200 seconds that [calculate_scores] rewards
    exactly when the text has at least 2100 words; so the two script
    bonuses are 50 together from 2100 words on, and 20 below. *)
Theorem script_bonus_needs_2100_words (topic full_text : string)
    (collected : QualityMetrics.QualityMetrics) :
  let words := Z.of_nat (List.length (PyStr.split full_text)) in
  2000 <= words <= 2700 ->
  exists script,
    post_init topic full_text = Ok script /\
    word_count script = words /\
    (if 2100 <=? words
     then 840 <= estimated_duration script <= 1080
     else estimated_duration script < 840) /\
    QualityMetrics.viral_bonus
      (QualityMetrics.update_script (word_count script)
                   (estimated_duration script) collected)
    = (if 2100 <=? words then 50 else 20)
      + (if QualityMetrics.visuals_count collected >=? 10 then 20 else 0).
Proof.
  cbv zeta. intros H. unfold post_init.
  set (words := Z.of_nat (List.length (PyStr.split full_text))) in *.
  destruct (monotone_where_defined words 2700 1080 ltac:(lia) estimate_2700)
    as [d [E Hd]].
  rewrite E. cbn [rbind]. eexists. split; [reflexivity|].
  cbn [word_count estimated_duration].
  split; [reflexivity|].
  assert (R : if 2100 <=? words then 840 <= d <= 1080 else d < 840).
  { destruct (2100 <=? words) eqn:C.
    - apply Z.leb_le in C.
      destruct (monotone_where_defined 2100 words d ltac:(lia) E)
        as [d' [E' Hd']].
      rewrite estimate_2100 in E'. injection E' as <-. lia.
    - apply Z.leb_gt in C.
      destruct (monotone_where_defined words 2099 839 ltac:(lia)
                  estimate_2099) as [d' [E' Hd']].
      rewrite E in E'. injection E' as <-. lia. }
  split; [exact R|].
  unfold QualityMetrics.viral_bonus, QualityMetrics.update_script.
  cbn [QualityMetrics.estimated_duration QualityMetrics.script_words
       QualityMetrics.visuals_count].
  replace (2000 <=? words) with true by (symmetry; apply Z.leb_le; lia).
  replace (words <=? 2700) with true by (symmetry; apply Z.leb_le; lia).
  cbn [andb].
  destruct (2100 <=? words).
  - replace (840 <=? d) with true by (symmetry; apply Z.leb_le; lia).
    replace (d <=? 1200) with true by (symmetry; apply Z.leb_le; lia).
    reflexivity.
  - replace (840 <=? d) with false by (symmetry; apply Z.leb_gt; lia).
    reflexivity.
Qed.

Lemma script_bonus_needs_2100_words_witness :
  exists script,
    post_init "demo" (PyStr.repeat "word " 2050) = Ok script /\
    word_count script = 2050 /\
    estimated_duration script < 840 /\
    QualityMetrics.viral_bonus
      (QualityMetrics.update_script (word_count script)
                   (estimated_duration script) QualityMetrics.init)
    = 20 + 0.
Proof.
  assert (W : Z.of_nat (List.length (PyStr.split (PyStr.repeat "word " 2050)))
              = 2050) by (vm_compute; reflexivity).
  pose proof (script_bonus_needs_2100_words "demo"
                (PyStr.repeat "word " 2050) QualityMetrics.init) as T.
  cbv zeta in T. rewrite W in T.
  destruct (T ltac:(lia)) as [script [E [Hw [Hd Hb]]]].
  exists script. repeat split; assumption.
Defined.

End ScriptFacts.

(* ===================================================================== *)
(** * More facts about the retry executor                                  *)
(* ===================================================================== *)

Module RetryFacts.
Import Utils WrapperFacts Measures.






(** X10 -- [handle_errors] with [retry_count <= 0]: the wrapped
    function is not called at all and the wrapper answers [None], also
    when a fallback is given; nothing is logged and nothing is waited
    for. *)
Theorem no_attempts_no_call {W A : Type} (retry_count : Z)
    (retry_delay : option Q) (fallback : option (option A))
    (log_errors : option bool) (func : W -> Result (option A) * W)
    (w : W) :
  retry_count <= 0 ->
  handle_errors (Some retry_count) retry_delay fallback log_errors func w
  = (Ok None, w, []).
Proof.
  intros H. unfold handle_errors, wrapper. cbn [kwarg].
  replace (Z.to_nat retry_count) with 0%nat by lia. reflexivity.
Qed.

Lemma no_attempts_no_call_witness :
  handle_errors (Some 0) None (Some (Some 7%nat)) None flaky 0%nat
  = (Ok None, 0%nat, []).
Proof.
  apply (no_attempts_no_call 0 None (Some (Some 7%nat)) None flaky 0%nat).
  lia.
Defined.

End RetryFacts.

(* ===================================================================== *)
(** * More facts about chunking and cleaning                               *)
(* ===================================================================== *)

Module ChunkShapeFacts.
Import PyStr PyStrFacts Utils Voiceover VoiceoverFacts ChunkFacts Measures.

Lemma weight_app (a b : list string) :
  weight (a ++ b) = weight a + weight b.
Proof. induction a as [|w a IH]; cbn [app weight]; lia. Qed.

Lemma weight_nonneg (l : list string) : 0 <= weight l.
Proof.
  induction l as [|w l IH]; cbn [weight]; [lia|].
  pose proof (len_nonneg w). lia.
Qed.

Lemma len_join_weight (l : list string) :
  l <> [] -> len (join " " l) + 1 = weight l.
Proof.
  induction l as [|w l IH]; intros H; [congruence|].
  destruct l as [|w' l].
  - cbn. lia.
  - change (join " " (w :: w' :: l)) with (w ++ " " ++ join " " (w' :: l)).
    rewrite !len_app. cbn [weight] in *.
    specialize (IH ltac:(discriminate)).
    change (len " ") with 1. lia.
Qed.

(** While everything fits, the loop only collects. *)
Lemma chunk_loop_fits (max_chars : Z) (words : list string) :
  forall chunks current_chunk,
    weight current_chunk + weight words <= max_chars ->
    chunk_loop max_chars words chunks current_chunk (weight current_chunk)
    = (chunks, (current_chunk ++ words)%list,
       weight (current_chunk ++ words)%list).
Proof.
  induction words as [|word rest IH]; intros chunks current H.
  - cbn [chunk_loop]. rewrite List.app_nil_r. reflexivity.
  - cbn [chunk_loop]. cbn [weight] in H.
    pose proof (weight_nonneg rest).
    destruct (weight current + len word + 1 >? max_chars) eqn:E.
    + rewrite Z.gtb_ltb in E. apply Z.ltb_lt in E. lia.
    + replace (weight current + len word + 1)
        with (weight (current ++ [word])%list)
        by (rewrite weight_app; cbn [weight]; lia).
      rewrite IH.
      * rewrite <- List.app_assoc. reflexivity.
      * rewrite weight_app. cbn [weight]. lia.
Qed.

(** The loop never drops a chunk, and it ends with words in hand as soon
    as it was given any. *)
Lemma chunk_loop_grows (max_chars : Z) (words : list string) :
  forall chunks current_chunk current_len,
    let '(chunks', current', _) :=
      chunk_loop max_chars words chunks current_chunk current_len in
    (List.length chunks <= List.length chunks')%nat /\
    (words <> [] -> current' <> []) /\
    (current_chunk <> [] -> current' <> []).
Proof.
  induction words as [|word rest IH]; intros chunks current current_len.
  - cbn [chunk_loop]. repeat split; [lia | congruence | auto].
  - cbn [chunk_loop].
    destruct (current_len + len word + 1 >? max_chars).
    + specialize (IH (chunks ++ [join " " current])%list [word] (len word)).
      destruct (chunk_loop max_chars rest _ _ _) as [[chunks' current'] l'].
      destruct IH as [I1 [_ I3]]. rewrite List.length_app in I1. cbn in I1.
      repeat split; [lia | |]; intros _; apply I3; discriminate.
    + specialize (IH chunks (current ++ [word])%list
                     (current_len + len word + 1)).
      destruct (chunk_loop max_chars rest _ _ _) as [[chunks' current'] l'].
      destruct IH as [I1 [_ I3]].
      repeat split; [lia | |]; intros _; apply I3;
        destruct current; discriminate.
Qed.

(** Once the words no longer fit, the first chunk is closed. *)
Lemma chunk_loop_overflows (max_chars : Z) (words : list string) :
  forall chunks current_chunk,
    max_chars < weight current_chunk + weight words ->
    weight current_chunk <= max_chars ->
    let '(chunks', current', _) :=
      chunk_loop max_chars words chunks current_chunk
                 (weight current_chunk) in
    (List.length chunks < List.length chunks')%nat /\ current' <> [].
Proof.
  induction words as [|word rest IH]; intros chunks current H1 H2.
  - cbn [weight] in H1. lia.
  - cbn [chunk_loop]. cbn [weight] in H1.
    destruct (weight current + len word + 1 >? max_chars) eqn:E.
    + pose proof (chunk_loop_grows max_chars rest
                    (chunks ++ [join " " current])%list [word] (len word))
        as G.
      destruct (chunk_loop max_chars rest _ _ _) as [[chunks' current'] l'].
      destruct G as [G1 [_ G3]]. rewrite List.length_app in G1. cbn in G1.
      split; [lia | apply G3; discriminate].
    + rewrite Z.gtb_ltb in E. apply Z.ltb_ge in E.
      assert (Wq : weight (current ++ [word])%list
                   = weight current + len word + 1)
        by (rewrite weight_app; cbn [weight]; lia).
      specialize (IH chunks (current ++ [word])%list).
      rewrite Wq in IH. apply IH; lia.
Qed.

(** X11 -- [chunk_text]: a text with words comes back as one chunk,
    its words joined by single spaces, exactly when that joined text is
    strictly shorter than [max_chars]; a text of exactly [max_chars]
    characters is already cut. *)
Theorem single_chunk_iff (text : string) (max_chars : Z) :
  split text <> [] ->
  (chunk_text text max_chars = [normalized text]
   <-> len (normalized text) < max_chars).
Proof.
  unfold chunk_text, normalized.
  intros Hne. pose proof (len_join_weight (split text) Hne) as Hw.
  split.
  - intros Hc.
    destruct (Z_lt_le_dec (len (join " " (split text))) max_chars)
      as [|Hge]; [assumption|exfalso].
    pose proof (chunk_loop_overflows max_chars (split text) [] []) as O.
    cbn [weight Z.add] in O.
    destruct (Z_lt_le_dec max_chars 0) as [Hneg|Hpos].
    + (* a negative budget: the first word already overflows *)
      destruct (split text) as [|word rest] eqn:Es; [congruence|].
      cbn [chunk_loop] in Hc.
      pose proof (len_nonneg word).
      destruct (0 + len word + 1 >? max_chars) eqn:E.
      2:{ rewrite Z.gtb_ltb in E. apply Z.ltb_ge in E. lia. }
      pose proof (chunk_loop_grows max_chars rest
                    ([] ++ [join " " []])%list [word] (len word)) as G.
      destruct (chunk_loop max_chars rest _ _ _)
        as [[chunks' current'] l'].
      destruct G as [G1 [_ G3]]. cbn in G1.
      specialize (G3 ltac:(discriminate)).
      destruct current' as [|c0 cs]; [congruence|].
      apply (f_equal (@List.length string)) in Hc.
      rewrite List.length_app in Hc. cbn in Hc. lia.
    + specialize (O ltac:(lia) ltac:(lia)).
      destruct (chunk_loop max_chars (split text) [] [] 0)
        as [[chunks' current'] l'].
      destruct O as [O1 O2]. cbn in O1.
      destruct current' as [|c0 cs]; [congruence|].
      apply (f_equal (@List.length string)) in Hc.
      rewrite List.length_app in Hc. cbn in Hc. lia.
  - intros Hlt.
    pose proof (chunk_loop_fits max_chars (split text) [] []) as F.
    cbn [weight Z.add app] in F. rewrite F by lia.
    destruct (split text); [congruence | reflexivity].
Qed.

Lemma single_chunk_iff_witness :
  chunk_text "hello  world" 12 = ["hello world"] /\
  chunk_text "hello  world" 11 = ["hello"; "world"].
Proof.
  split; [|vm_compute; reflexivity].
  apply (single_chunk_iff "hello  world" 12).
  - vm_compute. discriminate.
  - vm_compute. reflexivity.
Defined.

Lemma join_words_nonempty (l : list string) :
  l <> [] -> Forall (fun w => is_word w = true) l ->
  join " " l <> EmptyString.
Proof.
  intros Hne Hw. destruct l as [|w l]; [congruence|].
  inversion Hw as [|? ? Hw1 _]; subst.
  destruct w as [|c w]; [discriminate|].
  destruct l; cbn; discriminate.
Qed.

Lemma chunk_loop_shape (max_chars : Z) (words : list string) :
  forall chunks current_chunk current_len,
    Forall (fun w => is_word w = true) current_chunk ->
    Forall (fun w => is_word w = true) words ->
    let '(chunks', current', _) :=
      chunk_loop max_chars words chunks current_chunk current_len in
    exists extra,
      chunks' = (chunks ++ extra)%list /\
      Forall (fun w => is_word w = true) current' /\
      Forall (fun c => c <> EmptyString) (tl extra) /\
      (current_chunk <> [] -> Forall (fun c => c <> EmptyString) extra) /\
      (List.length extra <= List.length words)%nat.
Proof.
  induction words as [|word rest IH];
    intros chunks current current_len Hc Hw.
  - cbn [chunk_loop]. exists []. rewrite List.app_nil_r.
    repeat split; auto.
  - inversion Hw as [|? ? Hw1 Hw2]; subst. cbn [chunk_loop].
    destruct (current_len + len word + 1 >? max_chars).
    + specialize (IH (chunks ++ [join " " current])%list [word] (len word)
                     ltac:(auto) Hw2).
      destruct (chunk_loop max_chars rest _ _ _) as [[chunks' current'] l'].
      destruct IH as [extra [E1 [E2 [_ [E4 E5]]]]].
      specialize (E4 ltac:(discriminate)).
      exists (join " " current :: extra).
      rewrite E1, <- List.app_assoc. repeat split; auto.
      * intros Hne. constructor; [|assumption].
        apply join_words_nonempty; assumption.
      * cbn [List.length]. lia.
    + specialize (IH chunks (current ++ [word])%list
                     (current_len + len word + 1)).
      assert (Hc' : Forall (fun w => is_word w = true)
                           (current ++ [word])%list).
      { apply Forall_app. split; auto. }
      specialize (IH Hc' Hw2).
      destruct (chunk_loop max_chars rest _ _ _) as [[chunks' current'] l'].
      destruct IH as [extra [E1 [E2 [E3 [E4 E5]]]]].
      exists extra. repeat split; auto.
      * intros _. apply E4. destruct current; discriminate.
      * cbn [List.length]. lia.
Qed.

(** X12 -- [chunk_text]: only the first chunk can be empty (it is when
    the first word does not fit), every later chunk holds at least one
    word, and there are at most as many chunks as words, plus one. *)
Theorem only_first_chunk_can_be_empty (text : string) (max_chars : Z) :
  let chunks := chunk_text text max_chars in
  Forall (fun chunk => chunk <> EmptyString) (tl chunks) /\
  (List.length chunks <= List.length (split text) + 1)%nat /\
  match split text with
  | [] => chunks = []
  | word :: _ =>
      hd EmptyString chunks = EmptyString <-> max_chars < len word + 1
  end.
Proof.
  cbv zeta. unfold chunk_text.
  pose proof (chunk_loop_shape max_chars (split text) [] [] 0
                ltac:(constructor) (split_words text)) as S.
  pose proof (chunk_loop_grows max_chars (split text) [] [] 0) as G.
  destruct (chunk_loop max_chars (split text) [] [] 0)
    as [[chunks' current'] l'] eqn:E.
  destruct S as [extra [E1 [E2 [E3 [_ E5]]]]]. cbn [app] in E1. subst chunks'.
  destruct G as [_ [G2 _]].
  assert (T : Forall (fun chunk => chunk <> EmptyString)
                (tl match current' with
                    | [] => extra
                    | _ :: _ => (extra ++ [join " " current'])%list
                    end)).
  { destruct current' as [|c0 cs]; [assumption|].
    destruct extra as [|x extra]; cbn [tl app]; [constructor|].
    apply Forall_app. split; [assumption|]. constructor; [|constructor].
    apply join_words_nonempty; [discriminate | assumption]. }
  split; [exact T|]. split.
  - destruct current'; [lia|]. rewrite List.length_app. cbn. lia.
  - destruct (split text) as [|word rest] eqn:Hs.
    { cbn [chunk_loop] in E. injection E as <- <- _. reflexivity. }
    cbn [chunk_loop] in E.
    pose proof (split_words text) as Hw. rewrite Hs in Hw.
    inversion Hw as [|? ? Hw1 Hw2]; subst.
    destruct (0 + len word + 1 >? max_chars) eqn:C.
    + rewrite Z.gtb_ltb in C. apply Z.ltb_lt in C.
      pose proof (chunk_loop_shape max_chars rest ([] ++ [join " " []])%list
                    [word] (len word) ltac:(auto) Hw2) as S.
      rewrite E in S. destruct S as [extra' [F1 _]].
      cbn [app join] in F1. subst extra.
      split; [lia|]. intros _.
      destruct current'; reflexivity.
    + rewrite Z.gtb_ltb in C. apply Z.ltb_ge in C.
      split; [|lia]. intros Hhd. exfalso.
      pose proof (chunk_loop_shape max_chars rest [] ([] ++ [word])%list
                    (0 + len word + 1)
                    ltac:(cbn [app]; auto) Hw2) as S.
      rewrite E in S. destruct S as [extra' [F1 [_ [_ [F4 _]]]]].
      cbn [app] in F1. subst extra'.
      specialize (F4 ltac:(discriminate)).
      specialize (G2 ltac:(discriminate)).
      destruct current' as [|c0 cs]; [congruence|].
      destruct extra as [|x extra].
      * cbn [hd app] in Hhd.
        exact (join_words_nonempty _ G2 E2 Hhd).
      * cbn [hd app] in Hhd. inversion F4; subst. congruence.
Qed.

(** X13 -- The whitespace clean-up of [_clean_text_for_speech] is
    [' '.join(text.split())]: the substitution for blank lines finds
    nothing to replace after the runs are collapsed, cleaning twice is
    cleaning once, and the words of the text are kept. *)
Theorem clean_whitespace_is_split_join (text : string) :
  clean_whitespace text = join " " (split text) /\
  squeeze_blank_lines O (collapse_runs text) = collapse_runs text /\
  clean_whitespace (clean_whitespace text) = clean_whitespace text /\
  split (clean_whitespace text) = split text.
Proof.
  repeat split.
  - apply clean_whitespace_normalized.
  - apply squeeze_plain, collapse_runs_plain.
  - rewrite !clean_whitespace_normalized. apply normalized_idempotent.
  - rewrite clean_whitespace_normalized. unfold normalized.
    apply split_join_words, split_words.
Qed.

End ChunkShapeFacts.

(* ===================================================================== *)
(** * Facts about generating the narration                                 *)
(* ===================================================================== *)

Module NarrationFacts.
Import Utils Voiceover Narration.

Section Facts.
Context {W : Type}.
Variable output_dir : string.
Variable speak : string -> string -> W -> Result unit * W.
Variable combine_and_export : list string -> string -> W -> Result unit * W.
Variable unlink_all : list string -> W -> Result unit * W.

Local Abbreviation _generate_chunk := (_generate_chunk speak).
Local Abbreviation generate_loop := (generate_loop output_dir speak).
Local Abbreviation generate_cleaned :=
  (generate_cleaned output_dir speak combine_and_export unlink_all).

Lemma generate_chunk_fails (text path : string) (w : W) :
  (forall text path w, exists e, fst (speak text path w) = Raise e) ->
  exists e w' tr, _generate_chunk text path w = (Raise e, w', tr).
Proof.
  intros Hfail.
  unfold Narration._generate_chunk, handle_errors, wrapper. cbn [kwarg].
  change (Z.to_nat 2) with 2%nat. cbn [attempts].
  destruct (Hfail text path w) as [e1 H1].
  destruct (speak text path w) as [r1 w1]. cbn [fst] in H1. subst r1.
  cbn [rbind]. change (0 <? 2 - 1) with true. cbv iota.
  destruct (Hfail text path w1) as [e2 H2].
  destruct (speak text path w1) as [r2 w2]. cbn [fst] in H2. subst r2.
  cbn [rbind]. change (0 + 1 <? 2 - 1) with false. cbv iota.
  do 3 eexists. reflexivity.
Qed.

Lemma generate_loop_fails (chunks : list string) :
  (forall text path w, exists e, fst (speak text path w) = Raise e) ->
  forall i chunk_files w,
    fst (generate_loop chunks i chunk_files w) = chunk_files.
Proof.
  intros Hfail.
  induction chunks as [|chunk rest IH]; intros i chunk_files w;
    cbn [Narration.generate_loop]; [reflexivity|].
  match goal with
  | |- context [_generate_chunk chunk ?p w] =>
      destruct (generate_chunk_fails chunk p w Hfail) as [e [w' [tr ->]]]
  end.
  apply IH.
Qed.

(** X14 -- [generate], from the chunking on: when the cleaned text has
    no word (no chunk, so the speech service is not called), or when the
    speech service fails at every call (each chunk is given up after
    its two attempts), nothing is combined and
    [RuntimeError("No audio chunks generated")] is raised. *)
Theorem no_audio_is_an_error (clean_text output_filename : string) (w : W) :
  PyStr.split clean_text = [] \/
  (forall text path w, exists e, fst (speak text path w) = Raise e) ->
  fst (generate_cleaned clean_text output_filename w)
  = Raise (RuntimeError "No audio chunks generated").
Proof.
  intros [H | Hfail]; unfold Narration.generate_cleaned.
  - unfold narration_chunks, chunk_text. rewrite H. reflexivity.
  - pose proof (generate_loop_fails (narration_chunks clean_text) Hfail
                  0 [] w) as L.
    destruct (generate_loop (narration_chunks clean_text) 0 [] w)
      as [chunk_files w'].
    cbn [fst] in L. subst chunk_files. reflexivity.
Qed.

End Facts.

Lemma no_audio_is_an_error_witness :
  fst (generate_cleaned "audio" speechless
         (fun _ _ w => (Ok tt, w)) (fun _ w => (Ok tt, w))
         "Welcome to this video" "voiceover.mp3" 0%nat)
  = Raise (RuntimeError "No audio chunks generated").
Proof.
  apply (no_audio_is_an_error "audio" speechless
           (fun _ _ w => (Ok tt, w)) (fun _ w => (Ok tt, w))
           "Welcome to this video" "voiceover.mp3" 0%nat).
  right. intros text path w. eexists. reflexivity.
Defined.

End NarrationFacts.

(* ===================================================================== *)
(** * More facts about the compliance gate                                 *)
(* ===================================================================== *)

Module GateFacts.
Import VisualSourcer ComplianceChecker ComplianceFacts SourceClasses.

Lemma check_visuals_loop_spec (visuals : list Visual) :
  forall issues safe_count risky_count,
    let '(issues', safe', risky') :=
      check_visuals_loop visuals issues safe_count risky_count in
    safe' = safe_count + Z.of_nat (List.length (filter is_safe visuals)) /\
    risky' = risky_count + Z.of_nat (List.length (filter is_risky visuals)) /\
    List.length issues'
    = (List.length issues
       + List.length (filter (fun v => negb (is_safe v)) visuals))%nat.
Proof.
  induction visuals as [|v rest IH]; intros issues sc rc.
  - cbn. repeat split; lia.
  - cbn [check_visuals_loop filter]. unfold is_safe, is_risky, class_of.
    destruct (classify_source (source v)) eqn:C; cbn [negb];
      match goal with
      | |- context [check_visuals_loop rest ?i ?s ?r] =>
          specialize (IH i s r);
          destruct (check_visuals_loop rest i s r) as [[i' s'] r']
      end;
      unfold is_safe, is_risky, class_of in IH;
      destruct IH as [I1 [I2 I3]];
      try rewrite List.length_app in I3;
      cbn [List.length] in *; repeat split; lia.
Qed.

Lemma filter_all {A} (f : A -> bool) (l : list A) :
  List.length (filter f l) = List.length l <-> forallb f l = true.
Proof.
  induction l as [|x l IH]; cbn; [tauto|].
  pose proof (filter_length_le f l).
  destruct (f x); cbn.
  - rewrite <- IH. lia.
  - split; [lia | discriminate].
Qed.

Lemma filter_none {A} (f : A -> bool) (l : list A) :
  List.length (filter f l) = 0%nat <-> existsb f l = false.
Proof.
  induction l as [|x l IH]; cbn; [tauto|].
  destruct (f x); cbn.
  - split; [lia | discriminate].
  - exact IH.
Qed.

Lemma check_visuals_status (visuals : list Visual) :
  fst (check_visuals visuals)
  = if existsb is_risky visuals then "risk"
    else if forallb is_safe visuals then "safe"
    else "warning".
Proof.
  unfold check_visuals.
  pose proof (check_visuals_loop_spec visuals [] 0 0) as S.
  destruct (check_visuals_loop visuals [] 0 0) as [[i s] r].
  destruct S as [S1 [S2 _]]. cbn [fst].
  destruct (existsb is_risky visuals) eqn:R.
  - destruct (r >? 0) eqn:G; [reflexivity|].
    rewrite Z.gtb_ltb in G. apply Z.ltb_ge in G.
    assert (L : List.length (filter is_risky visuals) = 0%nat) by lia.
    apply filter_none in L. congruence.
  - apply filter_none in R.
    destruct (r >? 0) eqn:G.
    { rewrite Z.gtb_ltb in G. apply Z.ltb_lt in G. lia. }
    destruct (forallb is_safe visuals) eqn:F.
    + apply filter_all in F.
      replace (s =? Z.of_nat (List.length visuals)) with true;
        [reflexivity|].
      symmetry. apply Z.eqb_eq. lia.
    + destruct (s =? Z.of_nat (List.length visuals)) eqn:Q; [|reflexivity].
      apply Z.eqb_eq in Q.
      assert (L : List.length (filter is_safe visuals)
                  = List.length visuals) by lia.
      apply filter_all in L. congruence.
Qed.

Lemma check_visuals_cases (visuals : list Visual) :
  fst (check_visuals visuals) = "risk"
  \/ fst (check_visuals visuals) = "safe"
  \/ fst (check_visuals visuals) = "warning".
Proof.
  rewrite check_visuals_status.
  destruct (existsb is_risky visuals); [auto|].
  destruct (forallb is_safe visuals); auto.
Qed.

Lemma check_visuals_all_safe (visuals : list Visual) :
  (forall v, In v visuals -> class_of v = SafeSource) ->
  fst (check_visuals visuals) = "safe".
Proof.
  intros H. rewrite check_visuals_status.
  assert (S : forallb is_safe visuals = true).
  { apply forallb_forall. intros v Hv. unfold is_safe.
    rewrite (H v Hv). reflexivity. }
  assert (R : existsb is_risky visuals = false).
  { apply not_true_iff_false. intros E. apply existsb_exists in E.
    destruct E as [v [Hv E]]. unfold is_risky in E.
    rewrite (H v Hv) in E. discriminate. }
  rewrite R, S. reflexivity.
Qed.

(** X15 -- [check_visuals]: the status is ["risk"] exactly when some
    visual takes the risky branch, ["safe"] exactly when every visual
    takes the safe branch (so for no visuals at all), and ["warning"]
    otherwise; one issue is recorded for each visual that is not safe. *)
Theorem visual_status_by_branch (visuals : list Visual) :
  let status := fst (check_visuals visuals) in
  let issues := snd (check_visuals visuals) in
  (status = "risk"
   <-> exists v, In v visuals /\ class_of v = RiskySource) /\
  (status = "safe"
   <-> forall v, In v visuals -> class_of v = SafeSource) /\
  (status = "risk" \/ status = "safe" \/ status = "warning") /\
  List.length issues
  = List.length (filter (fun v => negb (is_safe v)) visuals).
Proof.
  cbv zeta. rewrite check_visuals_status.
  assert (HR : existsb is_risky visuals = true
               <-> exists v, In v visuals /\ class_of v = RiskySource).
  { rewrite existsb_exists. unfold is_risky.
    split; intros [v [Hv Hc]]; exists v; split; auto.
    - destruct (class_of v); congruence.
    - rewrite Hc. reflexivity. }
  assert (HS : forallb is_safe visuals = true
               <-> forall v, In v visuals -> class_of v = SafeSource).
  { rewrite forallb_forall. unfold is_safe.
    split; intros H v Hv; specialize (H v Hv).
    - destruct (class_of v); congruence.
    - rewrite H. reflexivity. }
  repeat split.
  - intros H. apply HR.
    destruct (existsb is_risky visuals); [reflexivity|].
    destruct (forallb is_safe visuals); discriminate.
  - intros H. apply HR in H. rewrite H. reflexivity.
  - intros H. apply HS.
    destruct (existsb is_risky visuals); [discriminate|].
    destruct (forallb is_safe visuals); [reflexivity | discriminate].
  - intros H. pose proof H as H'. apply HS in H'. rewrite H'.
    destruct (existsb is_risky visuals) eqn:R; [|reflexivity].
    destruct (proj1 HR eq_refl) as [v [Hv Hc]].
    rewrite (H v Hv) in Hc. discriminate.
  - destruct (existsb is_risky visuals); [auto|].
    destruct (forallb is_safe visuals); auto.
  - unfold check_visuals.
    pose proof (check_visuals_loop_spec visuals [] 0 0) as S.
    destruct (check_visuals_loop visuals [] 0 0) as [[i s] r].
    destruct S as [_ [_ S3]]. cbn [snd]. cbn [List.length] in S3. lia.
Qed.


Lemma visual_status_by_branch_witness :
  fst (check_visuals [visual_from "pexels"; visual_from "flickr"])
  = "warning" /\
  List.length (snd (check_visuals
                      [visual_from "pexels"; visual_from "flickr"]))
  = 1%nat.
Proof.
  destruct (visual_status_by_branch
              [visual_from "pexels"; visual_from "flickr"])
    as [_ [_ [_ L]]].
  split; [vm_compute; reflexivity | exact L].
Defined.

Lemma originality_cases (script_text : string) :
  check_script_originality script_text = ("high", [])
  \/ check_script_originality script_text = ("medium", [])
  \/ check_script_originality script_text
     = ("low", ["Script may lack sufficient original commentary"]).
Proof.
  unfold check_script_originality.
  destruct (originality_score script_text >=? 50); [auto|].
  destruct (originality_score script_text >=? 30); auto.
Qed.

(** X16 -- [run_full_check]: the report passes exactly when the visual
    status is ["safe"], or it is not ["risk"] and the script originality
    is ["high"]; [monetization_ready] always equals [passed], the score
    lies between 30 and 100, and six recommendations are attached. *)
Theorem gate_decision (writable : bool) (visuals : option (list Visual))
    (script_text : string) (report : ComplianceReport) :
  run_full_check writable visuals script_text = Ok report ->
  (passed report = true
   <-> visual_safety report = "safe"
       \/ (visual_safety report <> "risk"
           /\ content_originality report = "high")) /\
  monetization_ready report = passed report /\
  30 <= score report <= 100 /\
  List.length (recommendations report) = 6%nat.
Proof.
  unfold run_full_check, _log_report.
  assert (V : exists st iss,
             match visuals with
             | Some ((_ :: _) as visuals) =>
                 let '(visual_status, visual_issues) :=
                   check_visuals visuals in
                 (visual_status, ([] ++ visual_issues)%list,
                  ([] ++ [if String.eqb visual_status "safe" then 100
                          else if String.eqb visual_status "warning" then 50
                          else 20])%list)
             | _ => ("unknown", [], ([] ++ [50])%list)
             end
             = (st, iss, [if String.eqb st "safe" then 100
                          else if String.eqb st "warning" then 50
                          else if String.eqb st "risk" then 20 else 50])
             /\ (st = "safe" \/ st = "warning" \/ st = "risk"
                 \/ st = "unknown")).
  { destruct visuals as [[|v vs]|].
    - exists "unknown", []. split; [reflexivity | auto].
    - pose proof (check_visuals_cases (v :: vs)) as B.
      destruct (check_visuals (v :: vs)) as [st iss]. cbn [fst] in B.
      exists st, iss.
      destruct B as [-> | [-> | ->]]; split; auto.
    - exists "unknown", []. split; [reflexivity | auto]. }
  destruct V as [st [iss [-> Hst]]].
  destruct script_text as [|c s].
  - destruct writable; cbn [rbind]; [|discriminate].
    intros H. injection H as <-.
    cbn [passed visual_safety content_originality monetization_ready score
         recommendations check_monetization_requirements fst snd].
    destruct Hst as [-> | [-> | [-> | ->]]]; vm_compute;
      (split; [split; [intros;
                       first [discriminate | solve [auto]
                             | right; split; [discriminate | reflexivity]]
                      | intros [? | [? ?]]; congruence]
              | repeat split; congruence]).
  - destruct (originality_cases (String c s)) as [-> | [-> | ->]];
      (destruct writable; cbn [rbind]; [|discriminate]);
      intros H; injection H as <-;
      cbn [passed visual_safety content_originality monetization_ready score
           recommendations check_monetization_requirements fst snd];
      destruct Hst as [-> | [-> | [-> | ->]]]; vm_compute;
      (split; [split; [intros;
                       first [discriminate | solve [auto]
                             | right; split; [discriminate | reflexivity]]
                      | intros [? | [? ?]]; congruence]
              | repeat split; congruence]).
Qed.

Lemma gate_decision_witness :
  exists report,
    run_full_check true (Some [visual_from "flickr"]) six_phrase_script
    = Ok report /\
    passed report = true /\ visual_safety report = "warning" /\
    content_originality report = "high" /\
    monetization_ready report = passed report.
Proof.
  assert (E : exists report,
             run_full_check true (Some [visual_from "flickr"])
               six_phrase_script = Ok report /\
             visual_safety report = "warning" /\
             content_originality report = "high").
  { eexists. split; [vm_compute; reflexivity|]. split; reflexivity. }
  destruct E as [report [E [Hv Ho]]].
  exists report.
  destruct (gate_decision true (Some [visual_from "flickr"])
              six_phrase_script report E) as [Hp [Hm _]].
  repeat split; auto.
  apply Hp. right. split; [rewrite Hv; discriminate | exact Ho].
Defined.

(** X17 -- Visuals from the safe sources alone carry the report: with
    at least one visual and every visual on the safe branch, the check
    passes for any script, also an empty one or one of low originality,
    with a score of at least 70. *)
Theorem safe_visuals_pass (visuals : list Visual) (script_text : string) :
  visuals <> [] ->
  (forall v, In v visuals -> class_of v = SafeSource) ->
  exists report,
    run_full_check true (Some visuals) script_text = Ok report /\
    passed report = true /\ monetization_ready report = true /\
    visual_safety report = "safe" /\ 70 <= score report.
Proof.
  intros Hne Hs.
  apply check_visuals_all_safe in Hs.
  unfold run_full_check, _log_report.
  destruct visuals as [|v vs]; [congruence|].
  destruct (check_visuals (v :: vs)) as [st iss]. cbn [fst] in Hs. subst st.
  destruct script_text as [|c s].
  - eexists. split; [reflexivity|]. vm_compute.
    repeat split; congruence.
  - destruct (originality_cases (String c s)) as [-> | [-> | ->]];
      (eexists; split; [reflexivity|]; vm_compute; repeat split; congruence).
Qed.

Lemma safe_visuals_pass_witness :
  exists report,
    run_full_check true (Some [visual_from "Pexels"]) EmptyString
    = Ok report /\
    passed report = true /\ monetization_ready report = true /\
    visual_safety report = "safe" /\ 70 <= score report.
Proof.
  apply (safe_visuals_pass [visual_from "Pexels"] EmptyString).
  - discriminate.
  - intros v [<- | []]. vm_compute. reflexivity.
Defined.

End GateFacts.

(* ===================================================================== *)
(** * Facts about scoring, ranking and discovery                           *)
(* ===================================================================== *)

Module ScoreFacts.
Import Binary64 Binary64Facts DurationFacts SegmentFacts.
Import TopicDiscovery Ranking.

Lemma threshold_pos : 0 < overflow_threshold.
Proof.
  pose proof (int_units_small 1 ltac:(lia)). pose proof unit_scale_pos. lia.
Qed.

(** Small whole numbers add without rounding. *)
Lemma fadd_lit (a b : Z) :
  0 <= a -> 0 <= b -> a + b < 2 ^ 53 ->
  fadd (lit a) (lit b) = lit (a + b).
Proof.
  intros Ha Hb Hab. unfold fadd, lit.
  replace (a * unit_scale + b * unit_scale) with ((a + b) * unit_scale)
    by lia.
  pose proof unit_scale_pos as U. pose proof threshold_pos as T.
  destruct (Z.eq_dec (a + b) 0) as [E | E].
  - rewrite E. change (0 * unit_scale) with 0.
    change (round_units 0 1) with (0 * round_mag 0 1).
    rewrite Z.mul_0_l, pack_nonneg by lia.
    destruct (overflow_threshold <=? 0) eqn:O; [|reflexivity].
    apply Z.leb_le in O. lia.
  - rewrite int_units_exact by lia.
    pose proof (int_units_small (a + b) ltac:(lia)).
    rewrite pack_nonneg by nia.
    destruct (overflow_threshold <=? (a + b) * unit_scale) eqn:O;
      [|reflexivity].
    apply Z.leb_le in O. lia.
Qed.

Lemma hits_range (terms : list string) (text : string) :
  0 <= hits terms text <= Z.of_nat (List.length terms).
Proof.
  unfold hits.
  pose proof (filter_length_le (fun term => PyStr.contains term text) terms).
  lia.
Qed.

Lemma matched_range (keywords : list string) (text : string) :
  (List.length (matched keywords text) <= List.length keywords)%nat.
Proof. apply filter_length_le. Qed.

Lemma match_keywords_lit (keywords : list string) (text : string) :
  forall s found,
    0 <= s -> s + 20 * Z.of_nat (List.length keywords) < 2 ^ 53 ->
    match_keywords keywords text (lit s) found
    = (lit (s + 20 * Z.of_nat (List.length (matched keywords text))),
       (found ++ matched keywords text)%list).
Proof.
  induction keywords as [|keyword rest IH]; intros s found Hs Hb.
  - cbn [match_keywords matched filter List.length].
    rewrite List.app_nil_r. do 2 f_equal; lia.
  - cbn [match_keywords matched filter].
    cbn [List.length] in Hb.
    destruct (PyStr.contains (PyStr.lower keyword) text).
    + rewrite fadd_lit by lia. rewrite IH by lia.
      fold (matched rest text). cbn [List.length].
      rewrite <- List.app_assoc. cbn [app]. do 2 f_equal; lia.
    + rewrite IH by lia. reflexivity.
Qed.

Lemma add_terms_lit (terms : list string) (bonus : Z) (text : string) :
  0 <= bonus ->
  forall s,
    0 <= s -> s + bonus * Z.of_nat (List.length terms) < 2 ^ 53 ->
    add_terms terms bonus text (lit s) = lit (s + bonus * hits terms text).
Proof.
  intros Hbonus. unfold hits.
  induction terms as [|term rest IH]; intros s Hs Hb.
  - cbn [add_terms filter List.length]. f_equal; lia.
  - cbn [add_terms filter]. cbn [List.length] in Hb.
    destruct (PyStr.contains term text).
    + rewrite fadd_lit by nia. rewrite IH by nia.
      cbn [List.length]. f_equal; lia.
    + rewrite IH by nia. reflexivity.
Qed.

Lemma base_points_range (keywords : list string) (topic : Topic) :
  0 <= base_points keywords topic
  <= 20 * Z.of_nat (List.length keywords) + 135.
Proof.
  unfold base_points, year_bonus.
  pose proof (matched_range keywords (text_of topic)).
  pose proof (hits_range high_value (text_of topic)) as H1.
  pose proof (hits_range viral_terms (text_of topic)) as H2.
  cbn [high_value viral_terms List.length] in H1, H2.
  destruct (PyStr.contains "2026" (text_of topic)
            || PyStr.contains "2025" (text_of topic)); lia.
Qed.

Lemma recency_bonus_range (days_old : option Z) :
  0 <= recency_bonus days_old <= 30.
Proof.
  unfold recency_bonus. destruct days_old as [d|]; [|lia].
  destruct (d <=? 1); [lia|]. destruct (d <=? 3); [lia|].
  destruct (d <=? 7); lia.
Qed.

Lemma lit_100_positive : exists p, 100 * unit_scale = Z.pos p.
Proof.
  pose proof unit_scale_pos.
  destruct (100 * unit_scale) as [|p|p] eqn:E; try lia. exists p. reflexivity.
Qed.

Lemma pack_not_nan (u : Z) : pack u <> NaN.
Proof. unfold pack. destruct (overflow_threshold <=? Z.abs u); discriminate. Qed.

Lemma fdiv_100 (x : float64) :
  exists part, fdiv x (lit 100) = Ok part /\ (x <> NaN -> part <> NaN).
Proof.
  unfold lit. destruct lit_100_positive as [p ->].
  destruct x as [a | s |]; cbn [fdiv].
  - eexists. split; [reflexivity|]. intros _. apply pack_not_nan.
  - eexists. split; [reflexivity|]. discriminate.
  - exists NaN. split; [reflexivity|]. congruence.
Qed.

Lemma fadd_finite_not_nan (a : Z) (y : float64) :
  y <> NaN -> fadd (Finite a) y <> NaN.
Proof.
  destruct y as [b | s |]; cbn [fadd]; intros H;
    [apply pack_not_nan | discriminate | congruence].
Qed.

Lemma fadd_lit_not_nan (x : float64) (k : Z) :
  x <> NaN -> fadd x (lit k) <> NaN.
Proof.
  unfold lit. destruct x as [a | s |]; cbn [fadd]; intros H;
    [apply pack_not_nan | discriminate | congruence].
Qed.

Lemma min_with_20_not_nan (x : float64) : x <> NaN -> min_with_20 x <> NaN.
Proof.
  unfold min_with_20. destruct (flt (lit 20) x); [discriminate | auto].
Qed.

Section Score.
Variable days_old_of : string -> option Z.
Variable keywords : list string.
Hypothesis keywords_bound : Z.of_nat (List.length keywords) < 2 ^ 48.

Local Abbreviation with_score := (with_score keywords).
Local Abbreviation days_of := (days_of days_old_of).

(** The score with the exact base: what is left are the Reddit bonus
    and the recency bonus. *)
Lemma calculate_score_base (topic : Topic) :
  _calculate_score days_old_of keywords topic
  = rbind (if PyStr.startswith "reddit" (source topic)
           then rbind (fdiv (score topic) (lit 100))
                  (fun part =>
                     Ok (fadd (lit (base_points keywords topic))
                              (min_with_20 part)))
           else Ok (lit (base_points keywords topic)))
      (fun s =>
         let s := if recency_bonus (days_of topic) =? 0 then s
                  else fadd s (lit (recency_bonus (days_of topic))) in
         Ok (s, with_score topic s)).
Proof.
  unfold _calculate_score. fold (text_of topic).
  pose proof (matched_range keywords (text_of topic)) as M.
  pose proof (hits_range high_value (text_of topic)) as H1.
  pose proof (hits_range viral_terms (text_of topic)) as H2.
  cbn [high_value viral_terms List.length] in H1, H2.
  assert (P : 2 ^ 48 * 32 = 2 ^ 53) by reflexivity.
  rewrite (match_keywords_lit keywords (text_of topic) 0 []) by lia.
  cbv beta iota. cbn [app].
  fold (matched keywords (text_of topic)).
  rewrite (add_terms_lit high_value 15) by (cbn [high_value List.length]; lia).
  rewrite (add_terms_lit viral_terms 5)
    by (cbn [high_value viral_terms List.length]; lia).
  assert (B : (if PyStr.contains "2026" (text_of topic)
                  || PyStr.contains "2025" (text_of topic)
               then fadd (lit (0 + 20 * Z.of_nat (List.length
                                 (matched keywords (text_of topic)))
                               + 15 * hits high_value (text_of topic)
                               + 5 * hits viral_terms (text_of topic)))
                         (lit 10)
               else lit (0 + 20 * Z.of_nat (List.length
                                  (matched keywords (text_of topic)))
                         + 15 * hits high_value (text_of topic)
                         + 5 * hits viral_terms (text_of topic)))
              = lit (base_points keywords topic)).
  { unfold base_points, year_bonus.
    destruct (PyStr.contains "2026" (text_of topic)
              || PyStr.contains "2025" (text_of topic)).
    - rewrite fadd_lit by lia. f_equal; lia.
    - f_equal; lia. }
  rewrite B.
  f_equal.
  unfold Ranking.days_of, recency_bonus, Ranking.with_score.
  destruct (days_old_of (PyStr.replace "Z" "+00:00" (published topic)))
    as [d|]; [|reflexivity].
  destruct (d <=? 1); [reflexivity|]. destruct (d <=? 3); [reflexivity|].
  destruct (d <=? 7); reflexivity.
Qed.

(** [_calculate_score] returns for every topic; the topic keeps its
    title and gets the score returned, which is a number when the
    score it came with is one. *)
Lemma calculate_score_total (topic : Topic) :
  exists s,
    _calculate_score days_old_of keywords topic
    = Ok (s, with_score topic s) /\
    (score topic <> NaN -> s <> NaN).
Proof.
  rewrite calculate_score_base.
  assert (R : forall s0, s0 <> NaN ->
                (if recency_bonus (days_of topic) =? 0 then s0
                 else fadd s0 (lit (recency_bonus (days_of topic)))) <> NaN).
  { intros s0 H0. destruct (recency_bonus (days_of topic) =? 0); [auto|].
    apply fadd_lit_not_nan, H0. }
  destruct (PyStr.startswith "reddit" (source topic)).
  - destruct (fdiv_100 (score topic)) as [part [-> Hp]]. cbn [rbind].
    eexists. split; [reflexivity|].
    intros H. apply R, fadd_finite_not_nan, min_with_20_not_nan, Hp, H.
  - cbn [rbind]. eexists. split; [reflexivity|].
    intros _. apply R. discriminate.
Qed.

End Score.

(** X18 -- [_calculate_score] on a topic that is not from Reddit, for
    fewer than [2^48] keywords: no addition rounds, so the score is the
    whole number 20 per configured keyword found (lower-cased, as a
    phrase) plus 15 per high-value term, 5 per viral term, 10 for a year
    and the recency bonus; it lies between 0 and 20 per keyword plus
    165, and [keywords_matched] lists the keywords found, in order. *)
Theorem news_score_is_exact (days_old_of : string -> option Z)
    (keywords : list string) (topic : Topic) :
  Z.of_nat (List.length keywords) < 2 ^ 48 ->
  PyStr.startswith "reddit" (source topic) = false ->
  let points :=
    base_points keywords topic
    + recency_bonus
        (days_old_of (PyStr.replace "Z" "+00:00" (published topic))) in
  exists topic',
    _calculate_score days_old_of keywords topic = Ok (lit points, topic') /\
    score topic' = lit points /\
    keywords_matched topic' = matched keywords (text_of topic) /\
    0 <= points <= 20 * Z.of_nat (List.length keywords) + 165.
Proof.
  intros Hk Hs. cbv zeta.
  rewrite (calculate_score_base days_old_of keywords Hk topic), Hs.
  cbn [rbind]. unfold Ranking.days_of.
  pose proof (base_points_range keywords topic) as B.
  pose proof (recency_bonus_range
                (days_old_of (PyStr.replace "Z" "+00:00" (published topic))))
    as R.
  assert (P : 2 ^ 48 * 32 = 2 ^ 53) by reflexivity.
  destruct (recency_bonus _ =? 0) eqn:E.
  - apply Z.eqb_eq in E. rewrite E, Z.add_0_r.
    eexists. split; [reflexivity|]. cbn [Ranking.with_score score keywords_matched].
    repeat split; lia.
  - rewrite fadd_lit by lia.
    eexists. split; [reflexivity|]. cbn [Ranking.with_score score keywords_matched].
    repeat split; lia.
Qed.

Lemma news_score_is_exact_witness :
  exists topic',
    _calculate_score (fun _ => Some 0) Config.keywords
      (layoffs_topic "2026-01-05T08:00:00Z")
    = Ok (lit (base_points Config.keywords
                 (layoffs_topic "2026-01-05T08:00:00Z")
               + recency_bonus (Some 0)), topic') /\
    score topic'
    = lit (base_points Config.keywords
             (layoffs_topic "2026-01-05T08:00:00Z")
           + recency_bonus (Some 0)) /\
    keywords_matched topic'
    = matched Config.keywords
        (text_of (layoffs_topic "2026-01-05T08:00:00Z")) /\
    0 <= base_points Config.keywords (layoffs_topic "2026-01-05T08:00:00Z")
         + recency_bonus (Some 0)
      <= 20 * Z.of_nat (List.length Config.keywords) + 165.
Proof.
  apply (news_score_is_exact (fun _ => Some 0) Config.keywords
           (layoffs_topic "2026-01-05T08:00:00Z")).
  - vm_compute. reflexivity.
  - vm_compute. reflexivity.
Defined.

End ScoreFacts.

Module RankingFacts.
Import Binary64 TopicDiscovery Ranking Discovery ScoreFacts.

(** ** Sub-sequences *)

Lemma subseq_refl {A} (l : list A) : subseq l l.
Proof.
  induction l; [apply subseq_nil | apply subseq_keep; assumption].
Qed.

Lemma subseq_nil_l {A} (l : list A) : subseq [] l.
Proof.
  induction l; [apply subseq_nil | apply subseq_skip; assumption].
Qed.

Lemma subseq_trans {A} (a b c : list A) :
  subseq a b -> subseq b c -> subseq a c.
Proof.
  intros Hab Hbc. revert a Hab.
  induction Hbc as [| x b c Hbc IH | x b c Hbc IH]; intros a Hab.
  - exact Hab.
  - apply subseq_skip. apply IH, Hab.
  - inversion Hab; subst.
    + apply subseq_skip. apply IH. assumption.
    + apply subseq_keep. apply IH. assumption.
Qed.

Lemma subseq_In {A} (a b : list A) (x : A) : subseq a b -> In x a -> In x b.
Proof.
  induction 1 as [| y a b H IH | y a b H IH]; cbn; intros Hin; auto.
  destruct Hin; auto.
Qed.

Lemma subseq_length {A} (a b : list A) :
  subseq a b -> (List.length a <= List.length b)%nat.
Proof. induction 1; cbn; lia. Qed.

Lemma subseq_map {A B} (f : A -> B) (a b : list A) :
  subseq a b -> subseq (map f a) (map f b).
Proof.
  induction 1; cbn;
    [apply subseq_nil | apply subseq_skip | apply subseq_keep]; assumption.
Qed.

Lemma subseq_NoDup {A} (a b : list A) : subseq a b -> NoDup b -> NoDup a.
Proof.
  induction 1 as [| y a b H IH | y a b H IH]; intros Hn.
  - constructor.
  - inversion Hn; subst. auto.
  - inversion Hn; subst. constructor; auto.
    intros Hin. eapply subseq_In in Hin; eauto.
Qed.

Lemma subseq_sorted {A} (R : A -> A -> Prop) (a b : list A) :
  subseq a b -> StronglySorted R b -> StronglySorted R a.
Proof.
  induction 1 as [| y a b H IH | y a b H IH]; intros Hs.
  - constructor.
  - inversion Hs; subst. auto.
  - inversion Hs as [| ? ? Hs' Hall]; subst. constructor; auto.
    rewrite Forall_forall in *. intros x Hx. apply Hall.
    eapply subseq_In; eauto.
Qed.

Lemma subseq_firstn {A} (n : nat) (l : list A) : subseq (firstn n l) l.
Proof.
  revert n. induction l as [|x l IH]; intros [|n]; cbn.
  - apply subseq_nil.
  - apply subseq_nil.
  - apply subseq_nil_l.
  - apply subseq_keep, IH.
Qed.

Lemma subseq_slice_to {A} (l : list A) (stop : Z) :
  subseq (PyList.slice_to l stop) l.
Proof. unfold PyList.slice_to. destruct (stop <? 0); apply subseq_firstn. Qed.

(** ** The order of the scores *)

Lemma flt_irrefl (x : float64) : flt x x = false.
Proof.
  destruct x as [a | [|] |]; cbn; try reflexivity. apply Z.ltb_irrefl.
Qed.

Lemma flt_asym (x y : float64) : flt x y = true -> flt y x = false.
Proof.
  destruct x as [a | [|] |], y as [b | [|] |]; cbn;
    try discriminate; try reflexivity.
  intros H. apply Z.ltb_lt in H. apply Z.ltb_ge. lia.
Qed.

(** Among numbers, "not below" is transitive. *)
Lemma flt_not_below_trans (x y z : float64) :
  y <> NaN ->
  flt x y = false -> flt y z = false -> flt x z = false.
Proof.
  destruct x as [a | [|] |], y as [b | [|] |], z as [c | [|] |]; cbn;
    try congruence.
  intros _ H1 H2. apply Z.ltb_ge in H1, H2. apply Z.ltb_ge. lia.
Qed.

(** ** The sort *)

Lemma insert_by_score_In (t x : Topic) (l : list Topic) :
  In x (insert_by_score t l) <-> x = t \/ In x l.
Proof.
  induction l as [|y l IH]; cbn.
  - intuition.
  - destruct (flt (score t) (score y)); cbn; [rewrite IH|]; intuition.
Qed.

Lemma sorted_by_score_In (x : Topic) (l : list Topic) :
  In x (sorted_by_score l) <-> In x l.
Proof.
  unfold sorted_by_score. induction l as [|y l IH]; cbn; [tauto|].
  rewrite insert_by_score_In, IH. intuition.
Qed.

Lemma insert_by_score_length (t : Topic) (l : list Topic) :
  List.length (insert_by_score t l) = S (List.length l).
Proof.
  induction l as [|y l IH]; cbn; [reflexivity|].
  destruct (flt (score t) (score y)); cbn; [rewrite IH|]; reflexivity.
Qed.

Lemma sorted_by_score_length (l : list Topic) :
  List.length (sorted_by_score l) = List.length l.
Proof.
  unfold sorted_by_score. induction l as [|y l IH]; cbn; [reflexivity|].
  rewrite insert_by_score_length, IH. reflexivity.
Qed.

Lemma insert_by_score_sorted (t : Topic) (l : list Topic) :
  Forall (fun x => score x <> NaN) l ->
  StronglySorted not_below l ->
  StronglySorted not_below (insert_by_score t l).
Proof.
  intros Hn Hs. induction Hs as [| y l Hs IH Hall]; cbn.
  - constructor; constructor.
  - inversion Hn as [| ? ? Hy Hn']; subst.
    destruct (flt (score t) (score y)) eqn:E.
    + constructor; [apply IH, Hn'|].
      rewrite Forall_forall in *. intros x Hx.
      apply insert_by_score_In in Hx. destruct Hx as [-> | Hx].
      * apply flt_asym, E.
      * apply Hall, Hx.
    + constructor; [constructor; assumption|].
      constructor; [exact E|].
      rewrite Forall_forall in *. intros x Hx.
      eapply flt_not_below_trans; [exact Hy | exact E | apply Hall, Hx].
Qed.

Lemma sorted_by_score_sorted (l : list Topic) :
  Forall (fun x => score x <> NaN) l ->
  StronglySorted not_below (sorted_by_score l).
Proof.
  induction l as [|y l IH]; intros Hn.
  - constructor.
  - inversion Hn as [| ? ? Hy Hn']; subst.
    change (sorted_by_score (y :: l))
      with (insert_by_score y (sorted_by_score l)).
    apply insert_by_score_sorted.
    + rewrite Forall_forall in *. intros x Hx.
      apply (proj1 (sorted_by_score_In x l)) in Hx. apply Hn', Hx.
    + apply IH, Hn'.
Qed.

(** ** The deduplication *)

Lemma dedup_loop_app (ranked : list Topic) :
  forall seen unique,
    dedup_loop ranked seen unique
    = (unique ++ dedup_loop ranked seen [])%list.
Proof.
  induction ranked as [|t rest IH]; intros seen unique; cbn [dedup_loop].
  - rewrite List.app_nil_r. reflexivity.
  - destruct (existsb (String.eqb (title_key t)) seen).
    + apply IH.
    + rewrite IH. rewrite (IH _ ([] ++ [t])%list).
      rewrite <- List.app_assoc. reflexivity.
Qed.

Lemma seen_iff (key : string) (seen : list string) :
  existsb (String.eqb key) seen = true <-> In key seen.
Proof.
  rewrite existsb_exists. split.
  - intros [x [Hx E]]. apply String.eqb_eq in E. subst. exact Hx.
  - intros H. exists key. split; [exact H | apply String.eqb_refl].
Qed.

Lemma dedup_loop_subseq (ranked : list Topic) :
  forall seen, subseq (dedup_loop ranked seen []) ranked.
Proof.
  induction ranked as [|t rest IH]; intros seen; cbn [dedup_loop].
  - apply subseq_nil.
  - destruct (existsb (String.eqb (title_key t)) seen).
    + apply subseq_skip. apply IH.
    + rewrite dedup_loop_app. cbn [app]. apply subseq_keep. apply IH.
Qed.

Lemma dedup_loop_fresh (ranked : list Topic) :
  forall seen,
    NoDup (map title_key (dedup_loop ranked seen [])) /\
    (forall t, In t (dedup_loop ranked seen []) ->
               ~ In (title_key t) seen).
Proof.
  induction ranked as [|t rest IH]; intros seen; cbn [dedup_loop].
  - split; [constructor | intros ? []].
  - destruct (existsb (String.eqb (title_key t)) seen) eqn:E.
    + apply IH.
    + rewrite dedup_loop_app. cbn [app map].
      destruct (IH (seen ++ [title_key t])%list) as [I1 I2].
      split.
      * constructor; [|exact I1].
        intros Hin. apply in_map_iff in Hin. destruct Hin as [x [Hk Hx]].
        apply (I2 x Hx). rewrite Hk. apply in_or_app. right. left.
        reflexivity.
      * intros x [<- | Hx].
        -- intros Hin. apply seen_iff in Hin. congruence.
        -- intros Hin. apply (I2 x Hx). apply in_or_app. left. exact Hin.
Qed.

(** Of the topics that share a title key, the first one of the ranking
    is kept. *)
Lemma dedup_loop_keeps_first (ranked : list Topic) :
  StronglySorted not_below ranked ->
  forall seen t,
    In t ranked ->
    In (title_key t) seen \/
    exists t', In t' (dedup_loop ranked seen []) /\
               title_key t' = title_key t /\ not_below t' t.
Proof.
  induction 1 as [| y rest Hs IH Hall]; intros seen t Hin; [destruct Hin|].
  cbn [dedup_loop].
  destruct (existsb (String.eqb (title_key y)) seen) eqn:E.
  - destruct Hin as [<- | Hin].
    + left. apply seen_iff, E.
    + apply IH, Hin.
  - rewrite dedup_loop_app. cbn [app].
    destruct Hin as [<- | Hin].
    + right. exists y. split; [left; reflexivity|]. split; [reflexivity|].
      apply flt_irrefl.
    + destruct (IH (seen ++ [title_key y])%list t Hin) as [Hs' | [t' [H1 H2]]].
      * apply in_app_or in Hs'. destruct Hs' as [Hs' | [Hk | []]].
        -- left. exact Hs'.
        -- right. exists y. split; [left; reflexivity|].
           split; [exact Hk|].
           rewrite Forall_forall in Hall. apply Hall, Hin.
      * right. exists t'. split; [right; exact H1 | exact H2].
Qed.

Lemma dedup_loop_head (t : Topic) (rest : list Topic) :
  exists kept, dedup_loop (t :: rest) [] [] = t :: kept.
Proof.
  cbn [dedup_loop existsb]. rewrite dedup_loop_app. cbn [app].
  eexists. reflexivity.
Qed.

(** ** Scoring every topic *)

Section Discover.
Context {W : Type}.
Variable google_news_body : W -> Result (list Topic) * W.
Variable reddit_body : W -> Result (list Topic) * W.
Variable days_old_of : string -> option Z.
Variable keywords : list string.

Local Abbreviation score_of := (_calculate_score days_old_of keywords).
Local Abbreviation score_all := (score_all days_old_of keywords).
Local Abbreviation rank_topics := (rank_topics days_old_of keywords).
Local Abbreviation discover :=
  (discover google_news_body reddit_body days_old_of keywords).
Local Abbreviation get_best_topic :=
  (get_best_topic google_news_body reddit_body days_old_of keywords).
Local Abbreviation fetched := (fetched google_news_body reddit_body).

Local Abbreviation scored_as := (scored_as days_old_of keywords).

Lemma calculate_score_returns (topic : Topic) :
  exists topic', scored_as topic topic' /\ title topic' = title topic.
Proof.
  unfold Ranking.scored_as, _calculate_score.
  destruct (match_keywords keywords _ (lit 0) []) as [sc mk].
  destruct (PyStr.startswith "reddit" (source topic)).
  - destruct (fdiv_100 (score topic)) as [part [-> _]]. cbn [rbind].
    eexists (Build_Topic _ _ _ _ _ _ _ _). split; reflexivity.
  - cbn [rbind]. eexists (Build_Topic _ _ _ _ _ _ _ _). split; reflexivity.
Qed.

Lemma score_all_total (all_topics : list Topic) :
  exists scored,
    score_all all_topics = Ok scored /\ Forall2 scored_as all_topics scored.
Proof.
  induction all_topics as [|t rest [scored [E F]]].
  - exists []. split; [reflexivity | constructor].
  - destruct (calculate_score_returns t) as [t' [Ht _]].
    exists (t' :: scored). cbn [Discovery.score_all].
    unfold Ranking.scored_as in Ht. rewrite Ht. cbn [rbind]. rewrite E. cbn [rbind snd].
    split; [reflexivity | constructor; assumption].
Qed.

Lemma scored_as_title (topic topic' : Topic) :
  scored_as topic topic' -> title_key topic' = title_key topic.
Proof.
  intros H. destruct (calculate_score_returns topic) as [t2 [H2 E]].
  unfold Ranking.scored_as in *. rewrite H in H2. injection H2 as _ ->.
  unfold title_key. rewrite E. reflexivity.
Qed.

Lemma scored_as_number (topic topic' : Topic) :
  Z.of_nat (List.length keywords) < 2 ^ 48 ->
  score topic <> NaN -> scored_as topic topic' -> score topic' <> NaN.
Proof.
  intros Hk Hn H.
  destruct (calculate_score_total days_old_of keywords Hk topic)
    as [s [E Hs]].
  unfold Ranking.scored_as in H. rewrite H in E. injection E as E1 E2.
  rewrite E1. apply Hs, Hn.
Qed.

Lemma Forall2_In_l {A B} (R : A -> B -> Prop) (l : list A) (l' : list B)
    (x : A) :
  Forall2 R l l' -> In x l -> exists y, In y l' /\ R x y.
Proof.
  induction 1 as [| a b l l' Hab _ IH]; intros Hin; [destruct Hin|].
  destruct Hin as [<- | Hin].
  - exists b. split; [left; reflexivity | exact Hab].
  - destruct (IH Hin) as [y [Hy Hr]]. exists y. split; [right|]; assumption.
Qed.

Lemma Forall2_In_r {A B} (R : A -> B -> Prop) (l : list A) (l' : list B)
    (y : B) :
  Forall2 R l l' -> In y l' -> exists x, In x l /\ R x y.
Proof.
  induction 1 as [| a b l l' Hab _ IH]; intros Hin; [destruct Hin|].
  destruct Hin as [<- | Hin].
  - exists a. split; [left; reflexivity | exact Hab].
  - destruct (IH Hin) as [x [Hx Hr]]. exists x. split; [right|]; assumption.
Qed.

Lemma rank_topics_returns (limit : Z) (all_topics : list Topic) :
  exists top, rank_topics limit all_topics = Ok top.
Proof.
  unfold Discovery.rank_topics.
  destruct (score_all_total all_topics) as [scored [-> _]]. cbn [rbind].
  eexists. reflexivity.
Qed.

(** X19 -- [discover] from the scoring on: whatever was fetched and
    whatever the limit, a list comes back; no two of its topics share a
    title key (the lower-cased first 50 characters of the title), each
    is a fetched topic with its score calculated, and for a limit that
    is not negative there are at most [limit] of them. *)
Theorem ranking_is_deduplicated (limit : Z) (all_topics : list Topic) :
  exists top,
    rank_topics limit all_topics = Ok top /\
    NoDup (map title_key top) /\
    (forall t', In t' top -> exists t, In t all_topics /\ scored_as t t') /\
    (limit < 0 \/ Z.of_nat (List.length top) <= limit).
Proof.
  unfold Discovery.rank_topics.
  destruct (score_all_total all_topics) as [scored [-> F]]. cbn [rbind].
  eexists. split; [reflexivity|].
  set (unique := dedup_loop (sorted_by_score scored) [] []).
  pose proof (subseq_slice_to unique limit) as S1.
  pose proof (dedup_loop_subseq (sorted_by_score scored) []) as S2.
  fold unique in S2.
  repeat split.
  - apply (subseq_NoDup _ (map title_key unique)).
    + apply subseq_map, S1.
    + apply dedup_loop_fresh.
  - intros t' Hin.
    apply (Forall2_In_r _ _ _ _ F).
    apply sorted_by_score_In.
    eapply subseq_In; [exact S2|]. eapply subseq_In; [exact S1 | exact Hin].
  - unfold PyList.slice_to.
    destruct (limit <? 0) eqn:E; [apply Z.ltb_lt in E; left; exact E|].
    apply Z.ltb_ge in E. right. rewrite length_firstn. lia.
Qed.

(** X20 -- The ranking, when every fetched score is a number and there
    are fewer than [2^48] keywords: the list that comes back is in
    descending order of score, and every fetched topic whose title key
    is among those returned is represented there by a topic that does
    not score lower. *)
Theorem ranking_is_sorted (limit : Z) (all_topics : list Topic) :
  Z.of_nat (List.length keywords) < 2 ^ 48 ->
  Forall (fun t => score t <> NaN) all_topics ->
  exists top,
    rank_topics limit all_topics = Ok top /\
    StronglySorted not_below top /\
    (forall t t' kept,
        In t all_topics -> scored_as t t' ->
        In kept top -> title_key kept = title_key t ->
        not_below kept t').
Proof.
  intros Hk Hn. unfold Discovery.rank_topics.
  destruct (score_all_total all_topics) as [scored [-> F]]. cbn [rbind].
  eexists. split; [reflexivity|].
  set (ranked := sorted_by_score scored).
  set (unique := dedup_loop ranked [] []).
  pose proof (subseq_slice_to unique limit) as S1.
  pose proof (dedup_loop_subseq ranked []) as S2. fold unique in S2.
  assert (N : Forall (fun t' => score t' <> NaN) scored).
  { rewrite Forall_forall in *. intros t' Hin.
    destruct (Forall2_In_r _ _ _ _ F Hin) as [t [Ht Hs]].
    eapply scored_as_number; eauto. }
  assert (Sorted : StronglySorted not_below ranked)
    by (apply sorted_by_score_sorted, N).
  split.
  - eapply subseq_sorted; [exact S1|].
    eapply subseq_sorted; [exact S2 | exact Sorted].
  - intros t t' kept Hin Hs Hkept Hkey.
    destruct (Forall2_In_l _ _ _ _ F Hin) as [t2 [Ht2 Hs2]].
    unfold Ranking.scored_as in Hs, Hs2. rewrite Hs in Hs2.
    injection Hs2 as _ <-.
    assert (Hr : In t' ranked) by (apply sorted_by_score_In, Ht2).
    destruct (dedup_loop_keeps_first ranked Sorted [] t' Hr)
      as [[] | [k [Hk1 [Hk2 Hk3]]]].
    fold unique in Hk1.
    (* the kept topic with this key is [k] *)
    assert (kept = k); [|subst; exact Hk3].
    assert (Hku : In kept unique) by (eapply subseq_In; eauto).
    pose proof (proj1 (dedup_loop_fresh ranked [])) as ND.
    fold unique in ND.
    assert (Key : title_key kept = title_key k).
    { rewrite Hkey, Hk2. symmetry. apply scored_as_title. exact Hs. }
    clear - Hku Hk1 ND Key.
    induction unique as [|u us IH]; [destruct Hku|].
    cbn [map] in ND. inversion ND as [| ? ? Hnot ND']; subst.
    destruct Hku as [-> | Hku], Hk1 as [<- | Hk1]; auto.
    + exfalso. apply Hnot. rewrite Key. apply in_map, Hk1.
    + exfalso. apply Hnot. rewrite <- Key. apply in_map, Hku.
Qed.

(** The topics a fetcher hands over with the fallback [[]]: a list in
    every case. *)
Lemma fetcher_returns (body : W -> Result (list Topic) * W) (N : Z)
    (D : Q) (log_errors : bool) (todo : nat) :
  forall attempt w,
    attempt + Z.of_nat todo = N -> (1 <= todo)%nat ->
    exists topics w' tr,
      Utils.attempts N D (Some []) log_errors (returning_value body)
                     todo attempt w
      = (Ok (Some topics), w', tr).
Proof.
  induction todo as [|todo IH]; intros attempt w Hsum Hpos; [lia|].
  cbn [Utils.attempts]. unfold returning_value at 1.
  destruct (body w) as [[topics | e] w1]; cbn [rbind].
  - do 3 eexists. reflexivity.
  - destruct (attempt <? N - 1) eqn:E.
    + apply Z.ltb_lt in E.
      destruct (IH (attempt + 1) w1 ltac:(lia) ltac:(lia))
        as [topics [w' [tr ->]]].
      do 3 eexists. reflexivity.
    + do 3 eexists. reflexivity.
Qed.

Lemma discover_ranks_fetched (limit : Z) (w : W) :
  fst (discover limit w) = rank_topics limit (fetched w).
Proof.
  unfold Discovery.discover, Discovery.fetched, fetch_google_news,
    fetch_reddit, Utils.handle_errors, Utils.wrapper. cbn [Utils.kwarg].
  destruct (fetcher_returns google_news_body 3 2 true (Z.to_nat 3) 0 w
              ltac:(lia) ltac:(lia)) as [news [w1 [tr1 ->]]].
  cbn [rbind extend app].
  destruct (fetcher_returns reddit_body 3 2 true (Z.to_nat 3) 0 w1
              ltac:(lia) ltac:(lia)) as [posts [w2 [tr2 ->]]].
  cbn [rbind extend app fst]. reflexivity.
Qed.

(** X21 -- [discover] never raises: the fetchers fall back to an empty
    list, scoring only divides by 100, and what comes back is the
    ranking of the topics fetched; [get_best_topic] answers [None]
    exactly when nothing was fetched. *)
Theorem discover_never_raises (limit : Z) (w : W) :
  (exists top,
      fst (discover limit w) = Ok top /\
      rank_topics limit (fetched w) = Ok top) /\
  (exists best,
      fst (get_best_topic w) = Ok best /\
      (best = None <-> fetched w = [])).
Proof.
  split.
  - destruct (rank_topics_returns limit (fetched w)) as [top E].
    exists top. rewrite discover_ranks_fetched. auto.
  - unfold Discovery.get_best_topic.
    pose proof (discover_ranks_fetched 1 w) as D.
    destruct (Discovery.discover _ _ _ _ 1 w) as [r w']. cbn [fst] in D.
    subst r. cbn [fst].
    unfold Discovery.rank_topics.
    destruct (score_all_total (fetched w)) as [scored [-> F]].
    cbn [rbind]. eexists. split; [reflexivity|].
    destruct (fetched w) as [|t rest].
    + inversion F; subst. cbn. tauto.
    + inversion F as [| ? t' ? scored' Ht F']; subst.
      assert (L : (1 <= List.length (sorted_by_score (t' :: scored')))%nat)
        by (rewrite sorted_by_score_length; cbn; lia).
      destruct (sorted_by_score (t' :: scored')) as [|r0 rs];
        [cbn in L; lia|].
      destruct (dedup_loop_head r0 rs) as [kept ->].
      cbn. split; discriminate.
Qed.

(** X22 -- [get_best_topic], when every fetched score is a number and
    there are fewer than [2^48] keywords: the topic returned scores at
    least as high as every fetched topic does after scoring. *)
Theorem best_topic_is_top_scored (w : W) (best : Topic) :
  Z.of_nat (List.length keywords) < 2 ^ 48 ->
  Forall (fun t => score t <> NaN) (fetched w) ->
  fst (get_best_topic w) = Ok (Some best) ->
  (exists t, In t (fetched w) /\ scored_as t best) /\
  (forall t t', In t (fetched w) -> scored_as t t' -> not_below best t').
Proof.
  intros Hk Hn. unfold Discovery.get_best_topic.
  pose proof (discover_ranks_fetched 1 w) as D.
  destruct (Discovery.discover _ _ _ _ 1 w) as [r w']. cbn [fst] in D.
  subst r. cbn [fst].
  unfold Discovery.rank_topics.
  destruct (score_all_total (fetched w)) as [scored [-> F]].
  cbn [rbind].
  assert (N : Forall (fun t' => score t' <> NaN) scored).
  { rewrite Forall_forall in *. intros t' Hin.
    destruct (Forall2_In_r _ _ _ _ F Hin) as [t [Ht Hs]].
    eapply scored_as_number; eauto. }
  pose proof (sorted_by_score_sorted scored N) as Sorted.
  pose proof (fun x => sorted_by_score_In x scored) as Mem.
  destruct (sorted_by_score scored) as [|r0 rs].
  - cbn. discriminate.
  - destruct (dedup_loop_head r0 rs) as [kept ->].
    cbn. intros H. injection H as <-.
    split.
    + apply (Forall2_In_r _ _ _ _ F). apply Mem. left. reflexivity.
    + intros t t' Hin Hs.
      destruct (Forall2_In_l _ _ _ _ F Hin) as [t2 [Ht2 Hs2]].
      unfold Ranking.scored_as in Hs, Hs2. rewrite Hs in Hs2.
      injection Hs2 as _ <-.
      apply Mem in Ht2. destruct Ht2 as [<- | Ht2].
      * apply flt_irrefl.
      * inversion Sorted as [| ? ? _ Hall]; subst.
        rewrite Forall_forall in Hall. apply Hall, Ht2.
Qed.

(** A fetcher whose body raises at every call hands over the fallback. *)
Lemma fetcher_down (body : W -> Result (list Topic) * W) (N : Z)
    (D : Q) (log_errors : bool) (todo : nat) :
  (forall w, exists e, fst (body w) = Raise e) ->
  forall attempt w,
    attempt + Z.of_nat todo = N -> (1 <= todo)%nat ->
    exists w' tr,
      Utils.attempts N D (Some []) log_errors (returning_value body)
                     todo attempt w
      = (Ok (Some []), w', tr).
Proof.
  intros Hdown.
  induction todo as [|todo IH]; intros attempt w Hsum Hpos; [lia|].
  cbn [Utils.attempts]. unfold returning_value at 1.
  destruct (Hdown w) as [e He].
  destruct (body w) as [r w1]. cbn [fst] in He. subst r. cbn [rbind].
  destruct (attempt <? N - 1) eqn:E.
  - apply Z.ltb_lt in E.
    destruct (IH (attempt + 1) w1 ltac:(lia) ltac:(lia)) as [w' [tr ->]].
    do 2 eexists. reflexivity.
  - do 2 eexists. reflexivity.
Qed.

(** X23 -- With both sources down at every attempt, [discover] still
    returns: an empty list, for any limit, and [get_best_topic] answers
    [None]. *)
Theorem sources_down_give_no_topic (limit : Z) (w : W) :
  (forall w, exists e, fst (google_news_body w) = Raise e) ->
  (forall w, exists e, fst (reddit_body w) = Raise e) ->
  fst (discover limit w) = Ok [] /\
  fst (get_best_topic w) = Ok None.
Proof.
  intros Hn Hr.
  assert (F : fetched w = []).
  { unfold Discovery.fetched, fetch_google_news, fetch_reddit,
      Utils.handle_errors, Utils.wrapper. cbn [Utils.kwarg].
    destruct (fetcher_down google_news_body 3 2 true (Z.to_nat 3) Hn 0 w
                ltac:(lia) ltac:(lia)) as [w1 [tr1 ->]].
    destruct (fetcher_down reddit_body 3 2 true (Z.to_nat 3) Hr 0 w1
                ltac:(lia) ltac:(lia)) as [w2 [tr2 ->]].
    reflexivity. }
  split.
  - rewrite discover_ranks_fetched, F.
    unfold Discovery.rank_topics, PyList.slice_to. cbn.
    destruct (limit <? 0); destruct (Z.to_nat _); reflexivity.
  - unfold Discovery.get_best_topic.
    pose proof (discover_ranks_fetched 1 w) as D.
    destruct (Discovery.discover _ _ _ _ 1 w) as [r w']. cbn [fst] in D.
    subst r. rewrite F. reflexivity.
Qed.

End Discover.

Lemma ranking_is_deduplicated_witness :
  exists top,
    rank_topics (fun _ => Some 0) Config.keywords 1
      [layoffs_topic "2026-01-05T08:00:00Z"; warehouse_post;
       layoffs_topic "2026-01-04T08:00:00Z"] = Ok top /\
    NoDup (map title_key top) /\
    Z.of_nat (List.length top) <= 1.
Proof.
  destruct (ranking_is_deduplicated (fun _ => Some 0) Config.keywords 1
              [layoffs_topic "2026-01-05T08:00:00Z"; warehouse_post;
               layoffs_topic "2026-01-04T08:00:00Z"])
    as [top [E [N [_ [L | L]]]]].
  - lia.
  - exists top. repeat split; assumption.
Defined.

Lemma ranking_is_sorted_witness :
  exists top,
    rank_topics (fun _ => Some 0) Config.keywords 10
      [layoffs_topic "2026-01-05T08:00:00Z"; warehouse_post] = Ok top /\
    StronglySorted not_below top /\
    List.length top = 2%nat.
Proof.
  destruct (ranking_is_sorted (fun _ => Some 0) Config.keywords 10
              [layoffs_topic "2026-01-05T08:00:00Z"; warehouse_post])
    as [top [E [S _]]].
  - vm_compute. reflexivity.
  - repeat constructor; discriminate.
  - exists top. split; [exact E|]. split; [exact S|].
    revert E. vm_compute. intros E. injection E as <-. reflexivity.
Defined.

Lemma best_topic_is_top_scored_witness :
  exists best,
    fst (get_best_topic
           (feed_of [layoffs_topic "2026-01-05T08:00:00Z"])
           (feed_of [warehouse_post]) (fun _ => Some 0) Config.keywords tt)
    = Ok (Some best) /\
    title best = "Robots replace warehouse jobs" /\
    exists t, In t [layoffs_topic "2026-01-05T08:00:00Z"; warehouse_post] /\
              scored_as (fun _ => Some 0) Config.keywords t best.
Proof.
  assert (E : exists best,
             fst (get_best_topic
                    (feed_of [layoffs_topic "2026-01-05T08:00:00Z"])
                    (feed_of [warehouse_post]) (fun _ => Some 0)
                    Config.keywords tt) = Ok (Some best) /\
             title best = "Robots replace warehouse jobs").
  { eexists. split; vm_compute; reflexivity. }
  destruct E as [best [E T]]. exists best.
  split; [exact E|]. split; [exact T|].
  destruct (best_topic_is_top_scored
              (feed_of [layoffs_topic "2026-01-05T08:00:00Z"])
              (feed_of [warehouse_post]) (fun _ => Some 0) Config.keywords
              tt best) as [H _].
  - vm_compute. reflexivity.
  - vm_compute. repeat constructor; discriminate.
  - exact E.
  - exact H.
Defined.

Lemma sources_down_give_no_topic_witness :
  fst (discover feed_down feed_down (fun _ => Some 0) Config.keywords 10 tt)
  = Ok [] /\
  fst (get_best_topic feed_down feed_down (fun _ => Some 0)
         Config.keywords tt) = Ok None.
Proof.
  apply (sources_down_give_no_topic feed_down feed_down (fun _ => Some 0)
           Config.keywords 10 tt);
    intros w; eexists; reflexivity.
Defined.

End RankingFacts.

(* ===================================================================== *)
(** * Facts about downloading the visuals                                  *)
(* ===================================================================== *)

Module DownloadFacts.
Import VisualSourcer Download Ranking RankingFacts.

Section Facts.
Context {W : Type}.
Variable download_dir : string.
Variable file_exists : W -> string -> bool.
Variable fetch_to : string -> string -> W -> Result unit * W.

Local Abbreviation filepath_of := (filepath_of download_dir).
Local Abbreviation download_visual_body :=
  (download_visual_body download_dir file_exists fetch_to).
Local Abbreviation download_visual :=
  (download_visual download_dir file_exists fetch_to).
Local Abbreviation download_loop :=
  (download_loop download_dir file_exists fetch_to).
Local Abbreviation download_all :=
  (download_all download_dir file_exists fetch_to).

Local Abbreviation stored := (stored download_dir).




Lemma download_loop_app (visuals : list Visual) :
  forall downloaded w,
    fst (download_loop visuals downloaded w)
    = (downloaded ++ fst (download_loop visuals [] w))%list /\
    snd (download_loop visuals downloaded w)
    = snd (download_loop visuals [] w).
Proof.
  induction visuals as [|v rest IH]; intros downloaded w;
    cbn [Download.download_loop].
  - cbn [fst snd]. rewrite List.app_nil_r. auto.
  - destruct (download_visual v w) as [[[x | e] w1] tr].
    + destruct (IH (downloaded ++ [x])%list w1) as [I1 I2].
      destruct (IH ([] ++ [x])%list w1) as [J1 J2].
      rewrite I1, I2, J1, J2, <- List.app_assoc. auto.
    + apply IH.
Qed.


(** X25 -- A visual whose file is already in the download directory
    is returned without any request: when every file exists,
    [download_all] hands back every visual and leaves the state as it
    was. *)
Theorem downloaded_files_are_reused (visuals : list Visual) (w : W) :
  (forall v, In v visuals -> file_exists w (filepath_of v) = true) ->
  download_all visuals w = (map stored visuals, w).
Proof.
  unfold Download.download_all.
  induction visuals as [|v rest IH]; intros H; cbn [Download.download_loop].
  - reflexivity.
  - unfold Download.download_visual, Utils.handle_errors, Utils.wrapper.
    cbn [Utils.kwarg]. change (Z.to_nat 3) with 3%nat.
    cbn [Utils.attempts]. unfold Download.download_visual_body at 1.
    rewrite (H v (or_introl eq_refl)).
    change (Some (with_local_path v (filepath_of v))) with (stored v).
    destruct (download_loop_app rest ([] ++ [stored v])%list w) as [A1 A2].
    rewrite (surjective_pairing (download_loop rest ([] ++ [stored v]) w)).
    rewrite A1, A2, IH by (intros; apply H; right; assumption).
    reflexivity.
Qed.

Lemma attempts_all_fail (visual : Visual) (N : Z) (D : Q)
    (log_errors : bool) (todo : nat) :
  (forall w, exists e, fst (download_visual_body visual w) = Raise e) ->
  forall attempt w,
    attempt + Z.of_nat todo = N -> (1 <= todo)%nat ->
    exists e w' tr,
      Utils.attempts N D None log_errors (download_visual_body visual)
                     todo attempt w = (Raise e, w', tr).
Proof.
  intros Hfail.
  induction todo as [|todo IH]; intros attempt w Hsum Hpos; [lia|].
  cbn [Utils.attempts].
  destruct (Hfail w) as [e He].
  destruct (download_visual_body visual w) as [r w1]. cbn [fst] in He.
  subst r.
  destruct (attempt <? N - 1) eqn:E.
  - apply Z.ltb_lt in E.
    destruct (IH (attempt + 1) w1 ltac:(lia) ltac:(lia))
      as [e' [w' [tr ->]]].
    do 3 eexists. reflexivity.
  - do 3 eexists. reflexivity.
Qed.

(** X26 -- When no file is there and every request fails,
    [download_all] returns the empty list: each visual is given up after
    its attempts, and the failure is logged, not raised. *)
Theorem failed_downloads_are_dropped (visuals : list Visual) (w : W) :
  (forall w path, file_exists w path = false) ->
  (forall url path w, exists e, fst (fetch_to url path w) = Raise e) ->
  fst (download_all visuals w) = [].
Proof.
  intros Hno Hfail. unfold Download.download_all. revert w.
  induction visuals as [|v rest IH]; intros w; cbn [Download.download_loop].
  - reflexivity.
  - assert (B : forall w, exists e,
                 fst (download_visual_body v w) = Raise e).
    { intros w0. unfold Download.download_visual_body. rewrite Hno.
      destruct (Hfail (download_url v) (filepath_of v) w0) as [e He].
      destruct (fetch_to _ _ w0) as [r w1]. cbn [fst] in He. subst r.
      exists e. reflexivity. }
    unfold Download.download_visual, Utils.handle_errors, Utils.wrapper.
    cbn [Utils.kwarg].
    destruct (attempts_all_fail v 3 2 true (Z.to_nat 3) B 0 w
                ltac:(lia) ltac:(lia)) as [e [w' [tr ->]]].
    apply IH.
Qed.

(** X27 -- A retry trusts the file it finds: when the first request
    fails but leaves a file behind, the second attempt sees the file and
    returns the visual with that path, without a second request. *)
Theorem leftover_file_ends_the_retries (visual : Visual) (w w1 : W)
    (e : exn) :
  file_exists w (filepath_of visual) = false ->
  fetch_to (download_url visual) (filepath_of visual) w = (Raise e, w1) ->
  file_exists w1 (filepath_of visual) = true ->
  download_visual visual w
  = (Ok (stored visual), w1,
     [Utils.Invoke 0; Utils.LogError 1 3 e;
      Utils.Sleep (2 * inject_Z (2 ^ 0))%Q;
      Utils.Invoke 1; Utils.LogSucceeded 2]).
Proof.
  intros H0 Hf H1.
  unfold Download.download_visual, Utils.handle_errors, Utils.wrapper.
  cbn [Utils.kwarg]. change (Z.to_nat 3) with 3%nat.
  cbn [Utils.attempts]. unfold Download.download_visual_body at 1.
  rewrite H0, Hf. cbn [Z.ltb Z.sub Z.add Z.compare Z.opp Z.pos_sub
                       Pos.compare Pos.compare_cont Pos.pred_double].
  unfold Download.download_visual_body at 1. rewrite H1.
  reflexivity.
Qed.

End Facts.

Lemma leftover_file_ends_the_retries_witness :
  download_visual "downloads" (fun (present : bool) _ => present)
    (fun _ _ _ => (Raise (External "reset"), true))
    (ComplianceChecker.visual_from "pexels") false
  = (Ok (stored "downloads" (ComplianceChecker.visual_from "pexels")), true,
     [Utils.Invoke 0; Utils.LogError 1 3 (External "reset");
      Utils.Sleep (2 * inject_Z (2 ^ 0))%Q;
      Utils.Invoke 1; Utils.LogSucceeded 2]).
Proof.
  apply (leftover_file_ends_the_retries "downloads"
           (fun (present : bool) _ => present)
           (fun _ _ _ => (Raise (External "reset"), true))
           (ComplianceChecker.visual_from "pexels") false true
           (External "reset")); reflexivity.
Defined.

Lemma failed_downloads_are_dropped_witness :
  fst (download_all "downloads" (fun (_ : unit) _ => false)
         (fun _ _ w => (Raise (External "offline"), w))
         [ComplianceChecker.visual_from "pexels"] tt)
  = [].
Proof.
  apply (failed_downloads_are_dropped "downloads"
           (fun (_ : unit) _ => false)
           (fun _ _ w => (Raise (External "offline"), w))
           [ComplianceChecker.visual_from "pexels"] tt).
  - intros w path. reflexivity.
  - intros url path w. eexists. reflexivity.
Defined.

Lemma downloaded_files_are_reused_witness :
  download_all "downloads" (fun (_ : unit) _ => true)
    (fun _ _ w => (Raise (External "offline"), w))
    [ComplianceChecker.visual_from "pexels"] tt
  = (map (stored "downloads") [ComplianceChecker.visual_from "pexels"], tt).
Proof.
  apply (downloaded_files_are_reused "downloads" (fun (_ : unit) _ => true)
           (fun _ _ w => (Raise (External "offline"), w))
           [ComplianceChecker.visual_from "pexels"] tt).
  intros v _. reflexivity.
Defined.

End DownloadFacts.

(* ===================================================================== *)
(** * More facts about the assembler                                       *)
(* ===================================================================== *)

Module OutcomeFacts.
Import Binary64 Binary64Facts DurationFacts SegmentFacts VisualSourcer
  VideoAssembler AssemblerFacts AssemblyLogic.

Lemma ensures_bind {A B} (P : State -> Prop) (m : M A) (k : A -> M B)
    (Q : A -> State -> Prop) (R : B -> State -> Prop) :
  ensures P m Q -> (forall a, ensures (Q a) (k a) R) ->
  ensures P (bind m k) R.
Proof.
  intros Hm Hk s Hs. unfold bind. specialize (Hm s Hs).
  destruct (m s) as [[a | e] s1]; [|exact I].
  apply (Hk a s1 Hm).
Qed.

Lemma ensures_ret {A} (P : State -> Prop) (a : A) :
  ensures P (ret a) (fun _ => P).
Proof. intros s Hs. exact Hs. Qed.

Lemma ensures_lift {A} (P : State -> Prop) (r : Result A) :
  ensures P (lift r) (fun _ => P).
Proof. intros s Hs. unfold lift. destruct r; [exact Hs | exact I]. Qed.




Lemma ensures_log_step (names files : list string) (d : StepDetails) :
  ensures (at_point names files) (log_step d)
          (fun _ => at_point (names ++ [step_name d]) files).
Proof.
  intros s [H1 [H2 H3]]. unfold log_step, on_metrics, update, at_point.
  cbn [metrics steps errors output_dir]. rewrite map_app, H1. auto.
Qed.

Lemma ensures_log_quality_signal (names files : list string) (name : string)
    (value : float64) (target : Z) :
  ensures (at_point names files) (log_quality_signal name value target)
          (fun _ => at_point names files).
Proof. intros s H. exact H. Qed.

Lemma ensures_set_visual_clips (names files : list string)
    (clips : list Clip) :
  ensures (at_point names files) (set_visual_clips clips)
          (fun _ => at_point names files).
Proof. intros s H. exact H. Qed.

Lemma ensures_log_recoverable (names files : list string)
    (error_type message : string) :
  ensures (at_point names files) (log_error error_type message true)
          (fun _ => at_point names files).
Proof.
  intros s [H1 [H2 H3]]. unfold log_error, on_metrics, update, at_point.
  cbn [metrics steps errors output_dir]. repeat split; auto.
  apply Forall_app. split; [exact H2|]. repeat constructor.
Qed.


Lemma ensures_keep_output_file (names files : list string) (name : string) :
  ensures (at_point names files) (add_output_file name)
          (fun _ => at_point names files).
Proof.
  intros s [H1 [H2 H3]]. unfold add_output_file, update, at_point.
  cbn [metrics steps errors output_dir]. repeat split; auto.
  intros x Hx. apply in_or_app. left. apply H3, Hx.
Qed.

Lemma ensures_load_visuals (names files : list string) (env : Env)
    (seg : float64) (visuals : list Visual) :
  forall i clips loaded,
    ensures (at_point names files)
            (load_visuals env visuals seg i clips loaded)
            (fun _ => at_point names files).
Proof.
  induction visuals as [|v rest IH]; intros i clips loaded;
    cbn [load_visuals].
  - apply ensures_ret.
  - eapply ensures_bind; [apply ensures_lift|].
    intros [clip|]; [apply IH|].
    eapply ensures_bind; [apply ensures_log_recoverable|].
    intros ?. apply IH.
Qed.

Lemma ensures_extract_loop (names files : list string) (env : Env)
    (project_id : string) (total : float64)
    (positions : list (float64 * float64)) :
  forall i paths,
    ensures (at_point names files)
            (extract_loop env project_id total positions i paths)
            (fun _ => at_point names files).
Proof.
  induction positions as [|[start stop] rest IH]; intros i paths;
    cbn [extract_loop].
  - apply ensures_ret.
  - destruct (flt total stop); [apply IH|].
    destruct (raises env (CallShort i)).
    + eapply ensures_bind; [|intros ?; apply IH].
      destruct (partial_on_failure env);
        [apply ensures_keep_output_file | apply ensures_ret].
    + eapply ensures_bind; [apply ensures_keep_output_file|].
      intros ?. apply IH.
Qed.

Lemma ensures_extract_shorts (names files : list string) (env : Env)
    (video : Clip) (project_id : string) :
  ensures (at_point names files) (_extract_shorts env video project_id)
          (fun _ => at_point names files).
Proof.
  unfold _extract_shorts.
  eapply ensures_bind; [apply ensures_lift|].
  intros ?. apply ensures_extract_loop.
Qed.


(** One step of a sequence: the first computation by one of the rules
    above, then the rest. *)
Ltac step :=
  eapply ensures_bind;
  [ first [ apply ensures_log_step | apply ensures_log_quality_signal
          | apply ensures_set_visual_clips | apply ensures_load_visuals
          | apply ensures_extract_shorts | apply ensures_lift
          | apply ensures_ret ]
  | intros ? ].





(** ** Shorts of a short video *)

Lemma units_59 : round_mag (59 * unit_scale) 1 = 59 * unit_scale.
Proof.
  pose proof (int_units_exact 59 ltac:(lia)) as E.
  rewrite round_units_nonneg in E by (pose proof unit_scale_pos; lia).
  exact E.
Qed.

Lemma units_one : round_mag unit_scale 1 = unit_scale.
Proof.
  pose proof (int_units_exact 1 ltac:(lia)) as E.
  rewrite round_units_nonneg in E by (pose proof unit_scale_pos; lia).
  rewrite Z.mul_1_l in E. exact E.
Qed.

(** A decimal fraction between 0 and 1 is a float between 0 and 1. *)
Lemma decimal_fraction (n d : Z) :
  0 <= n <= d -> 0 < d ->
  exists c, decimal n d = Finite c /\ 0 <= c <= unit_scale.
Proof.
  intros Hn Hd. pose proof unit_scale_pos as U.
  unfold decimal. rewrite round_units_nonneg by nia.
  eexists. split; [reflexivity|]. split.
  - apply round_mag_nonneg; nia.
  - apply Z.le_trans with (round_mag unit_scale 1);
      [apply round_mag_mono; nia | rewrite units_one; lia].
Qed.

(** A part of a duration is a duration that is not longer. *)
Lemma fmul_fraction (t c : Z) :
  representable t -> 0 <= t -> 0 <= c <= unit_scale ->
  exists y, fmul (Finite t) (Finite c) = Finite y /\ 0 <= y <= t.
Proof.
  intros Hr Ht Hc. pose proof unit_scale_pos as U.
  destruct (representable_mag t Hr) as [R1 R2].
  rewrite Z.abs_eq in R1, R2 by lia.
  unfold fmul. rewrite round_units_nonneg by nia.
  assert (Y0 : 0 <= round_mag (t * c) unit_scale)
    by (apply round_mag_nonneg; nia).
  assert (Y1 : round_mag (t * c) unit_scale <= t).
  { apply Z.le_trans with (round_mag t 1);
      [apply round_mag_mono; nia | lia]. }
  rewrite pack_nonneg by assumption.
  destruct (overflow_threshold <=? _) eqn:O; [apply Z.leb_le in O; lia|].
  eexists. split; [reflexivity | lia].
Qed.

(** A window that ends 59 seconds after a point of the video ends
    after a video that is shorter than 59 seconds. *)
Lemma window_too_long (t y : Z) :
  0 <= y -> t < 59 * unit_scale ->
  flt (Finite t) (fadd (Finite y) (lit 59)) = true.
Proof.
  intros Hy Ht. pose proof unit_scale_pos as U.
  unfold fadd, lit. rewrite round_units_nonneg by nia.
  assert (R : 59 * unit_scale <= round_mag (y + 59 * unit_scale) 1).
  { apply Z.le_trans with (round_mag (59 * unit_scale) 1);
      [rewrite units_59; lia | apply round_mag_mono; nia]. }
  rewrite pack_nonneg by lia.
  destruct (overflow_threshold <=? _); cbn [flt negb]; [reflexivity|].
  apply Z.ltb_lt. lia.
Qed.

(** X29 -- [_extract_shorts] on a video shorter than 59 seconds: only
    the first window, the opening 3 percent, lies within the video, so
    at most the hook Short is written and the two other windows are
    skipped. *)
Theorem short_video_gets_the_hook_only (env : Env) (video : Clip)
    (project_id : string) (t : Z) (s : State) :
  clip_duration video = Finite t ->
  representable t -> 0 <= t < 59 * unit_scale ->
  raises env CallMakeShortsDir = None ->
  fst (_extract_shorts env video project_id s)
  = Ok (match raises env (CallShort 0) with
        | None => ["shorts/" ++ project_id ++ "_short_1.mp4"]
        | Some _ => []
        end).
Proof.
  intros Hd Hr Ht Hm. pose proof unit_scale_pos as U.
  unfold _extract_shorts, lib. rewrite Hm, Hd.
  unfold bind at 1, lift at 1.
  destruct (decimal_fraction 3 100 ltac:(lia) ltac:(lia)) as [c1 [-> C1]].
  destruct (decimal_fraction 3 10 ltac:(lia) ltac:(lia)) as [c2 [-> C2]].
  destruct (decimal_fraction 5 10 ltac:(lia) ltac:(lia)) as [c3 [-> C3]].
  destruct (fmul_fraction t c1 Hr ltac:(lia) C1) as [y1 [-> Y1]].
  destruct (fmul_fraction t c2 Hr ltac:(lia) C2) as [y2 [-> Y2]].
  destruct (fmul_fraction t c3 Hr ltac:(lia) C3) as [y3 [-> Y3]].
  assert (W1 : flt (Finite t) (fmin (lit 59) (Finite y1)) = false).
  { unfold fmin, lit. cbn [flt].
    replace (y1 <? 59 * unit_scale) with true
      by (symmetry; apply Z.ltb_lt; lia).
    cbn [flt]. apply Z.ltb_ge. lia. }
  pose proof (window_too_long t y2 ltac:(lia) ltac:(lia)) as W2.
  pose proof (window_too_long t y3 ltac:(lia) ltac:(lia)) as W3.
  cbn [extract_loop]. rewrite W1, W2, W3.
  destruct (raises env (CallShort 0)).
  - destruct (partial_on_failure env); reflexivity.
  - reflexivity.
Qed.

Lemma short_video_gets_the_hook_only_witness :
  fst (_extract_shorts demo_env (placeholder (lit 30)) "demo"
         (initial_state [] []))
  = Ok ["shorts/demo_short_1.mp4"].
Proof.
  apply (short_video_gets_the_hook_only demo_env (placeholder (lit 30))
           "demo" (30 * unit_scale) (initial_state [] [])).
  - reflexivity.
  - split; vm_compute; reflexivity.
  - split; vm_compute; [discriminate | reflexivity].
  - reflexivity.
Defined.

End OutcomeFacts.

(* ===================================================================== *)
(** * Facts about loading the visuals                                  *)
(* ===================================================================== *)

Module LoadingFacts.
Import Binary64 VisualSourcer VideoAssembler AssemblerFacts LoadingDefs.

Lemma lib_answer {A} (env : Env) (call : LibCall) (a b : A) :
  lib env call a = Ok b -> b = a.
Proof. unfold lib. destruct (raises env call); intros [= <-]. reflexivity. Qed.

Lemma loaded_clip_size (env : Env) (visual : Visual) (t : float64)
    (clip : Clip) :
  load_visual_body env visual t = Ok (Some clip) ->
  clip_size clip = (Config.width, Config.height).
Proof.
  unfold load_visual_body.
  destruct (local_path visual) as [path|]; [|discriminate].
  destruct (String.eqb path EmptyString || negb (path_exists env path));
    [discriminate|].
  match goal with
  | |- match rbind ?inner _ with Ok _ => _ | Raise _ => _ end = _ -> _ =>
      destruct inner as [c0 | e]
  end; cbn [rbind]; [|discriminate].
  destruct (lib env (CallResize path)
              (resize c0 (Config.width, Config.height))) as [c1 | e] eqn:E;
    [|discriminate].
  intros [= <-]. apply lib_answer in E. subst c1. reflexivity.
Qed.

Lemma slot_of_size (env : Env) (seg : float64) (visual : Visual) :
  clip_size (slot_of env seg visual) = (Config.width, Config.height).
Proof.
  unfold slot_of. rewrite _load_visual_body.
  destruct (load_visual_body env visual seg) as [[clip|]|e] eqn:E;
    try reflexivity.
  eapply loaded_clip_size, E.
Qed.

Lemma load_visuals_run (env : Env) (seg : float64) (visuals : list Visual) :
  forall i clips loaded s,
    load_visuals env visuals seg i clips loaded s
    = (Ok ((clips ++ map (slot_of env seg) visuals)%list,
           loaded + Z.of_nat (List.length (filter (loads env seg) visuals))),
       {| metrics :=
            {| step_count := step_count (metrics s);
               steps := steps (metrics s);
               errors :=
                 (errors (metrics s)
                  ++ placeholder_errors env seg visuals i
                       (step_count (metrics s)))%list;
               quality_signals := quality_signals (metrics s);
               success := success (metrics s) |};
          visual_clips := visual_clips s;
          output_dir := output_dir s;
          logs_dir := logs_dir s |}).
Proof.
  induction visuals as [|v rest IH]; intros i clips loaded s.
  - cbn [load_visuals map filter List.length placeholder_errors].
    rewrite !List.app_nil_r, Z.add_0_r.
    destruct s as [[sc st er qs su] vc od ld]. reflexivity.
  - cbn [load_visuals map filter placeholder_errors].
    destruct (load_visual_body_spec env v seg) as (r & Hr & _).
    rewrite <- _load_visual_body in Hr.
    assert (Hl : loads env seg v
                 = match r with Some _ => true | None => false end)
      by (unfold loads; rewrite Hr; reflexivity).
    assert (Hs : slot_of env seg v
                 = match r with Some clip => clip | None => placeholder seg end)
      by (unfold slot_of; rewrite Hr; reflexivity).
    rewrite Hl, Hs.
    unfold bind at 1, lift at 1. rewrite Hr.
    destruct r as [clip|].
    + rewrite IH. cbn [app List.length].
      rewrite <- List.app_assoc. cbn [app].
      do 3 f_equal. lia.
    + unfold bind at 1, log_error, on_metrics, update.
      rewrite IH. cbn [metrics step_count steps errors quality_signals
                       success visual_clips output_dir logs_dir].
      rewrite <- !List.app_assoc. cbn [app]. reflexivity.
Qed.

(** X30 -- Step 3 of [assemble] accounts for every visual: the loop
    returns one clip per visual, each of the configured frame size
    (1920 by 1080), counts the visuals that loaded, and records exactly
    one recoverable [visual_load_failed] error, naming the index, for
    each visual that got a placeholder; steps, verdict and directories
    are left as they were. *)
Theorem load_visuals_accounts_for_each_visual (env : Env) (seg : float64)
    (visuals : list Visual) (s : State) :
  exists clips loaded s',
    load_visuals env visuals seg 0 [] 0 s = (Ok (clips, loaded), s') /\
    List.length clips = List.length visuals /\
    Forall (fun clip => clip_size clip = (Config.width, Config.height))
           clips /\
    loaded = Z.of_nat (List.length (filter (loads env seg) visuals)) /\
    errors (metrics s')
    = (errors (metrics s)
       ++ placeholder_errors env seg visuals 0 (step_count (metrics s)))%list /\
    Z.of_nat (List.length (errors (metrics s')))
    = Z.of_nat (List.length (errors (metrics s)))
      + (Z.of_nat (List.length visuals) - loaded) /\
    steps (metrics s') = steps (metrics s) /\
    success (metrics s') = success (metrics s) /\
    output_dir s' = output_dir s.
Proof.
  do 3 eexists. split; [apply load_visuals_run|].
  cbn [app metrics errors steps success output_dir].
  split; [apply length_map|].
  split.
  { apply Forall_forall. intros clip Hin. apply in_map_iff in Hin.
    destruct Hin as [v [<- _]]. apply slot_of_size. }
  split; [lia|]. split; [reflexivity|].
  split; [|repeat split].
  rewrite List.length_app.
  assert (L : forall vs i,
             (List.length (placeholder_errors env seg vs i
                             (step_count (metrics s)))
              + List.length (filter (loads env seg) vs))%nat
             = List.length vs).
  { induction vs as [|v vs IH]; intros i; [reflexivity|].
    cbn [placeholder_errors filter List.length].
    rewrite List.length_app. specialize (IH (i + 1)).
    destruct (loads env seg v); cbn [List.length]; lia. }
  specialize (L visuals 0). lia.
Qed.

End LoadingFacts.
